(** * embedded-postgres: lifecycle of a supervised PostgreSQL child process

    A shallow embedding of [embedded_postgres.go]: the [Config] value and its
    builders, the cache locator, the remote fetch strategy, and the
    [Start] / [Stop] / [startPostgres] protocol over two Go channels.

    Conventions.
    - Go value types are Rocq values; a method with a value receiver is a
      function from the receiver to the result.
    - Calls that leave the program (file system, network, child processes,
      SQL) are answered by an environment [Env], a record of oracles that
      may depend on the history of external events so far; each call is
      recorded as an [OsEvent].
    - Goroutines are threads of a small-step machine; a schedule is the list
      of thread identifiers chosen to run.

    What the model takes from outside the program.
    - Paths follow [path/filepath] with the separator [/].
    - One goroutine calls [Start] and [Stop].
    - The readiness race is decided by the number of poller iterations that
      begin before the deadline: [<-complete] is taken when one of them
      succeeds, [<-ctx.Done()] otherwise.
    - A child that received SIGQUIT exits, so [Wait] returns. *)

From stdpp Require Import base tactics option list strings pretty numbers.
From Stdlib Require Import ZArith NArith String Ascii List Bool Lia.
Import ListNotations.

Local Open Scope string_scope.
Local Open Scope list_scope.

(** ** Configuration (lines 26-87) *)

Module Cfg.

(** [type PostgresVersion string] *)
Definition PostgresVersion := string.

(** [time.Duration] is an int64 count of nanoseconds. *)
Definition Duration := Z.
Definition Second : Duration := 1000000000%Z.

Record Config := mkConfig {
  version      : PostgresVersion;
  port         : N;            (* uint32 *)
  database     : string;
  username     : string;
  password     : string;
  runtimePath  : string;
  startTimeout : Duration;
  stopTimeout  : Duration
}.

Definition V12_1_0 : PostgresVersion := "12.1.0".

(** The version constants of lines 91-136, in source order. *)
Definition versions : list PostgresVersion :=
  [ "12.1.0"; "12.0.0"; "11.6.0"; "11.5.0"; "11.4.0"; "11.3.0"; "11.2.0";
    "11.1.0"; "11.0.0"; "10.11.0"; "10.10.0"; "10.9.0"; "10.8.0"; "10.7.0";
    "10.6.0"; "10.5.0"; "10.4.0"; "9.6.16"; "9.6.15"; "9.6.14"; "9.6.13";
    "9.6.12"; "9.6.11"; "9.6.10"; "9.6.9"; "9.5.20"; "9.5.19"; "9.5.18";
    "9.5.17"; "9.5.16"; "9.5.15"; "9.5.14"; "9.5.13"; "9.4.25"; "9.4.24";
    "9.4.23"; "9.4.22"; "9.4.21"; "9.4.20"; "9.4.19"; "9.4.18"; "9.3.25";
    "9.3.24"; "9.3.23" ].

(** [DefaultConfig]: [runtimePath] is left at the zero value. *)
Definition DefaultConfig : Config :=
  {| version      := V12_1_0;
     port         := 5432%N;
     database     := "postgres";
     username     := "postgres";
     password     := "postgres";
     runtimePath  := "";
     startTimeout := (15 * Second)%Z;
     stopTimeout  := (5 * Second)%Z |}.

(** Field assignment on the method's own copy [c] of the receiver. *)
Definition set_version (c : Config) (v : PostgresVersion) : Config :=
  mkConfig v (port c) (database c) (username c) (password c)
           (runtimePath c) (startTimeout c) (stopTimeout c).
Definition set_port (c : Config) (p : N) : Config :=
  mkConfig (version c) p (database c) (username c) (password c)
           (runtimePath c) (startTimeout c) (stopTimeout c).
Definition set_database (c : Config) (d : string) : Config :=
  mkConfig (version c) (port c) d (username c) (password c)
           (runtimePath c) (startTimeout c) (stopTimeout c).
Definition set_username (c : Config) (u : string) : Config :=
  mkConfig (version c) (port c) (database c) u (password c)
           (runtimePath c) (startTimeout c) (stopTimeout c).
Definition set_password (c : Config) (p : string) : Config :=
  mkConfig (version c) (port c) (database c) (username c) p
           (runtimePath c) (startTimeout c) (stopTimeout c).
Definition set_runtimePath (c : Config) (p : string) : Config :=
  mkConfig (version c) (port c) (database c) (username c) (password c)
           p (startTimeout c) (stopTimeout c).
Definition set_startTimeout (c : Config) (t : Duration) : Config :=
  mkConfig (version c) (port c) (database c) (username c) (password c)
           (runtimePath c) t (stopTimeout c).
Definition set_stopTimeout (c : Config) (t : Duration) : Config :=
  mkConfig (version c) (port c) (database c) (username c) (password c)
           (runtimePath c) (startTimeout c) t.

(** The builders: the body assigns one field of its copy [c] of the
    receiver and returns the copy. *)
Definition Version (c : Config) (version : PostgresVersion) : Config :=
  let c := set_version c version in c.
Definition Port (c : Config) (port : N) : Config :=
  let c := set_port c port in c.
Definition Database (c : Config) (database : string) : Config :=
  let c := set_database c database in c.
Definition Username (c : Config) (username : string) : Config :=
  let c := set_username c username in c.
Definition Password (c : Config) (password : string) : Config :=
  let c := set_password c password in c.
Definition RuntimePath (c : Config) (path : string) : Config :=
  let c := set_runtimePath c path in c.
Definition StartTimeout (c : Config) (timeout : Duration) : Config :=
  let c := set_startTimeout c timeout in c.
Definition StopTimeout (c : Config) (timeout : Duration) : Config :=
  let c := set_stopTimeout c timeout in c.

(** A call [recv.M(arg)] made on a caller's variable that holds [recv].
    The receiver is passed by value: the method runs on a copy.  The pair
    is (returned value, caller's variable after the call). *)
Definition invoke {A} (method : Config -> A -> Config)
           (recv : Config) (arg : A) : Config * Config :=
  let callee_copy := recv in
  (method callee_copy arg, recv).

(** The fields, and agreement of two values on one field. *)
Inductive field :=
| FVersion | FPort | FDatabase | FUsername | FPassword | FRuntimePath
| FStartTimeout | FStopTimeout.

Definition agree (f : field) (a b : Config) : Prop :=
  match f with
  | FVersion => version a = version b
  | FPort => port a = port b
  | FDatabase => database a = database b
  | FUsername => username a = username b
  | FPassword => password a = password b
  | FRuntimePath => runtimePath a = runtimePath b
  | FStartTimeout => startTimeout a = startTimeout b
  | FStopTimeout => stopTimeout a = stopTimeout b
  end.

(** [r] differs from [c] in field [f] at most. *)
Definition same_but (f : field) (c r : Config) : Prop :=
  forall g, g <> f -> agree g c r.

End Cfg.

(** ** Errors, panics and external events *)

Definition bytes := list Byte.byte.

Inductive errno :=
| EPERM | ENOENT | EIO | EBADF | ENOMEM | EACCES | EFAULT | EEXIST
| ENOTDIR | EINVAL | ENAMETOOLONG | ENOTEMPTY | ELOOP | EOVERFLOW
| EADDRINUSE | ECONNREFUSED
| EOTHER (code : N).

(** Go [error] values as far as the program tells them apart. *)
Inductive error :=
| PathError (op path : string) (e : errno)   (* *os.PathError *)
| SyscallError (e : errno)                   (* a bare syscall.Errno *)
| ErrExist                                   (* os.ErrExist *)
| ErrInvalid                                 (* os.ErrInvalid *)
| EOF                                        (* io.EOF *)
| ErrorString (msg : string).                (* errors.New, fmt.Errorf *)

Definition errno_text (e : errno) : string :=
  match e with
  | EPERM => "operation not permitted"
  | ENOENT => "no such file or directory"
  | EIO => "input/output error"
  | EBADF => "bad file descriptor"
  | ENOMEM => "cannot allocate memory"
  | EACCES => "permission denied"
  | EFAULT => "bad address"
  | EEXIST => "file exists"
  | ENOTDIR => "not a directory"
  | EINVAL => "invalid argument"
  | ENAMETOOLONG => "file name too long"
  | ENOTEMPTY => "directory not empty"
  | ELOOP => "too many levels of symbolic links"
  | EOVERFLOW => "value too large for defined data type"
  | EADDRINUSE => "address already in use"
  | ECONNREFUSED => "connection refused"
  | EOTHER n => "errno " ++ pretty n
  end.

(** [err.Error()] *)
Definition Error (err : error) : string :=
  match err with
  | PathError op path e => op ++ " " ++ path ++ ": " ++ errno_text e
  | SyscallError e => errno_text e
  | ErrExist => "file already exists"
  | ErrInvalid => "invalid argument"
  | EOF => "EOF"
  | ErrorString msg => msg
  end.

(** [os.IsExist]: the underlying error is [ErrExist], [EEXIST] or
    [ENOTEMPTY]. *)
Definition errno_is_exist (e : errno) : bool :=
  match e with EEXIST | ENOTEMPTY => true | _ => false end.

Definition os_IsExist (err : error) : bool :=
  match err with
  | PathError _ _ e => errno_is_exist e
  | SyscallError e => errno_is_exist e
  | ErrExist => true
  | _ => false
  end.

(** [errors.Is(err, io.EOF)] *)
Definition errors_Is_EOF (err : error) : bool :=
  match err with EOF => true | _ => false end.

(** The error numbers stat(2) is documented to return. *)
Definition stat_errnos : list errno :=
  [EACCES; EBADF; EFAULT; EINVAL; EIO; ELOOP; ENAMETOOLONG; ENOENT;
   ENOMEM; ENOTDIR; EOVERFLOW].

(** Ways a goroutine brings the whole program down. *)
Inductive crash :=
| NilDeref              (* nil pointer dereference *)
| SendOnClosed          (* send on closed channel *)
| CloseOfClosed         (* close of closed channel *)
| CloseOfNil            (* close of nil channel *)
| GoPanic (err : error) (* panic(err) *)
| LogFatal.             (* log.Fatal: the program exits with status 1 *)

Inductive res (A : Type) :=
| Ok (a : A)
| Crash (c : crash).
Arguments Ok {A} a.
Arguments Crash {A} c.

Definition pid := nat.

Inductive OsEvent :=
| EvListen (addr : string)
| EvListenClose
| EvUserHomeDir
| EvStat (path : string)
| EvHttpGet (url : string)
| EvReadBody
| EvBodyClose
| EvZipOpen
| EvZipRead
| EvZipEntryReadAll
| EvZipClose
| EvMkdirAll (path : string) (perm : N)
| EvCreate (path : string)
| EvWriteFile (path : string) (data : bytes) (perm : N)
| EvFileClose
| EvLog (line : string)
| EvRemoveAll (path : string)
| EvUnarchive (src dst : string)
| EvRun (cmd : string) (args : list string)
| EvProcStart (cmd : string) (args : list string)
| EvSignalQuit (p : pid)
| EvWait (p : pid)
| EvHealthCheck (dsn : string)
| EvCreateDatabase (dsn : string) (stmt : string).

Definition History := list OsEvent.

(** Events that create or change a file or directory. *)
Definition is_write (e : OsEvent) : bool :=
  match e with
  | EvMkdirAll _ _ | EvCreate _ | EvWriteFile _ _ _ => true
  | _ => false
  end.

(** ** The environment *)

Record FileInfo := { fi_isDir : bool }.

(** One entry as [zipFile.Read] delivers it. *)
Record ZipEntry := {
  ze_open   : option error;      (* error of Read for this entry *)
  ze_header : option string;     (* Header.(zip.FileHeader): its Name, when the assertion holds *)
  ze_data   : bytes + error      (* ioutil.ReadAll on the entry *)
}.

Record ZipFile := {
  zf_entries : list ZipEntry;
  zf_close   : option error
}.

Record Response := {
  resp_ContentLength : Z;
  resp_body          : bytes + error;   (* ioutil.ReadAll(resp.Body) *)
  resp_close         : option error     (* resp.Body.Close() *)
}.

Record Env := {
  GOOS   : string;
  GOARCH : string;
  env_UserHomeDir : History -> string + error;
  env_Stat        : History -> string -> FileInfo + error;
  env_Listen      : History -> string -> option error;
  env_ListenClose : History -> option error;
  env_HttpGet     : History -> string -> option Response * option error;
  env_ZipOpen     : History -> bytes -> Z -> ZipFile + error;
  env_MkdirAll    : History -> string -> option error;
  env_Create      : History -> string -> option error;
  env_WriteFile   : History -> string -> bytes -> option error;
  env_FileClose   : History -> option error;
  env_RemoveAll   : History -> string -> option error;
  env_Unarchive   : History -> string -> string -> option error;
  env_Run         : History -> string -> list string -> option error;
  env_ProcStart   : History -> string -> list string -> option error;
  env_Wait        : History -> pid -> option error;
  env_HealthCheck : History -> string -> option error;
  env_CreateDatabase : History -> string -> string -> option error;
  (** how many iterations of the poller loop begin before the start
      deadline passes *)
  env_attempts    : History -> nat
}.

(** ** Actions: a result and the events emitted, given the history so far *)

Section Actions.

Context {E : Type}.

Definition Act (A : Type) := list E -> res A * list E.

Definition ret {A} (a : A) : Act A := fun _ => (Ok a, []).

Definition bind {A B} (m : Act A) (k : A -> Act B) : Act B :=
  fun h =>
    match m h with
    | (Ok a, es) =>
        let '(r, es') := k a (h ++ es) in (r, es ++ es')
    | (Crash c, es) => (Crash c, es)
    end.

Definition panic {A} (c : crash) : Act A := fun _ => (Crash c, []).

Definition emit (e : E) : Act unit := fun _ => (Ok tt, [e]).

(** An external call: the oracle answers from the history before the call. *)
Definition call {A} (e : E) (answer : list E -> A) : Act A :=
  fun h => (Ok (answer h), [e]).

(** [defer d] placed before [body]: [d] runs when [body] returns or
    panics; it does not run when the program exits inside [body].  A
    panic or exit inside [d] replaces the outcome of [body]. *)
Definition defer {A} (d : Act unit) (body : Act A) : Act A :=
  fun h =>
    match body h with
    | (Crash LogFatal, es) => (Crash LogFatal, es)
    | (r, es) =>
        let '(rd, es') := d (h ++ es) in
        (match rd with Crash c => Crash c | Ok _ => r end, es ++ es')
    end.

End Actions.

Arguments Act : clear implicits.

Declare Scope act_scope.
Delimit Scope act_scope with act.
Notation "x <- m ;; k" := (bind m (fun x => k))
  (at level 100, m at next level, right associativity) : act_scope.
Notation "m ;;; k" := (bind m (fun _ => k))
  (at level 100, right associativity) : act_scope.
Local Open Scope act_scope.

(** [log.Println] *)
Definition log_Println (line : string) : Act OsEvent unit :=
  emit (EvLog line).

(** ** Strings and paths *)

(** [strings.HasSuffix(s, suffix)]:
    [len(s) >= len(suffix) && s[len(s)-len(suffix):] == suffix] *)
Definition HasSuffix (s suffix : string) : bool :=
  (String.length suffix <=? String.length s)%nat
  && String.eqb (substring (String.length s - String.length suffix)
                           (String.length suffix) s) suffix.

(** [[]byte(s)] *)
Definition bytes_of_string (s : string) : bytes := list_byte_of_string s.

(** [path/filepath] with the separator [/]. *)
Module filepath.

Definition is_sep (c : ascii) : bool := Ascii.eqb c "/".

(** The components between separators, as [strings.Split(path, "/")]. *)
Fixpoint split (path : string) : list string :=
  match path with
  | EmptyString => [""]
  | String c rest =>
      if is_sep c then "" :: split rest
      else match split rest with
           | x :: xs => String c x :: xs
           | [] => [String c ""]
           end
  end.

(** The pass of [Clean] over the components; [out] is the stack of
    components kept so far, last one first. *)
Fixpoint clean_go (rooted : bool) (comps : list string) (out : list string)
  : list string :=
  match comps with
  | [] => rev out
  | c :: cs =>
      if String.eqb c "" || String.eqb c "." then clean_go rooted cs out
      else if String.eqb c ".." then
        match out with
        | top :: below =>
            if String.eqb top ".." then clean_go rooted cs (".." :: out)
            else clean_go rooted cs below
        | [] =>
            if rooted then clean_go rooted cs []
            else clean_go rooted cs [".."]
        end
      else clean_go rooted cs (c :: out)
  end.

Fixpoint join_sep (comps : list string) : string :=
  match comps with
  | [] => ""
  | [c] => c
  | c :: cs => c ++ "/" ++ join_sep cs
  end.

Definition rooted (path : string) : bool :=
  match path with
  | String c _ => is_sep c
  | EmptyString => false
  end.

(** [filepath.Clean] *)
Definition Clean (path : string) : string :=
  let body := join_sep (clean_go (rooted path) (split path) []) in
  if rooted path then "/" ++ body
  else if String.eqb body "" then "." else body.

(** [filepath.Join] of two elements: empty elements are ignored, the rest
    is joined by the separator and cleaned. *)
Definition Join (a b : string) : string :=
  if negb (String.eqb a "") then Clean (a ++ "/" ++ b)
  else if negb (String.eqb b "") then Clean b
  else "".

(** The prefix of [path] up to and including its last separator. *)
Fixpoint dir_prefix (path : string) : string :=
  match path with
  | EmptyString => ""
  | String c rest =>
      let r := dir_prefix rest in
      if String.eqb r "" then (if is_sep c then String c "" else "")
      else String c r
  end.

(** [filepath.Dir] *)
Definition Dir (path : string) : string := Clean (dir_prefix path).

(** No separator occurs in [s]. *)
Fixpoint slash_free (s : string) : bool :=
  match s with
  | EmptyString => true
  | String c rest => negb (is_sep c) && slash_free rest
  end.

(** A path element that [Clean] keeps as it is. *)
Definition plain (s : string) : bool :=
  slash_free s && negb (String.eqb s "") && negb (String.eqb s ".")
  && negb (String.eqb s "..").

(** A non-empty path that [Clean] leaves alone, other than [/] and [.]. *)
Definition tidy (path : string) : Prop :=
  Clean path = path /\ path <> "/" /\ path <> ".".

End filepath.

Section Program.

Context (env : Env).

(** ** Cache locator (lines 138-168) *)

Definition CacheLocator := Act OsEvent (string * bool).
Definition VersionStrategy := Act OsEvent (string * string * Cfg.PostgresVersion).
Definition RemoteFetchStrategy := Act OsEvent (option error).

Definition defaultVersionStrategy (config : Cfg.Config) : VersionStrategy :=
  ret (GOOS env, GOARCH env, Cfg.version config).

Definition cacheDirName : string := ".embedded-postgres-go".

(** [fmt.Sprintf("embedded-postgres-binaries-%s-%s-%s.txz", os, arch, version)] *)
Definition archiveName (operatingSystem architecture version : string) : string :=
  "embedded-postgres-binaries-" ++ operatingSystem ++ "-" ++ architecture
    ++ "-" ++ version ++ ".txz".

Definition cacheDirectoryOf (home : string + error) : string :=
  match home with
  | inr _ => cacheDirName
  | inl userHome => filepath.Join userHome cacheDirName
  end.

(** The path the locator computes from the answer of [os.UserHomeDir]. *)
Definition cachePath (home : string + error) (os arch version : string) : string :=
  filepath.Join (cacheDirectoryOf home) (archiveName os arch version).

Definition defaultCacheLocator (versionStrategy : VersionStrategy) : CacheLocator :=
  home <- call EvUserHomeDir (env_UserHomeDir env) ;;
  let cacheDirectory := cacheDirectoryOf home in
  v <- versionStrategy ;;
  let '(operatingSystem, architecture, version) := v in
  let cacheLocation :=
    filepath.Join cacheDirectory
                  (archiveName operatingSystem architecture version) in
  st <- call (EvStat cacheLocation) (fun h => env_Stat env h cacheLocation) ;;
  match st with
  | inr err =>
      (* os.IsExist(err) && !info.IsDir(), with info == nil *)
      if os_IsExist err then panic NilDeref
      else ret (cacheLocation, false)
  | inl info => ret (cacheLocation, negb (fi_isDir info))
  end.

(** ** Remote fetch strategy (lines 359-437) *)

Definition createArchiveFile (archiveLocation : string) (archiveBytes : bytes)
  : Act OsEvent (option error) :=
  let dir := filepath.Dir archiveLocation in
  e1 <- call (EvMkdirAll dir 493) (fun h => env_MkdirAll env h dir) ;;
  match e1 with
  | Some err => ret (Some err)
  | None =>
      e2 <- call (EvCreate archiveLocation)
                 (fun h => env_Create env h archiveLocation) ;;
      defer
        (log_Println archiveLocation ;;;
         match e2 with
         | Some _ =>
             (* filesystemArchive is nil: Close answers os.ErrInvalid *)
             log_Println (Error ErrInvalid)
         | None =>
             c <- call EvFileClose (env_FileClose env) ;;
             match c with
             | Some err => log_Println (Error err)
             | None => ret tt
             end
         end)
        (match e2 with
         | Some err => ret (Some err)
         | None =>
             call (EvWriteFile archiveLocation archiveBytes 438)
                  (fun h => env_WriteFile env h archiveLocation archiveBytes)
         end)
  end.

(** The deferred function of line 372: close the response body; a close
    error is fatal. *)
Definition closeBody (resp : option Response) : Act OsEvent unit :=
  match resp with
  | None => panic NilDeref
  | Some r =>
      emit EvBodyClose ;;;
      match resp_close r with
      | Some _ => emit EvBodyClose ;;; panic LogFatal
      | None => ret tt
      end
  end.

(** The deferred function of line 388. *)
Definition closeZip (z : ZipFile) : Act OsEvent unit :=
  emit EvZipClose ;;;
  match zf_close z with
  | Some _ => panic LogFatal
  | None => ret tt
  end.

Definition downloadUrl (operatingSystem architecture version : string) : string :=
  "https://repo1.maven.org/maven2/io/zonky/test/postgres/embedded-postgres-binaries-"
    ++ operatingSystem ++ "-" ++ architecture ++ "/" ++ version
    ++ "/embedded-postgres-binaries-" ++ operatingSystem ++ "-" ++ architecture
    ++ "-" ++ version ++ ".jar".

(** The loop of lines 393-413 over the entries that remain to be read. *)
Fixpoint fetchEntries (cacheLocator : CacheLocator) (entries : list ZipEntry)
  : Act OsEvent (option error) :=
  match entries with
  | [] => emit EvZipRead ;;; ret None        (* io.EOF: break *)
  | entry :: rest =>
      emit EvZipRead ;;;
      match ze_open entry with
      | Some err =>
          if errors_Is_EOF err then ret None else ret (Some err)
      | None =>
          let wanted :=
            match ze_header entry with
            | Some name => HasSuffix name ".txz"
            | None => false
            end in
          if negb wanted then fetchEntries cacheLocator rest
          else
            emit EvZipEntryReadAll ;;;
            match ze_data entry with
            | inr err => ret (Some err)
            | inl downloadedArchiveBytes =>
                loc <- cacheLocator ;;
                e <- createArchiveFile (fst loc) downloadedArchiveBytes ;;
                match e with
                | Some err => ret (Some err)
                | None => fetchEntries cacheLocator rest
                end
            end
      end
  end.

Definition defaultRemoteFetchStrategy (versionStrategy : VersionStrategy)
           (cacheLocator : CacheLocator) : RemoteFetchStrategy :=
  v <- versionStrategy ;;
  let '(operatingSystem, architecture, version) := v in
  let url := downloadUrl operatingSystem architecture version in
  got <- call (EvHttpGet url) (fun h => env_HttpGet env h url) ;;
  let '(resp, err) := got in
  defer (closeBody resp)
    (match err with
     | Some e => ret (Some e)
     | None =>
         match resp with
         | None => panic NilDeref           (* resp.Body on a nil response *)
         | Some r =>
             emit EvReadBody ;;;
             match resp_body r with
             | inr e => ret (Some e)
             | inl bodyBytes =>
                 opened <- call EvZipOpen
                             (fun h => env_ZipOpen env h bodyBytes (resp_ContentLength r)) ;;
                 match opened with
                 | inr e => ret (Some e)
                 | inl zipFile =>
                     defer (closeZip zipFile)
                           (fetchEntries cacheLocator (zf_entries zipFile))
                 end
             end
         end
     end).

End Program.

(** An entry that can be read and whose name does not end in [.txz]. *)
Definition unwanted (e : ZipEntry) : Prop :=
  ze_open e = None
  /\ forall name, ze_header e = Some name -> HasSuffix name ".txz" = false.

(** ** Channels of capacity one *)

Record chan := mkChan {
  c_buf    : list bool;   (* buffered values, oldest first *)
  c_closed : bool
}.

Definition chan_cap : nat := 1.

(** [make(chan bool, 1)] *)
Definition make_chan : chan := mkChan [] false.

Definition chan_id := nat.

(** The channel objects allocated so far; a channel variable holds an index
    into this list, or is nil. *)
Definition Heap := list chan.

Inductive op (A : Type) :=
| Done (a : A)          (* the operation went through *)
| Blocked               (* the goroutine cannot proceed now *)
| Panics (c : crash).
Arguments Done {A} a.
Arguments Blocked {A}.
Arguments Panics {A} c.

Definition deref (hp : Heap) (r : option chan_id) : option chan :=
  match r with
  | None => None
  | Some i => hp !! i
  end.

(** [ch <- v]: blocks on a nil channel and on a full buffer, panics on a
    closed channel.  Go hands a value straight to a receiver that is already
    waiting; here every value passes through the buffer, which allows each
    order of events Go allows. *)
Definition chan_send (hp : Heap) (r : option chan_id) (v : bool) : op Heap :=
  match r with
  | None => Blocked
  | Some i =>
      match hp !! i with
      | None => Blocked
      | Some c =>
          if c_closed c then Panics SendOnClosed
          else if (length (c_buf c) <? chan_cap)%nat
               then Done (<[i := mkChan (c_buf c ++ [v]) false]> hp)
               else Blocked
      end
  end.

(** One receive of [for v := range ch]: [Some v] is a value, [None] says the
    channel is closed and drained (the loop ends). *)
Definition chan_recv (hp : Heap) (r : option chan_id) : op (option bool * Heap) :=
  match r with
  | None => Blocked
  | Some i =>
      match hp !! i with
      | None => Blocked
      | Some c =>
          match c_buf c with
          | v :: rest => Done (Some v, <[i := mkChan rest (c_closed c)]> hp)
          | [] => if c_closed c then Done (None, hp) else Blocked
          end
      end
  end.

(** [close(ch)] *)
Definition chan_close (hp : Heap) (r : option chan_id) : op Heap :=
  match r with
  | None => Panics CloseOfNil
  | Some i =>
      match hp !! i with
      | None => Panics CloseOfNil
      | Some c =>
          if c_closed c then Panics CloseOfClosed
          else Done (<[i := mkChan (c_buf c) true]> hp)
      end
  end.

(** ** The coordinator (lines 170-196) *)

Record EmbeddedPostgres := mkEP {
  config              : Cfg.Config;
  cacheLocator        : Act OsEvent (string * bool);
  remoteFetchStrategy : Act OsEvent (option error);
  shutdownHook        : option chan_id;
  startupHook         : option chan_id
}.

Definition newDatabaseWithConfig (env : Env) (config : Cfg.Config) (hp : Heap)
  : EmbeddedPostgres * Heap :=
  let versionStrategy := defaultVersionStrategy env config in
  let cacheLocator := defaultCacheLocator env versionStrategy in
  let remoteFetchStrategy :=
    defaultRemoteFetchStrategy env versionStrategy cacheLocator in
  (mkEP config cacheLocator remoteFetchStrategy
        (Some (length hp))     (* shutdownHook: make(chan bool, 1) *)
        None,                  (* startupHook stays nil *)
   hp ++ [make_chan]).

Definition NewDatabase (env : Env) (hp : Heap) : EmbeddedPostgres * Heap :=
  newDatabaseWithConfig env Cfg.DefaultConfig hp.

Definition NewDatabaseWithConfig (env : Env) (config : Cfg.Config) (hp : Heap)
  : EmbeddedPostgres * Heap :=
  newDatabaseWithConfig env config hp.

(** ** Events of a run *)

Inductive Event :=
| Os (e : OsEvent)          (* an external call made by the coordinator's own code *)
| Inner (e : OsEvent)       (* an external call made inside one of its two strategies *)
| InvokeLocator             (* ep.cacheLocator() is called *)
| LocatorReturned (path : string) (found : bool)
| InvokeFetch.              (* ep.remoteFetchStrategy() is called *)

Definition Trace := list Event.

Definition os_view (t : Trace) : History :=
  omap (fun e => match e with Os o | Inner o => Some o | _ => None end) t.

(** An action on the external world run inside the coordinator; [tag] says
    who makes the calls. *)
Definition lift {A} (tag : OsEvent -> Event) (m : Act OsEvent A) : Act Event A :=
  fun t => let '(r, es) := m (os_view t) in (r, map tag es).

Definition is_fetch (e : Event) : bool :=
  match e with InvokeFetch => true | _ => false end.

(** The extraction call of [Start] itself (line 217). *)
Definition is_unarchive (e : Event) : bool :=
  match e with Os (EvUnarchive _ _) => true | _ => false end.

Definition is_report (e : Event) : bool :=
  match e with LocatorReturned _ _ => true | _ => false end.

(** The events of a run that tell the order of the locator's answer, the
    invocations of the fetch strategy and the extraction. *)
Definition marks (t : Trace) : Trace :=
  List.filter (fun e => is_report e || is_fetch e || is_unarchive e) t.

Section Lifecycle.

Context (env : Env).

Local Open Scope string_scope.

Definition userLocationOrDefault (userLocation cacheLocation : string) : string :=
  if negb (String.eqb userLocation "") then userLocation
  else filepath.Join (filepath.Dir cacheLocation) "extracted".

Definition notStarted : error := ErrorString "postgres not yet started".

(** *** [Start], lines 199-235: everything before the supervisor is
    spawned.  [inl err] is [return err]; [inr location] continues at
    line 236 with [binaryExtractLocation]. *)
Definition Start_sync (ep : EmbeddedPostgres) : Act Event (error + string) :=
  let cfg := config ep in
  let addr : string := "localhost:" ++ pretty (Cfg.port cfg) in
  l <- lift Os (call (EvListen addr) (fun h => env_Listen env h addr)) ;;
  match l with
  | Some _ =>
      ret (inl (ErrorString ("process already listening on port "
                               ++ pretty (Cfg.port cfg))))
  | None =>
  c <- lift Os (call EvListenClose (env_ListenClose env)) ;;
  match c with
  | Some err => ret (inl err)
  | None =>
  emit InvokeLocator ;;;
  loc <- lift Inner (cacheLocator ep) ;;
  let '(cacheLocation, exists_) := loc in
  emit (LocatorReturned cacheLocation exists_) ;;;
  f <- (if negb exists_
        then emit InvokeFetch ;;; lift Inner (remoteFetchStrategy ep)
        else ret None) ;;
  match f with
  | Some err => ret (inl err)
  | None =>
  let binaryExtractLocation :=
    userLocationOrDefault (Cfg.runtimePath cfg) cacheLocation in
  r <- lift Os (call (EvRemoveAll binaryExtractLocation)
                  (fun h => env_RemoveAll env h binaryExtractLocation)) ;;
  match r with
  | Some err =>
      ret (inl (ErrorString ("unable to clean up directory "
                               ++ binaryExtractLocation ++ " with error: "
                               ++ Error err)))
  | None =>
  u <- lift Os (call (EvUnarchive cacheLocation binaryExtractLocation)
                  (fun h => env_Unarchive env h cacheLocation binaryExtractLocation)) ;;
  match u with
  | Some err =>
      ret (inl (ErrorString ("unable to extract postgres archive "
                               ++ cacheLocation ++ " to " ++ binaryExtractLocation
                               ++ " with error: " ++ Error err)))
  | None =>
  let pwfileLocation := filepath.Join binaryExtractLocation "pwfile" in
  let pw := bytes_of_string (Cfg.password cfg) in
  w <- lift Os (call (EvWriteFile pwfileLocation pw 384)
                  (fun h => env_WriteFile env h pwfileLocation pw)) ;;
  match w with
  | Some err =>
      ret (inl (ErrorString ("unable to write password file with error: "
                               ++ Error err)))
  | None =>
  let postgresInitDbBinary := filepath.Join binaryExtractLocation "bin/initdb" in
  let args := ["-A"; "password"; "-U"; Cfg.username cfg;
               "-D"; filepath.Join binaryExtractLocation "data";
               "--pwfile=" ++ pwfileLocation] in
  i <- lift Os (call (EvRun postgresInitDbBinary args)
                  (fun h => env_Run env h postgresInitDbBinary args)) ;;
  match i with
  | Some err =>
      ret (inl (ErrorString ("unable to init database with error: "
                               ++ Error err)))
  | None => ret (inr binaryExtractLocation)
  end end end end end end end.

(** *** The readiness poller (lines 257-268, 292-350) *)

Definition connString (port : N) (username password dbname : string) : string :=
  "host=localhost port=" ++ pretty port ++ " user=" ++ username
    ++ " password=" ++ password ++ " dbname=" ++ dbname ++ " sslmode=disable".

(** Open, [SELECT 1], close: whether the whole probe returns nil is the
    server's answer. *)
Definition healthCheckDatabase (port : N) (username password : string)
  : Act OsEvent (option error) :=
  let dsn := connString port username password "postgres" in
  call (EvHealthCheck dsn) (fun h => env_HealthCheck env h dsn).

Definition createDatabase (port : N) (username password database : string)
  : Act OsEvent (option error) :=
  if String.eqb database "postgres" then ret None
  else
    let dsn := connString port username password "postgres" in
    let stmt : string := "CREATE DATABASE " ++ database in
    call (EvCreateDatabase dsn stmt) (fun h => env_CreateDatabase env h dsn stmt).

(** The loop [for ctx.Err() == nil]; [attempts] iterations begin before
    the deadline.  [true]: a value was sent on [complete]. *)
Fixpoint poller (cfg : Cfg.Config) (attempts : nat) : Act OsEvent bool :=
  match attempts with
  | O => ret false
  | S n =>
      e1 <- healthCheckDatabase (Cfg.port cfg) (Cfg.username cfg) (Cfg.password cfg) ;;
      match e1 with
      | Some _ => poller cfg n
      | None =>
          e2 <- createDatabase (Cfg.port cfg) (Cfg.username cfg)
                               (Cfg.password cfg) (Cfg.database cfg) ;;
          match e2 with
          | Some _ => poller cfg n
          | None => ret true
          end
      end
  end.

(** The race of lines 253-274: [true] when [<-complete] is taken, [false]
    when [<-ctx.Done()] is taken. *)
Definition readinessRace (cfg : Cfg.Config) : Act OsEvent bool :=
  fun h => poller cfg (env_attempts env h) h.

End Lifecycle.

Section Extraction.

Context (env : Env) (cfg : Cfg.Config).

Local Open Scope string_scope.


End Extraction.

(** ** The running program: the caller's goroutine and the supervisors *)

(** The child process as the supervisor sees it. *)
Inductive proc :=
| Running
| Quitting      (* SIGQUIT delivered, not yet waited for *)
| Reaped.       (* Wait has returned *)

Inductive api := CallStart | CallStop.

(** Program points of the caller inside [Start] and [Stop]. *)
Inductive main_pc :=
| MIdle                              (* between two calls *)
| MStartMake (location : string)     (* line 236 *)
| MStartGo (location : string)       (* line 237 *)
| MStartRange                        (* line 238 *)
| MStopSend                          (* line 320 *)
| MStopRange.                        (* line 321 *)

(** Program points of one [startPostgres] goroutine. *)
Inductive sup_pc :=
| SSpawn (location : string)         (* lines 244-251 *)
| SRace (p : pid)                    (* lines 253-270 *)
| SReadyClose (p : pid)              (* lines 272-273 *)
| STimeoutSend (p : pid)             (* line 275 *)
| STimeoutClose (p : pid)            (* line 276 *)
| SRange (p : pid)                   (* line 279 *)
| SSignal (p : pid)                  (* line 281 *)
| SWait (p : pid)                    (* line 284 *)
| SClose (p : pid)                   (* line 287 *)
| SDone.                             (* the goroutine has returned *)

Inductive tid :=
| TMain
| TSup (i : nat).

Record Sys := mkSys {
  ep      : EmbeddedPostgres;
  heap    : Heap;
  procs   : list proc;
  trace   : Trace;
  pc      : main_pc;
  todo    : list api;                    (* calls the caller still makes *)
  results : list (api * option error);   (* calls returned so far *)
  sups    : list sup_pc;
  crashed : option crash
}.

Definition set_startupHook (e : EmbeddedPostgres) (r : option chan_id)
  : EmbeddedPostgres :=
  mkEP (config e) (cacheLocator e) (remoteFetchStrategy e) (shutdownHook e) r.

Definition with_ep (s : Sys) (e : EmbeddedPostgres) : Sys :=
  mkSys e (heap s) (procs s) (trace s) (pc s) (todo s) (results s) (sups s) (crashed s).
Definition with_heap (s : Sys) (hp : Heap) : Sys :=
  mkSys (ep s) hp (procs s) (trace s) (pc s) (todo s) (results s) (sups s) (crashed s).
Definition with_procs (s : Sys) (ps : list proc) : Sys :=
  mkSys (ep s) (heap s) ps (trace s) (pc s) (todo s) (results s) (sups s) (crashed s).
Definition with_pc (s : Sys) (p : main_pc) : Sys :=
  mkSys (ep s) (heap s) (procs s) (trace s) p (todo s) (results s) (sups s) (crashed s).
Definition with_todo (s : Sys) (l : list api) : Sys :=
  mkSys (ep s) (heap s) (procs s) (trace s) (pc s) l (results s) (sups s) (crashed s).
Definition with_sups (s : Sys) (l : list sup_pc) : Sys :=
  mkSys (ep s) (heap s) (procs s) (trace s) (pc s) (todo s) (results s) l (crashed s).
Definition log_events (s : Sys) (es : list Event) : Sys :=
  mkSys (ep s) (heap s) (procs s) (trace s ++ es) (pc s) (todo s) (results s)
        (sups s) (crashed s).
Definition returned (s : Sys) (call : api) (r : option error) : Sys :=
  mkSys (ep s) (heap s) (procs s) (trace s) MIdle (todo s)
        (results s ++ [(call, r)]) (sups s) (crashed s).
Definition crash_with (s : Sys) (c : crash) : Sys :=
  mkSys (ep s) (heap s) (procs s) (trace s) (pc s) (todo s) (results s) (sups s) (Some c).
Definition set_sup (s : Sys) (i : nat) (p : sup_pc) : Sys :=
  with_sups s (<[i := p]> (sups s)).

Section Machine.

Context (env : Env).

(** [Start], continued from program point [p] of the caller; [MIdle] is
    the entry of the function. *)
Definition Start (p : main_pc) (s : Sys) : option Sys :=
  match p with
  | MIdle =>
      (* lines 199-235 *)
      let '(r, es) := Start_sync env (ep s) (trace s) in
      let s := log_events s es in
      match r with
      | Crash c => Some (crash_with s c)
      | Ok (inl err) => Some (returned s CallStart (Some err))
      | Ok (inr location) => Some (with_pc s (MStartMake location))
      end
  | MStartMake location =>
      (* ep.startupHook = make(chan bool, 1) *)
      let e := set_startupHook (ep s) (Some (length (heap s))) in
      Some (with_pc (with_heap (with_ep s e) (heap s ++ [make_chan]))
                    (MStartGo location))
  | MStartGo location =>
      (* go ep.startPostgres(binaryExtractLocation) *)
      Some (with_pc (with_sups s (sups s ++ [SSpawn location])) MStartRange)
  | MStartRange =>
      (* for range ep.startupHook {} ; return nil *)
      match chan_recv (heap s) (startupHook (ep s)) with
      | Done (Some _, hp) => Some (with_heap s hp)
      | Done (None, _) => Some (returned s CallStart None)
      | Blocked => None
      | Panics c => Some (crash_with s c)
      end
  | MStopSend | MStopRange => None
  end.

(** [Stop], continued from program point [p] of the caller; [MIdle] is the
    entry of the function. *)
Definition Stop (p : main_pc) (s : Sys) : option Sys :=
  match p with
  | MIdle =>
      (* if ep.startupHook == nil { return errors.New(...) } *)
      match startupHook (ep s) with
      | None => Some (returned s CallStop (Some notStarted))
      | Some _ => Some (with_pc s MStopSend)
      end
  | MStopSend =>
      (* ep.shutdownHook <- true *)
      match chan_send (heap s) (shutdownHook (ep s)) true with
      | Done hp => Some (with_pc (with_heap s hp) MStopRange)
      | Blocked => None
      | Panics c => Some (crash_with s c)
      end
  | MStopRange =>
      (* for range ep.shutdownHook {} ; return nil *)
      match chan_recv (heap s) (shutdownHook (ep s)) with
      | Done (Some _, hp) => Some (with_heap s hp)
      | Done (None, _) => Some (returned s CallStop None)
      | Blocked => None
      | Panics c => Some (crash_with s c)
      end
  | MStartMake _ | MStartGo _ | MStartRange => None
  end.

(** One step of the caller: it goes on in the call it is in, or makes its
    next call. *)
Definition step_main (s : Sys) : option Sys :=
  match pc s with
  | MIdle =>
      match todo s with
      | [] => None
      | CallStart :: rest => Start MIdle (with_todo s rest)
      | CallStop :: rest => Stop MIdle (with_todo s rest)
      end
  | MStartMake _ | MStartGo _ | MStartRange => Start (pc s) s
  | MStopSend | MStopRange => Stop (pc s) s
  end.

Definition postgresArgs (cfg : Cfg.Config) (location : string) : list string :=
  ["-p"; pretty (Cfg.port cfg); "-h"; "localhost";
   "-D"; filepath.Join location "data"].

(** [startPostgres] run by supervisor [i], continued from its program
    point [p]. *)
Definition startPostgres (i : nat) (p : sup_pc) (s : Sys) : option Sys :=
  match p with
  | SSpawn location =>
      let postgresBinary := filepath.Join location "bin/postgres" in
      let args := postgresArgs (config (ep s)) location in
      let err := env_ProcStart env (os_view (trace s)) postgresBinary args in
      let s := log_events s [Os (EvProcStart postgresBinary args)] in
      match err with
      | Some e =>
          (* close(ep.startupHook); panic(err) *)
          match chan_close (heap s) (startupHook (ep s)) with
          | Done hp => Some (crash_with (with_heap s hp) (GoPanic e))
          | Blocked => None
          | Panics c => Some (crash_with s c)
          end
      | None =>
          let child := length (procs s) in
          Some (set_sup (with_procs s (procs s ++ [Running])) i (SRace child))
      end
  | SRace child =>
      let '(r, es) := lift Os (readinessRace env (config (ep s))) (trace s) in
      let s := log_events s es in
      match r with
      | Crash c => Some (crash_with s c)
      | Ok true => Some (set_sup s i (SReadyClose child))
      | Ok false => Some (set_sup s i (STimeoutSend child))
      end
  | SReadyClose child | STimeoutClose child =>
      (* close(ep.startupHook) *)
      match chan_close (heap s) (startupHook (ep s)) with
      | Done hp => Some (set_sup (with_heap s hp) i (SRange child))
      | Blocked => None
      | Panics c => Some (crash_with s c)
      end
  | STimeoutSend child =>
      (* ep.shutdownHook <- true *)
      match chan_send (heap s) (shutdownHook (ep s)) true with
      | Done hp => Some (set_sup (with_heap s hp) i (STimeoutClose child))
      | Blocked => None
      | Panics c => Some (crash_with s c)
      end
  | SRange child =>
      (* for shutdown := range ep.shutdownHook { if shutdown { ... } } *)
      match chan_recv (heap s) (shutdownHook (ep s)) with
      | Done (Some true, hp) => Some (set_sup (with_heap s hp) i (SSignal child))
      | Done (Some false, hp) => Some (with_heap s hp)
      | Done (None, _) => Some (set_sup s i SDone)
      | Blocked => None
      | Panics c => Some (crash_with s c)
      end
  | SSignal child =>
      (* postgresProcess.Process.Signal(syscall.SIGQUIT), an error is logged *)
      match procs s !! child with
      | Some Running =>
          Some (set_sup (with_procs (log_events s [Os (EvSignalQuit child)])
                                    (<[child := Quitting]> (procs s)))
                        i (SWait child))
      | Some Quitting =>
          Some (set_sup (log_events s [Os (EvSignalQuit child)]) i (SWait child))
      | Some Reaped | None =>
          Some (set_sup (log_events s [Os (EvSignalQuit child);
                                       Os (EvLog "os: process already finished")])
                        i (SWait child))
      end
  | SWait child =>
      (* postgresProcess.Wait(), an error is logged *)
      match procs s !! child with
      | Some Running => None       (* an unsignalled child keeps running *)
      | Some Quitting =>
          let err := env_Wait env (os_view (trace s)) child in
          let logged := match err with
                        | Some e => [Os (EvLog (Error e))]
                        | None => []
                        end in
          Some (set_sup (with_procs (log_events s (Os (EvWait child) :: logged))
                                    (<[child := Reaped]> (procs s)))
                        i (SClose child))
      | Some Reaped | None =>
          Some (set_sup (log_events s [Os (EvWait child);
                                       Os (EvLog "exec: Wait was already called")])
                        i (SClose child))
      end
  | SClose child =>
      (* close(ep.shutdownHook) *)
      match chan_close (heap s) (shutdownHook (ep s)) with
      | Done hp => Some (set_sup (with_heap s hp) i (SRange child))
      | Blocked => None
      | Panics c => Some (crash_with s c)
      end
  | SDone => None
  end.

(** A step of thread [t]; [None]: the thread cannot move (it is blocked,
    has finished, does not exist, or the program has crashed). *)
Definition step (t : tid) (s : Sys) : option Sys :=
  match crashed s with
  | Some _ => None
  | None =>
      match t with
      | TMain => step_main s
      | TSup i =>
          match sups s !! i with
          | Some p => startPostgres i p s
          | None => None
          end
      end
  end.

(** Running a schedule: a thread that cannot move is skipped. *)
Fixpoint run (schedule : list tid) (s : Sys) : Sys :=
  match schedule with
  | [] => s
  | t :: rest =>
      match step t s with
      | Some s' => run rest s'
      | None => run rest s
      end
  end.

(** No thread can move. *)
Definition quiescent (s : Sys) : Prop :=
  forall t, step t s = None.

(** A coordinator built by [NewDatabaseWithConfig], and a caller about to
    make the calls [calls]. *)
Definition boot (cfg : Cfg.Config) (calls : list api) : Sys :=
  let '(e, hp) := newDatabaseWithConfig env cfg [] in
  mkSys e hp [] [] MIdle calls [] [] None.

End Machine.

(** ** Reachable states and invariants *)

Section Reachability.

Context (env : Env).

Definition reachable (cfg : Cfg.Config) (calls : list api) (s : Sys) : Prop :=
  exists schedule, s = run env schedule (boot env cfg calls).

(** The channel variable [r] holds a closed channel. *)
Definition closed_at (hp : Heap) (r : option chan_id) : Prop :=
  exists c, deref hp r = Some c /\ c_closed c = true.

(** While [startupHook] is nil nothing has been spawned and the shutdown
    channel is as the constructor made it; once it is set, [Start] is past
    line 236 or has returned nil. *)
Definition never_started (s : Sys) : Prop :=
  match startupHook (ep s) with
  | None =>
      sups s = [] /\ procs s = [] /\ heap s = [make_chan]
      /\ (pc s = MIdle \/ exists l, pc s = MStartMake l)
  | Some _ =>
      In (CallStart, None) (results s)
      \/ (exists l, pc s = MStartGo l) \/ pc s = MStartRange
  end.

(** [Stop] gets past its guard only with [startupHook] set, and returns
    nil only after the shutdown channel was closed. *)
Definition after_stop (s : Sys) : Prop :=
  (pc s = MStopSend \/ pc s = MStopRange \/ In (CallStop, None) (results s) ->
   startupHook (ep s) <> None)
  /\ (In (CallStop, None) (results s) ->
      closed_at (heap s) (shutdownHook (ep s))).

End Reachability.

(** ** A first [Start] whose readiness deadline passes

    [location] is the extraction directory, [syncEvents] the events of the
    synchronous part of [Start], [probeEvents] the probes of the poller. *)

Section TimedOutStart.

Context (env : Env) (cfg : Cfg.Config).
Context (location : string) (syncEvents : list Event) (probeEvents : list OsEvent).

Definition fresh : EmbeddedPostgres := fst (newDatabaseWithConfig env cfg []).
Definition started : EmbeddedPostgres := set_startupHook fresh (Some 1).

Definition spawnEvent : Event :=
  Os (EvProcStart (filepath.Join location "bin/postgres")
                  (postgresArgs cfg location)).

Definition trace_spawned : Trace := syncEvents ++ [spawnEvent].
Definition trace_raced : Trace := trace_spawned ++ map Os probeEvents.
Definition trace_signalled : Trace := trace_raced ++ [Os (EvSignalQuit 0)].
Definition trace_waited : Trace :=
  trace_signalled
    ++ Os (EvWait 0)
       :: match env_Wait env (os_view trace_signalled) 0 with
          | Some e => [Os (EvLog (Error e))]
          | None => []
          end.

Definition stop_queued : chan := mkChan [true] false.
Definition closed_chan : chan := mkChan [] true.

(** Program point, channels, processes and trace after [k] steps of the
    supervisor. *)
Definition sup_after (k : nat) : sup_pc * Heap * list proc * Trace :=
  match k with
  | 0 => (SSpawn location, [make_chan; make_chan], [], syncEvents)
  | 1 => (SRace 0, [make_chan; make_chan], [Running], trace_spawned)
  | 2 => (STimeoutSend 0, [make_chan; make_chan], [Running], trace_raced)
  | 3 => (STimeoutClose 0, [stop_queued; make_chan], [Running], trace_raced)
  | 4 => (SRange 0, [stop_queued; closed_chan], [Running], trace_raced)
  | 5 => (SSignal 0, [make_chan; closed_chan], [Running], trace_raced)
  | 6 => (SWait 0, [make_chan; closed_chan], [Quitting], trace_signalled)
  | 7 => (SClose 0, [make_chan; closed_chan], [Reaped], trace_waited)
  | 8 => (SRange 0, [closed_chan; closed_chan], [Reaped], trace_waited)
  | _ => (SDone, [closed_chan; closed_chan], [Reaped], trace_waited)
  end.

(** The state after [k] supervisor steps; [back] says whether [Start] has
    returned to its caller. *)
Definition timed_out (k : nat) (back : bool) : Sys :=
  let '(p, hp, ps, tr) := sup_after k in
  mkSys started hp ps tr
        (if back then MIdle else MStartRange) []
        (if back then [(CallStart, None)] else [])
        [p] None.

Definition before_make : Sys :=
  mkSys fresh [make_chan] [] syncEvents (MStartMake location) [] [] [] None.
Definition before_go : Sys :=
  mkSys started [make_chan; make_chan] [] syncEvents (MStartGo location) [] [] [] None.

(** The states of the run. *)
Definition on_path (s : Sys) : Prop :=
  s = boot env cfg [CallStart] \/ s = before_make \/ s = before_go
  \/ exists k back,
      (k <= 9)%nat /\ (back = true -> (4 <= k)%nat) /\ s = timed_out k back.

(** The synchronous part of [Start] succeeds, the child is spawned, and
    the race ends with the deadline. *)
Definition deadline_passes : Prop :=
  Start_sync env fresh [] = (Ok (inr location), syncEvents)
  /\ env_ProcStart env (os_view syncEvents)
                   (filepath.Join location "bin/postgres")
                   (postgresArgs cfg location) = None
  /\ readinessRace env cfg (os_view trace_spawned) = (Ok false, probeEvents).

End TimedOutStart.

(** ** Concrete environments *)

Module Envs.

Local Open Scope string_scope.

Definition file : FileInfo := {| fi_isDir := false |}.
Definition directory : FileInfo := {| fi_isDir := true |}.

Definition response : Response :=
  {| resp_ContentLength := 0; resp_body := inl []; resp_close := None |}.

(** A Linux host where every external call succeeds, the archive is in the
    cache, and the server answers the first probe. *)
Definition healthy : Env :=
  {| GOOS := "linux";
     GOARCH := "amd64";
     env_UserHomeDir := fun _ => inl "/home/user";
     env_Stat := fun _ _ => inl file;
     env_Listen := fun _ _ => None;
     env_ListenClose := fun _ => None;
     env_HttpGet := fun _ _ => (Some response, None);
     env_ZipOpen := fun _ _ _ => inl {| zf_entries := []; zf_close := None |};
     env_MkdirAll := fun _ _ => None;
     env_Create := fun _ _ => None;
     env_WriteFile := fun _ _ _ => None;
     env_FileClose := fun _ => None;
     env_RemoveAll := fun _ _ => None;
     env_Unarchive := fun _ _ _ => None;
     env_Run := fun _ _ _ => None;
     env_ProcStart := fun _ _ _ => None;
     env_Wait := fun _ _ => None;
     env_HealthCheck := fun _ _ => None;
     env_CreateDatabase := fun _ _ _ => None;
     env_attempts := fun _ => 3%nat |}.

Definition with_Stat (e : Env) (f : History -> string -> FileInfo + error) : Env :=
  {| GOOS := GOOS e; GOARCH := GOARCH e;
     env_UserHomeDir := env_UserHomeDir e;
     env_Stat := f;
     env_Listen := env_Listen e; env_ListenClose := env_ListenClose e;
     env_HttpGet := env_HttpGet e; env_ZipOpen := env_ZipOpen e;
     env_MkdirAll := env_MkdirAll e; env_Create := env_Create e;
     env_WriteFile := env_WriteFile e; env_FileClose := env_FileClose e;
     env_RemoveAll := env_RemoveAll e; env_Unarchive := env_Unarchive e;
     env_Run := env_Run e; env_ProcStart := env_ProcStart e;
     env_Wait := env_Wait e; env_HealthCheck := env_HealthCheck e;
     env_CreateDatabase := env_CreateDatabase e;
     env_attempts := env_attempts e |}.

Definition with_HealthCheck (e : Env) (f : History -> string -> option error) : Env :=
  {| GOOS := GOOS e; GOARCH := GOARCH e;
     env_UserHomeDir := env_UserHomeDir e;
     env_Stat := env_Stat e;
     env_Listen := env_Listen e; env_ListenClose := env_ListenClose e;
     env_HttpGet := env_HttpGet e; env_ZipOpen := env_ZipOpen e;
     env_MkdirAll := env_MkdirAll e; env_Create := env_Create e;
     env_WriteFile := env_WriteFile e; env_FileClose := env_FileClose e;
     env_RemoveAll := env_RemoveAll e; env_Unarchive := env_Unarchive e;
     env_Run := env_Run e; env_ProcStart := env_ProcStart e;
     env_Wait := env_Wait e; env_HealthCheck := f;
     env_CreateDatabase := env_CreateDatabase e;
     env_attempts := env_attempts e |}.

Definition with_Listen (e : Env) (f : History -> string -> option error) : Env :=
  {| GOOS := GOOS e; GOARCH := GOARCH e;
     env_UserHomeDir := env_UserHomeDir e;
     env_Stat := env_Stat e;
     env_Listen := f; env_ListenClose := env_ListenClose e;
     env_HttpGet := env_HttpGet e; env_ZipOpen := env_ZipOpen e;
     env_MkdirAll := env_MkdirAll e; env_Create := env_Create e;
     env_WriteFile := env_WriteFile e; env_FileClose := env_FileClose e;
     env_RemoveAll := env_RemoveAll e; env_Unarchive := env_Unarchive e;
     env_Run := env_Run e; env_ProcStart := env_ProcStart e;
     env_Wait := env_Wait e; env_HealthCheck := env_HealthCheck e;
     env_CreateDatabase := env_CreateDatabase e;
     env_attempts := env_attempts e |}.

Definition with_ZipOpen (e : Env) (f : History -> bytes -> Z -> ZipFile + error) : Env :=
  {| GOOS := GOOS e; GOARCH := GOARCH e;
     env_UserHomeDir := env_UserHomeDir e;
     env_Stat := env_Stat e;
     env_Listen := env_Listen e; env_ListenClose := env_ListenClose e;
     env_HttpGet := env_HttpGet e; env_ZipOpen := f;
     env_MkdirAll := env_MkdirAll e; env_Create := env_Create e;
     env_WriteFile := env_WriteFile e; env_FileClose := env_FileClose e;
     env_RemoveAll := env_RemoveAll e; env_Unarchive := env_Unarchive e;
     env_Run := env_Run e; env_ProcStart := env_ProcStart e;
     env_Wait := env_Wait e; env_HealthCheck := env_HealthCheck e;
     env_CreateDatabase := env_CreateDatabase e;
     env_attempts := env_attempts e |}.

(** The downloaded container holds a manifest and a text file only. *)
Definition jar_without_archive : ZipFile :=
  {| zf_entries :=
       [ {| ze_open := None; ze_header := Some "META-INF/MANIFEST.MF";
            ze_data := inl [] |};
         {| ze_open := None; ze_header := Some "postgres-linux.txz.sha256";
            ze_data := inl [] |} ];
     zf_close := None |}.

(** The server never answers a probe. *)
Definition never_ready : Env :=
  with_HealthCheck healthy (fun _ _ => Some (SyscallError ECONNREFUSED)).

(** Another process listens on the port. *)
Definition port_taken : Env :=
  with_Listen healthy (fun _ _ => Some (SyscallError EADDRINUSE)).

(** The archive is not in the cache. *)
Definition cache_miss : Env :=
  with_Stat healthy (fun _ p => inr (PathError "stat" p ENOENT)).

(** The archive is not in the cache and the download has no archive. *)
Definition no_archive : Env :=
  with_ZipOpen cache_miss (fun _ _ _ => inl jar_without_archive).

End Envs.

(** ** Schedules *)

Module Schedules.

(** [Start] with supervisor [i] when the server becomes ready: the caller
    runs up to line 238, the supervisor spawns the child, wins the race
    and closes the startup channel, the caller returns. *)
Definition ready_start (i : nat) : list tid :=
  [TMain; TMain; TMain; TSup i; TSup i; TSup i; TMain].

(** [Stop] served by supervisor [i]: guard and send by the caller,
    receive, signal, wait, close and end of loop by the supervisor, end of
    loop by the caller. *)
Definition stop (i : nat) : list tid :=
  [TMain; TMain; TSup i; TSup i; TSup i; TSup i; TSup i; TMain].

(** A first [Start] whose deadline passes, the supervisor running to its
    end before the caller resumes. *)
Definition timed_out_start : list tid :=
  [TMain; TMain; TMain] ++ repeat (TSup 0) 9 ++ [TMain].

End Schedules.

(** ** The scenario of a server that never becomes ready *)

Module NeverReady.

Definition location : string := "/home/user/.embedded-postgres-go/extracted".

Definition syncEvents : list Event :=
  snd (Start_sync Envs.never_ready (fresh Envs.never_ready Cfg.DefaultConfig) []).

Definition probeEvents : list OsEvent :=
  snd (readinessRace Envs.never_ready Cfg.DefaultConfig
         (os_view (trace_spawned Cfg.DefaultConfig location syncEvents))).

Definition start : Sys :=
  boot Envs.never_ready Cfg.DefaultConfig [CallStart].

End NeverReady.

(** ** A coordinator used again after [Stop] *)

Module Reuse.



Definition calls : list api := [CallStart; CallStop; CallStart].



End Reuse.

(** ** Chains of builder calls *)

Module Chain.
Import Cfg.

(** One builder call with its argument. *)
Inductive call :=
| CVersion (version : PostgresVersion)
| CPort (port : N)
| CDatabase (database : string)
| CUsername (username : string)
| CPassword (password : string)
| CRuntimePath (path : string)
| CStartTimeout (timeout : Duration)
| CStopTimeout (timeout : Duration).

Definition apply (c : Config) (k : call) : Config :=
  match k with
  | CVersion v => Version c v
  | CPort p => Port c p
  | CDatabase d => Database c d
  | CUsername u => Username c u
  | CPassword p => Password c p
  | CRuntimePath p => RuntimePath c p
  | CStartTimeout t => StartTimeout c t
  | CStopTimeout t => StopTimeout c t
  end.

(** [c.M1(a1).M2(a2)...] *)
Definition chain (c : Config) (calls : list call) : Config :=
  fold_left apply calls c.

(** The argument of the last call in [calls] that [sel] picks, [start] when
    there is none. *)
Definition last_given {A} (sel : call -> option A) (calls : list call) (start : A) : A :=
  fold_left (fun acc k => match sel k with Some a => a | None => acc end)
            calls start.

Definition version_of (k : call) : option PostgresVersion :=
  match k with CVersion v => Some v | _ => None end.
Definition port_of (k : call) : option N :=
  match k with CPort p => Some p | _ => None end.
Definition database_of (k : call) : option string :=
  match k with CDatabase d => Some d | _ => None end.
Definition username_of (k : call) : option string :=
  match k with CUsername u => Some u | _ => None end.
Definition password_of (k : call) : option string :=
  match k with CPassword p => Some p | _ => None end.
Definition runtimePath_of (k : call) : option string :=
  match k with CRuntimePath p => Some p | _ => None end.
Definition startTimeout_of (k : call) : option Duration :=
  match k with CStartTimeout t => Some t | _ => None end.
Definition stopTimeout_of (k : call) : option Duration :=
  match k with CStopTimeout t => Some t | _ => None end.

End Chain.

(** ** More environments *)

Module MoreEnvs.

Local Open Scope string_scope.

Definition with_HttpGet (e : Env)
           (f : History -> string -> option Response * option error) : Env :=
  {| GOOS := GOOS e; GOARCH := GOARCH e;
     env_UserHomeDir := env_UserHomeDir e;
     env_Stat := env_Stat e;
     env_Listen := env_Listen e; env_ListenClose := env_ListenClose e;
     env_HttpGet := f; env_ZipOpen := env_ZipOpen e;
     env_MkdirAll := env_MkdirAll e; env_Create := env_Create e;
     env_WriteFile := env_WriteFile e; env_FileClose := env_FileClose e;
     env_RemoveAll := env_RemoveAll e; env_Unarchive := env_Unarchive e;
     env_Run := env_Run e; env_ProcStart := env_ProcStart e;
     env_Wait := env_Wait e; env_HealthCheck := env_HealthCheck e;
     env_CreateDatabase := env_CreateDatabase e;
     env_attempts := env_attempts e |}.

Definition with_CreateDatabase (e : Env)
           (f : History -> string -> string -> option error) : Env :=
  {| GOOS := GOOS e; GOARCH := GOARCH e;
     env_UserHomeDir := env_UserHomeDir e;
     env_Stat := env_Stat e;
     env_Listen := env_Listen e; env_ListenClose := env_ListenClose e;
     env_HttpGet := env_HttpGet e; env_ZipOpen := env_ZipOpen e;
     env_MkdirAll := env_MkdirAll e; env_Create := env_Create e;
     env_WriteFile := env_WriteFile e; env_FileClose := env_FileClose e;
     env_RemoveAll := env_RemoveAll e; env_Unarchive := env_Unarchive e;
     env_Run := env_Run e; env_ProcStart := env_ProcStart e;
     env_Wait := env_Wait e; env_HealthCheck := env_HealthCheck e;
     env_CreateDatabase := f;
     env_attempts := env_attempts e |}.

Definition with_ProcStart (e : Env)
           (f : History -> string -> list string -> option error) : Env :=
  {| GOOS := GOOS e; GOARCH := GOARCH e;
     env_UserHomeDir := env_UserHomeDir e;
     env_Stat := env_Stat e;
     env_Listen := env_Listen e; env_ListenClose := env_ListenClose e;
     env_HttpGet := env_HttpGet e; env_ZipOpen := env_ZipOpen e;
     env_MkdirAll := env_MkdirAll e; env_Create := env_Create e;
     env_WriteFile := env_WriteFile e; env_FileClose := env_FileClose e;
     env_RemoveAll := env_RemoveAll e; env_Unarchive := env_Unarchive e;
     env_Run := env_Run e; env_ProcStart := f;
     env_Wait := env_Wait e; env_HealthCheck := env_HealthCheck e;
     env_CreateDatabase := env_CreateDatabase e;
     env_attempts := env_attempts e |}.

(** The archive is not in the cache and the repository cannot be reached:
    [http.Get] returns a nil response and an error. *)
Definition offline : Env :=
  with_HttpGet Envs.cache_miss
               (fun _ _ => (None, Some (ErrorString "dial tcp: no route to host"))).

(** The target database cannot be created. *)
Definition create_refused : Env :=
  with_CreateDatabase Envs.healthy
    (fun _ _ _ => Some (ErrorString "pq: database already exists")).

(** The server binary cannot be started. *)
Definition no_binary : Env :=
  with_ProcStart Envs.healthy
    (fun _ cmd _ => Some (PathError "fork/exec" cmd ENOENT)).

(** The archive is not in the cache; the download holds a manifest and the
    platform archive of two bytes. *)
Definition jar_with_archive : ZipFile :=
  {| zf_entries :=
       [ {| ze_open := None; ze_header := Some "META-INF/MANIFEST.MF";
            ze_data := inl [] |};
         {| ze_open := None; ze_header := Some "postgres-linux-x86_64.txz";
            ze_data := inl [Byte.xfd; Byte.x37] |} ];
     zf_close := None |}.

Definition with_archive : Env :=
  Envs.with_ZipOpen Envs.cache_miss (fun _ _ _ => inl jar_with_archive).

End MoreEnvs.

(** ** Writes of an archive *)

(** The calls by which [createArchiveFile] puts an archive at [p]. *)
Definition archive_write (p : string) (e : OsEvent) : Prop :=
  e = EvMkdirAll (filepath.Dir p) 493
  \/ e = EvCreate p
  \/ exists data, e = EvWriteFile p data 438.

(** ** The external calls of [Start] itself *)

(** The calls made by the coordinator's own code, without those made inside
    the two strategies. *)
Definition own (t : Trace) : History :=
  omap (fun e => match e with Os o => Some o | _ => None end) t.

Inductive kind :=
| KListen | KListenClose | KRemoveAll | KUnarchive | KWriteFile | KRun
| KOther.

Definition kind_of (e : OsEvent) : kind :=
  match e with
  | EvListen _ => KListen
  | EvListenClose => KListenClose
  | EvRemoveAll _ => KRemoveAll
  | EvUnarchive _ _ => KUnarchive
  | EvWriteFile _ _ _ => KWriteFile
  | EvRun _ _ => KRun
  | _ => KOther
  end.

(** The order of lines 199, 203, 214, 217, 222 and 233. *)
Definition startStages : list kind :=
  [KListen; KListenClose; KRemoveAll; KUnarchive; KWriteFile; KRun].

(** ** Supervisors and their children *)

(** The child a supervisor holds at a program point. *)
Definition pid_of (p : sup_pc) : option pid :=
  match p with
  | SSpawn _ | SDone => None
  | SRace q | SReadyClose q | STimeoutSend q | STimeoutClose q
  | SRange q | SSignal q | SWait q | SClose q => Some q
  end.

(** The shutdown channel is the first channel ever made, the startup channel
    a later one; a supervisor's child is in the process table; a supervisor
    about to close the shutdown channel has waited for its child. *)
Definition well_formed (s : Sys) : Prop :=
  shutdownHook (ep s) = Some 0%nat
  /\ (1 <= length (heap s))%nat
  /\ (forall j, startupHook (ep s) = Some j -> (1 <= j < length (heap s))%nat)
  /\ (forall i p q, sups s !! i = Some p -> pid_of p = Some q ->
                    (q < length (procs s))%nat)
  /\ (forall i q, sups s !! i = Some (SClose q) -> procs s !! q = Some Reaped).

(** A closed shutdown channel means a child was waited for. *)
Definition reaped_before_stopped (s : Sys) : Prop :=
  closed_at (heap s) (shutdownHook (ep s)) ->
  exists q, procs s !! q = Some Reaped.

(** The start of the server binary was attempted. *)
Definition spawn_tried (s : Sys) : Prop :=
  exists bin args, In (Os (EvProcStart bin args)) (trace s).

(** Every child in the table was started by a recorded call, and a closed
    startup channel or a [Start] that returned nil means the start of the
    server binary was attempted. *)
Definition tried_before_started (s : Sys) : Prop :=
  (procs s <> [] -> spawn_tried s)
  /\ (In (CallStart, None) (results s)
      \/ closed_at (heap s) (startupHook (ep s)) -> spawn_tried s).

(** A child is sent SIGQUIT before it is waited for. *)
Definition signalled_before_reaped (s : Sys) : Prop :=
  forall q,
    (procs s !! q = Some Quitting -> In (Os (EvSignalQuit q)) (trace s))
    /\ (procs s !! q = Some Reaped ->
        In (Os (EvSignalQuit q)) (trace s) /\ In (Os (EvWait q)) (trace s)).

(** The program points of a supervisor before it has closed the startup
    channel. *)
Definition early (p : sup_pc) : bool :=
  match p with
  | SSpawn _ | SRace _ | SReadyClose _ | STimeoutSend _ | STimeoutClose _ => true
  | SRange _ | SSignal _ | SWait _ | SClose _ | SDone => false
  end.

(** The channel variable [r] holds an open channel. *)
Definition open_at (hp : Heap) (r : option chan_id) : Prop :=
  exists c, deref hp r = Some c /\ c_closed c = false.

(** While the program runs: the startup channel is open when the
    supervisor is about to be spawned, and a supervisor that has not closed
    it is the newest one, with the caller waiting at line 238. *)
Definition waits_at (pcv : main_pc) (sps : list sup_pc) (hp : Heap)
           (r : option chan_id) : Prop :=
  ((exists l, pcv = MStartGo l) -> open_at hp r)
  /\ (forall i p, sps !! i = Some p -> early p = true ->
        pcv = MStartRange /\ open_at hp r /\ S i = length sps).

Definition start_waits (s : Sys) : Prop :=
  crashed s = None -> waits_at (pc s) (sups s) (heap s) (startupHook (ep s)).

(** ** The two database probes, call by call (lines 292-314, 326-350)

    [healthCheckDatabase] and [createDatabase] above answer with one oracle
    each; here their calls into [database/sql] are spelled out. *)

Module Sql.

Local Open Scope string_scope.

Inductive SqlEvent :=
| EvOpen (dsn : string)         (* sql.Open("postgres", dsn) *)
| EvQuery (query : string)      (* db.Query(query) *)
| EvExec (stmt : string)        (* db.Exec(stmt) *)
| EvRowsClose                   (* rows.Close() *)
| EvDbClose.                    (* db.Close() *)

(** The driver and the server.  Every answer is the error of the call, nil
    when it succeeds; [sql.Open] returns a nil [*sql.DB] with an error. *)
Record SqlEnv := {
  sql_Open      : list SqlEvent -> string -> option error;
  sql_Query     : list SqlEvent -> string -> option error;
  sql_Exec      : list SqlEvent -> string -> option error;
  sql_RowsClose : list SqlEvent -> option error;
  sql_DbClose   : list SqlEvent -> option error
}.

(** [defer func() { if err := c(); err != nil { funcErr = err } }()]
    placed before [body] in a function with the named result [funcErr]:
    [c] runs when [body] returns or panics, its error replaces the result,
    its panic the outcome. *)
Definition defer_close (c body : Act SqlEvent (option error))
  : Act SqlEvent (option error) :=
  fun h =>
    match body h with
    | (Crash LogFatal, es) => (Crash LogFatal, es)
    | (r, es) =>
        let '(rc, es') := c (h ++ es)%list in
        (match rc with
         | Crash p => Crash p
         | Ok (Some err) => match r with Crash p => Crash p | Ok _ => Ok (Some err) end
         | Ok None => r
         end, (es ++ es')%list)
    end.

Section Probes.

Context (env : SqlEnv).

Definition healthCheckDatabase (port : N) (username password : string)
  : Act SqlEvent (option error) :=
  let dsn := connString port username password "postgres" in
  err <- call (EvOpen dsn) (fun h => sql_Open env h dsn) ;;
  match err with
  | Some e => ret (Some e)
  | None =>
      defer_close (call EvDbClose (sql_DbClose env))
        (err <- call (EvQuery "SELECT 1") (fun h => sql_Query env h "SELECT 1") ;;
         match err with
         | Some e => ret (Some e)
         | None =>
             defer_close (call EvRowsClose (sql_RowsClose env)) (ret None)
         end)
  end.

Definition createDatabase (port : N) (username password database : string)
  : Act SqlEvent (option error) :=
  if String.eqb database "postgres" then ret None
  else
    let dsn := connString port username password "postgres" in
    err <- call (EvOpen dsn) (fun h => sql_Open env h dsn) ;;
    defer_close
      match err with
      | Some _ => panic NilDeref     (* db is nil *)
      | None => call EvDbClose (sql_DbClose env)
      end
      match err with
      | Some e => ret (Some e)
      | None =>
          let stmt := "CREATE DATABASE " ++ database in
          err <- call (EvExec stmt) (fun h => sql_Exec env h stmt) ;;
          match err with
          | Some e => ret (Some e)
          | None => ret None
          end
      end.

End Probes.

(** A server that answers every call. *)
Definition answering : SqlEnv :=
  {| sql_Open := fun _ _ => None; sql_Query := fun _ _ => None;
     sql_Exec := fun _ _ => None; sql_RowsClose := fun _ => None;
     sql_DbClose := fun _ => None |}.

(** The data source name is rejected. *)
Definition rejecting : SqlEnv :=
  {| sql_Open := fun _ _ => Some (ErrorString "missing = after key in connection info string");
     sql_Query := fun _ _ => None;
     sql_Exec := fun _ _ => None; sql_RowsClose := fun _ => None;
     sql_DbClose := fun _ => None |}.

(** The server refuses the connection and the handle cannot be closed. *)
Definition failing : SqlEnv :=
  {| sql_Open := fun _ _ => None;
     sql_Query := fun _ _ => Some (SyscallError ECONNREFUSED);
     sql_Exec := fun _ _ => Some (SyscallError ECONNREFUSED);
     sql_RowsClose := fun _ => None;
     sql_DbClose := fun _ => Some (ErrorString "sql: database is closed") |}.

End Sql.

(** ** The poller over the spelled-out probes (lines 257-268) *)

Module SqlPoller.

Import Sql.

(** The loop [for ctx.Err() == nil] with [attempts] iterations before the
    deadline; [true]: a value was sent on [complete]. *)
Fixpoint poller (env : SqlEnv) (port : N) (username password database : string)
         (attempts : nat) : Act SqlEvent bool :=
  match attempts with
  | O => ret false
  | S n =>
      e1 <- healthCheckDatabase env port username password ;;
      match e1 with
      | Some _ => poller env port username password database n
      | None =>
          e2 <- createDatabase env port username password database ;;
          match e2 with
          | Some _ => poller env port username password database n
          | None => ret true
          end
      end
  end.

(** [sql.Open] looks at its arguments only: it parses the data source
    name and connects to nothing. *)
Definition open_is_pure (env : SqlEnv) : Prop :=
  forall h h' dsn, sql_Open env h dsn = sql_Open env h' dsn.

End SqlPoller.

(** ** A first [Start] whose server becomes ready, and the [Stop] after it

    [location], [syncEvents] and [probeEvents] are as for the start that
    times out; [rest] are the calls the caller makes after [Start]. *)

Section ReadyStart.

Context (env : Env) (cfg : Cfg.Config).
Context (location : string) (syncEvents : list Event) (probeEvents : list OsEvent).

(** The synchronous part of [Start] succeeds, the child is spawned, and
    the poller wins the race. *)
Definition race_won : Prop :=
  Start_sync env (fresh env cfg) [] = (Ok (inr location), syncEvents)
  /\ env_ProcStart env (os_view syncEvents)
                   (filepath.Join location "bin/postgres")
                   (postgresArgs cfg location) = None
  /\ readinessRace env cfg (os_view (trace_spawned cfg location syncEvents))
     = (Ok true, probeEvents).

Local Abbreviation spawned := (trace_spawned cfg location syncEvents).
Local Abbreviation raced := (trace_raced cfg location syncEvents probeEvents).
Local Abbreviation signalled := (trace_signalled cfg location syncEvents probeEvents).
Local Abbreviation waited := (trace_waited env cfg location syncEvents probeEvents).

(** Program point, channels, processes and trace after [k] steps of the
    supervisor inside [Start]. *)
Definition sup_ready (k : nat) : sup_pc * Heap * list proc * Trace :=
  match k with
  | 0 => (SSpawn location, [make_chan; make_chan], [], syncEvents)
  | 1 => (SRace 0, [make_chan; make_chan], [Running], spawned)
  | 2 => (SReadyClose 0, [make_chan; make_chan], [Running], raced)
  | _ => (SRange 0, [make_chan; closed_chan], [Running], raced)
  end.

Definition make_pending (rest : list api) : Sys :=
  mkSys (fresh env cfg) [make_chan] [] syncEvents (MStartMake location) rest [] [] None.
Definition go_pending (rest : list api) : Sys :=
  mkSys (started env cfg) [make_chan; make_chan] [] syncEvents
        (MStartGo location) rest [] [] None.

(** The state after [k] supervisor steps; [back] says whether [Start] has
    returned to its caller. *)
Definition starting (rest : list api) (k : nat) (back : bool) : Sys :=
  let '(p, hp, ps, tr) := sup_ready k in
  mkSys (started env cfg) hp ps tr
        (if back then MIdle else MStartRange) rest
        (if back then [(CallStart, None)] else [])
        [p] None.

Definition on_start_path (rest : list api) (s : Sys) : Prop :=
  s = boot env cfg (CallStart :: rest) \/ s = make_pending rest \/ s = go_pending rest
  \/ exists k back,
      (k <= 3)%nat /\ (back = true -> k = 3%nat) /\ s = starting rest k back.

(** [Stop] past its guard, before and after its send, and after it has
    received its own request back. *)
Definition in_stop (c : chan) (p : main_pc) : Sys :=
  mkSys (started env cfg) [c; closed_chan] [Running] raced p []
        [(CallStart, None)] [SRange 0] None.
Definition guard_passed : Sys := in_stop make_chan MStopSend.
Definition request_sent : Sys := in_stop stop_queued MStopRange.
Definition request_taken_back : Sys := in_stop make_chan MStopRange.

(** Program point, shutdown channel, processes and trace after the
    supervisor has received the request and made [j] more steps. *)
Definition sup_stopping (j : nat) : sup_pc * chan * list proc * Trace :=
  match j with
  | 0 => (SSignal 0, make_chan, [Running], raced)
  | 1 => (SWait 0, make_chan, [Quitting], signalled)
  | 2 => (SClose 0, make_chan, [Reaped], waited)
  | 3 => (SRange 0, closed_chan, [Reaped], waited)
  | _ => (SDone, closed_chan, [Reaped], waited)
  end.

Definition stopping (j : nat) (back : bool) : Sys :=
  let '(p, c, ps, tr) := sup_stopping j in
  mkSys (started env cfg) [c; closed_chan] ps tr
        (if back then MIdle else MStopRange) []
        (if back then [(CallStart, None); (CallStop, None)] else [(CallStart, None)])
        [p] None.

Definition on_lifecycle_path (s : Sys) : Prop :=
  on_start_path [CallStop] s
  \/ s = guard_passed \/ s = request_sent \/ s = request_taken_back
  \/ exists j back,
      (j <= 4)%nat /\ (back = true -> (3 <= j)%nat) /\ s = stopping j back.

End ReadyStart.

(** The two ways a [Stop] after a ready [Start] can end: it has returned
    nil with the child reaped and the supervisor gone; or it waits in its
    loop of line 321 for a close that never comes, the supervisor waiting
    in its loop of line 279 beside a child that runs on. *)
Definition stopped (s : Sys) : Prop :=
  pc s = MIdle /\ results s = [(CallStart, None); (CallStop, None)]
  /\ procs s = [Reaped] /\ sups s = [SDone]
  /\ heap s = [closed_chan; closed_chan].

Definition stop_hangs (s : Sys) : Prop :=
  pc s = MStopRange /\ results s = [(CallStart, None)]
  /\ procs s = [Running] /\ sups s = [SRange 0]
  /\ heap s = [make_chan; closed_chan].

Module Ready.

Definition location : string := "/home/user/.embedded-postgres-go/extracted".

Definition syncEvents : list Event :=
  snd (Start_sync Envs.healthy (fresh Envs.healthy Cfg.DefaultConfig) []).

Definition probeEvents : list OsEvent :=
  snd (readinessRace Envs.healthy Cfg.DefaultConfig
         (os_view (trace_spawned Cfg.DefaultConfig location syncEvents))).

(** The caller's three steps of [Stop] when it receives its own request. *)
Definition stop_alone : list tid := [TMain; TMain; TMain].

End Ready.

(** ** Exits of the program *)

(** The outcome is an exit through [log.Fatal]: deferred calls do not run. *)
Definition exits {A} (r : res A) : bool :=
  match r with
  | Crash LogFatal => true
  | _ => false
  end.

(** ** A [Stop] after a [Start] whose deadline passed

    The run of [Start] then [Stop] on a new coordinator, seen through the
    four things that tell its states apart. *)

(** Where the caller is. *)
Inductive caller :=
| AtBoot       (* before [Start] *)
| AtMake       (* line 236 *)
| AtGo         (* line 237 *)
| InStart      (* line 238 *)
| Started      (* [Start] has returned nil *)
| AtSend       (* line 320 *)
| InStop       (* line 321 *)
| Stopped.     (* [Stop] has returned nil *)

(** The caller, the number of steps the supervisor has made (none before
    line 237), whether the request sent by [Stop] is in the buffer of the
    shutdown channel, and the panic. *)
Record view := mkView {
  v_caller : caller;
  v_sup    : option nat;
  v_queued : bool;
  v_crash  : option crash
}.

Definition late_step (t : tid) (a : view) : option view :=
  match v_crash a with
  | Some _ => None
  | None =>
      let '(mkView m k x _) := a in
      match t with
      | TMain =>
          match m with
          | AtBoot => Some (mkView AtMake k x None)
          | AtMake => Some (mkView AtGo k x None)
          | AtGo => Some (mkView InStart (Some 0%nat) x None)
          | InStart =>
              match k with
              | Some j => if (4 <=? j)%nat then Some (mkView Started k x None) else None
              | None => None
              end
          | Started => Some (mkView AtSend k x None)
          | AtSend =>
              match k with
              | Some j =>
                  if (8 <=? j)%nat then Some (mkView AtSend k x (Some SendOnClosed))
                  else if (j <=? 4)%nat || x then None
                  else Some (mkView InStop k true None)
              | None => None
              end
          | InStop =>
              match k with
              | Some j =>
                  if x then Some (mkView InStop k false None)
                  else if (8 <=? j)%nat then Some (mkView Stopped k false None)
                  else None
              | None => None
              end
          | Stopped => None
          end
      | TSup 0 =>
          match k with
          | Some 8 =>
              if x then Some (mkView m (Some 10%nat) false None)
              else Some (mkView m (Some 9%nat) false None)
          | Some 9 => None
          | Some 12 => Some (mkView m k x (Some CloseOfClosed))
          | Some j => Some (mkView m (Some (S j)) x None)
          | None => None
          end
      | TSup (S _) => None
      end
  end.

Definition caller_eqb (a b : caller) : bool :=
  match a, b with
  | AtBoot, AtBoot | AtMake, AtMake | AtGo, AtGo | InStart, InStart
  | Started, Started | AtSend, AtSend | InStop, InStop | Stopped, Stopped => true
  | _, _ => false
  end.

Definition crash_eqb (a b : option crash) : bool :=
  match a, b with
  | None, None => true
  | Some SendOnClosed, Some SendOnClosed => true
  | Some CloseOfClosed, Some CloseOfClosed => true
  | _, _ => false
  end.

Definition view_eqb (a b : view) : bool :=
  caller_eqb (v_caller a) (v_caller b)
  && match v_sup a, v_sup b with
     | None, None => true
     | Some i, Some j => (i =? j)%nat
     | _, _ => false
     end
  && Bool.eqb (v_queued a) (v_queued b)
  && crash_eqb (v_crash a) (v_crash b).

Definition seen (a : view) (l : list view) : bool := existsb (view_eqb a) l.

(** The views reached from [frontier] in at most [fuel] rounds. *)
Fixpoint explore (fuel : nat) (frontier known : list view) : list view :=
  match fuel with
  | O => known
  | S n =>
      let next :=
        flat_map (fun a => omap (fun t => late_step t a) [TMain; TSup 0]) frontier in
      let fresh_ones :=
        fold_left (fun acc b => if seen b (known ++ acc) then acc else acc ++ [b])
                  next [] in
      match fresh_ones with
      | [] => known
      | _ => explore n fresh_ones (known ++ fresh_ones)
      end
  end.

Definition late_boot : view := mkView AtBoot None false None.

Definition late_views : list view :=
  Eval vm_compute in explore 64 [late_boot] [late_boot].

Section LateStop.

Context (env : Env) (cfg : Cfg.Config).
Context (location : string) (syncEvents : list Event) (probeEvents : list OsEvent).

Local Abbreviation waited := (trace_waited env cfg location syncEvents probeEvents).

(** The supervisor after [k] steps: the first nine as in a start that
    times out; then, when it finds the request of [Stop] in the closed
    channel, a second round of lines 280-287. *)
Definition sup_point (k : nat) : sup_pc :=
  match k with
  | 0 => SSpawn location
  | 1 => SRace 0
  | 2 => STimeoutSend 0
  | 3 => STimeoutClose 0
  | 4 => SRange 0
  | 5 => SSignal 0
  | 6 => SWait 0
  | 7 => SClose 0
  | 8 => SRange 0
  | 9 => SDone
  | 10 => SSignal 0
  | 11 => SWait 0
  | _ => SClose 0
  end.

Definition late_trace (k : nat) : Trace :=
  match k with
  | 0 => syncEvents
  | 1 => trace_spawned cfg location syncEvents
  | 2 | 3 | 4 | 5 => trace_raced cfg location syncEvents probeEvents
  | 6 => trace_signalled cfg location syncEvents probeEvents
  | 7 | 8 | 9 | 10 => waited
  | 11 => waited ++ [Os (EvSignalQuit 0); Os (EvLog "os: process already finished")]
  | _ => (waited ++ [Os (EvSignalQuit 0); Os (EvLog "os: process already finished")])
           ++ [Os (EvWait 0); Os (EvLog "exec: Wait was already called")]
  end.

Definition late_procs (k : nat) : list proc :=
  match k with
  | 0 => []
  | 1 | 2 | 3 | 4 | 5 => [Running]
  | 6 => [Quitting]
  | _ => [Reaped]
  end.

(** The shutdown channel and the startup channel. *)
Definition late_heap (k : nat) (queued : bool) : Heap :=
  let buffer := if queued then [true] else [] in
  [ if (k <=? 2)%nat then make_chan
    else if (k <=? 4)%nat then stop_queued
    else if (k <=? 7)%nat then mkChan buffer false
    else if (k =? 8)%nat then mkChan buffer true
    else closed_chan;
    if (k <=? 3)%nat then make_chan else closed_chan ].

(** The state of the program a view stands for. *)
Definition late_state (a : view) : Sys :=
  let m := v_caller a in
  mkSys
    match m with
    | AtBoot | AtMake => fresh env cfg
    | _ => started env cfg
    end
    match v_sup a with
    | Some k => late_heap k (v_queued a)
    | None => match m with AtGo => [make_chan; make_chan] | _ => [make_chan] end
    end
    match v_sup a with Some k => late_procs k | None => [] end
    match m, v_sup a with
    | AtBoot, _ => []
    | _, Some k => late_trace k
    | _, None => syncEvents
    end
    match m with
    | AtBoot | Started | Stopped => MIdle
    | AtMake => MStartMake location
    | AtGo => MStartGo location
    | InStart => MStartRange
    | AtSend => MStopSend
    | InStop => MStopRange
    end
    match m with
    | AtBoot => [CallStart; CallStop]
    | AtMake | AtGo | InStart | Started => [CallStop]
    | AtSend | InStop | Stopped => []
    end
    match m with
    | AtBoot | AtMake | AtGo | InStart => []
    | Started | AtSend | InStop => [(CallStart, None)]
    | Stopped => [(CallStart, None); (CallStop, None)]
    end
    match v_sup a with Some k => [sup_point k] | None => [] end
    (v_crash a).

End LateStop.

(** No thread of the view can move. *)
Definition late_quiescent (a : view) : bool :=
  match late_step TMain a, late_step (TSup 0) a with
  | None, None => true
  | _, _ => false
  end.

(** The ways the run can end. *)
Definition late_end (a : view) : bool :=
  match v_crash a with
  | Some SendOnClosed => true
  | Some CloseOfClosed => true
  | Some _ => false
  | None =>
      match v_caller a, v_sup a with
      | Stopped, Some 9 => true
      | _, _ => false
      end
  end.

(** The views along a schedule. *)
Fixpoint late_run (schedule : list tid) (a : view) : view :=
  match schedule with
  | [] => a
  | t :: rest =>
      match late_step t a with
      | Some b => late_run rest b
      | None => late_run rest a
      end
  end.

Module Late.

(** The supervisor runs to its end, then the caller: [Stop] sends on the
    closed channel. *)
Definition sup_first : list tid :=
  [TMain; TMain; TMain] ++ repeat (TSup 0) 9 ++ [TMain; TMain; TMain].

(** The supervisor receives its own request, the caller sends and takes
    back its request, the supervisor shuts the child down. *)
Definition caller_takes : list tid :=
  [TMain; TMain; TMain] ++ repeat (TSup 0) 5 ++ [TMain; TMain; TMain; TMain]
    ++ repeat (TSup 0) 4 ++ [TMain].

(** As before, but the request of [Stop] stays in the buffer until the
    supervisor, back in its loop, receives it. *)
Definition sup_takes : list tid :=
  [TMain; TMain; TMain] ++ repeat (TSup 0) 5 ++ [TMain; TMain; TMain]
    ++ repeat (TSup 0) 7.

End Late.

(** * Properties *)

(** ** Configuration builders *)

Module CfgFacts.
Import Cfg.

Local Ltac frame :=
  simpl; repeat split; try reflexivity;
  intros g Hg; destruct g; simpl; try reflexivity; congruence.

(** C9. Each of the eight builders, called on a variable holding [c],
    returns a [Config] whose named field is the argument and whose other
    seven fields are those of [c]; the caller's variable still holds [c]
    after the call. *)
Theorem builders_change_one_field (c : Config) :
  (forall v, let '(r, recv) := invoke Version c v in
             recv = c /\ version r = v /\ same_but FVersion c r)
  /\ (forall p, let '(r, recv) := invoke Port c p in
             recv = c /\ port r = p /\ same_but FPort c r)
  /\ (forall d, let '(r, recv) := invoke Database c d in
             recv = c /\ database r = d /\ same_but FDatabase c r)
  /\ (forall u, let '(r, recv) := invoke Username c u in
             recv = c /\ username r = u /\ same_but FUsername c r)
  /\ (forall p, let '(r, recv) := invoke Password c p in
             recv = c /\ password r = p /\ same_but FPassword c r)
  /\ (forall p, let '(r, recv) := invoke RuntimePath c p in
             recv = c /\ runtimePath r = p /\ same_but FRuntimePath c r)
  /\ (forall t, let '(r, recv) := invoke StartTimeout c t in
             recv = c /\ startTimeout r = t /\ same_but FStartTimeout c r)
  /\ (forall t, let '(r, recv) := invoke StopTimeout c t in
             recv = c /\ stopTimeout r = t /\ same_but FStopTimeout c r).
Proof.
  repeat apply conj; intros x; frame.
Qed.

End CfgFacts.

(** ** Paths *)

Module PathFacts.
Import filepath.

Local Open Scope string_scope.

Lemma app_cons c s t : String c s ++ t = String c (s ++ t).
Proof. reflexivity. Qed.

Lemma app_empty_l s : "" ++ s = s.
Proof. reflexivity. Qed.

Lemma app_assoc (a b c : string) : (a ++ b) ++ c = a ++ (b ++ c).
Proof.
  induction a as [|x a IH]; [reflexivity|].
  rewrite !app_cons, IH. reflexivity.
Qed.

(** The examples of the documentation of [path/filepath]. *)
Example Clean_examples :
  Clean "a/c" = "a/c" /\ Clean "a//c" = "a/c" /\ Clean "a/c/." = "a/c"
  /\ Clean "a/c/b/.." = "a/c" /\ Clean "/../a/c" = "/a/c"
  /\ Clean "/../a/b/../././/c" = "/a/c" /\ Clean "" = "."
  /\ Clean "../../x" = "../../x" /\ Clean "/" = "/".
Proof. repeat split. Qed.

Example Join_examples :
  Join "a" "b/c" = "a/b/c" /\ Join "a/b" "../../../xyz" = "../xyz"
  /\ Join "a" "" = "a" /\ Join "" "a" = "a" /\ Join "" "" = "".
Proof. repeat split. Qed.

Example Dir_examples :
  Dir "/foo/bar/baz.js" = "/foo/bar" /\ Dir "/foo/bar/baz/" = "/foo/bar/baz"
  /\ Dir "dev.txt" = "." /\ Dir "../todo.txt" = ".." /\ Dir ".." = "."
  /\ Dir "/" = "/" /\ Dir "" = ".".
Proof. repeat split. Qed.

Example HasSuffix_examples :
  HasSuffix "postgres-linux-x86_64.txz" ".txz" = true
  /\ HasSuffix "txz" ".txz" = false
  /\ HasSuffix "META-INF/MANIFEST.MF" ".txz" = false
  /\ HasSuffix ".txz" ".txz" = true.
Proof. repeat split. Qed.

Lemma split_nonempty s : split s <> [].
Proof.
  destruct s as [|c s]; simpl; [discriminate|].
  destruct (is_sep c); [discriminate|].
  destruct (split s); discriminate.
Qed.

Lemma split_app a b : split (a ++ "/" ++ b) = (split a ++ split b)%list.
Proof.
  induction a as [|c a IH].
  - reflexivity.
  - rewrite app_cons. simpl. rewrite IH.
    destruct (is_sep c); [reflexivity|].
    destruct (split a) as [|x xs] eqn:E; [destruct (split_nonempty a E)|].
    reflexivity.
Qed.

Lemma split_slash_free s : slash_free s = true -> split s = [s].
Proof.
  induction s as [|c s IH]; [reflexivity|].
  simpl. intros H. apply andb_prop in H as [Hc Hs].
  destruct (is_sep c); [discriminate|].
  rewrite (IH Hs). reflexivity.
Qed.

Lemma slash_free_app a b :
  slash_free (a ++ b) = slash_free a && slash_free b.
Proof.
  induction a as [|c a IH]; [reflexivity|].
  rewrite app_cons. simpl. rewrite IH. apply andb_assoc.
Qed.

Lemma clean_go_app r xs ys out :
  clean_go r (xs ++ ys)%list out = clean_go r ys (rev (clean_go r xs out)).
Proof.
  revert out. induction xs as [|x xs IH]; intros out.
  - simpl. rewrite rev_involutive. reflexivity.
  - simpl.
    destruct (_ || _); [apply IH|].
    destruct (String.eqb x "..").
    + destruct out as [|top below]; [destruct r; apply IH|].
      destruct (String.eqb top ".."); apply IH.
    + apply IH.
Qed.

Lemma clean_go_plain r b out :
  plain b = true -> clean_go r [b] out = rev (b :: out).
Proof.
  unfold plain. intros H.
  apply andb_prop in H as [H H3]. apply andb_prop in H as [H H2].
  apply andb_prop in H as [_ H1].
  apply negb_true_iff in H1, H2, H3.
  simpl. rewrite H1, H2, H3. reflexivity.
Qed.

Lemma join_sep_snoc xs b :
  xs <> [] -> join_sep (xs ++ [b])%list = join_sep xs ++ "/" ++ b.
Proof.
  induction xs as [|x xs IH]; [congruence|]. intros _.
  destruct xs as [|y ys].
  - reflexivity.
  - change (join_sep ((x :: y :: ys) ++ [b])%list)
      with (x ++ "/" ++ join_sep ((y :: ys) ++ [b])%list).
    rewrite IH by discriminate.
    change (join_sep (x :: y :: ys)) with (x ++ "/" ++ join_sep (y :: ys)).
    rewrite !app_assoc. reflexivity.
Qed.

Lemma rooted_app a b : a <> "" -> rooted (a ++ b) = rooted a.
Proof. destruct a; [congruence|reflexivity]. Qed.

(** Cleaning a tidy path extended by one plain element changes nothing. *)
Lemma Clean_extend a b :
  tidy a -> plain b = true -> Clean (a ++ "/" ++ b) = a ++ "/" ++ b.
Proof.
  intros (Hc & Hroot & Hdot) Hb.
  assert (Ha : a <> "") by (intros ->; discriminate Hc).
  assert (Hsf : slash_free b = true).
  { unfold plain in Hb. repeat (apply andb_prop in Hb as [Hb _]). exact Hb. }
  unfold Clean in *.
  rewrite rooted_app by exact Ha.
  rewrite split_app, (split_slash_free b Hsf), clean_go_app.
  rewrite (clean_go_plain _ b _ Hb). simpl rev. rewrite rev_involutive.
  set (X := clean_go (rooted a) (split a) []) in *.
  assert (HX : X <> []).
  { intros E. rewrite E in Hc. simpl in Hc.
    destruct (rooted a); [apply Hroot|apply Hdot]; symmetry; exact Hc. }
  rewrite (join_sep_snoc X b HX).
  destruct (rooted a).
  - rewrite <- Hc. rewrite !app_assoc. reflexivity.
  - destruct (String.eqb_spec (join_sep X) "") as [E|E].
    + congruence.
    + rewrite Hc.
      destruct (String.eqb_spec (a ++ "/" ++ b) "") as [E'|_]; [|reflexivity].
      destruct a; [congruence|discriminate E'].
Qed.

Lemma tidy_extend a b : tidy a -> plain b = true -> tidy (a ++ "/" ++ b).
Proof.
  intros Ha Hb. split; [apply Clean_extend; assumption|].
  assert (Hne : a <> "") by (destruct Ha as (Hc & _); intros ->; discriminate Hc).
  destruct a as [|c a]; [congruence|].
  split; rewrite app_cons; intros E; injection E as _ E;
    destruct a; discriminate E.
Qed.

(** [Join] of a tidy path and a plain element is their concatenation with
    a separator. *)
Lemma Join_tidy a b : tidy a -> plain b = true -> Join a b = a ++ "/" ++ b.
Proof.
  intros Ha Hb. unfold Join.
  destruct (String.eqb_spec a "") as [->|_].
  - destruct Ha as (Hc & _). discriminate Hc.
  - simpl. apply Clean_extend; assumption.
Qed.

Lemma plain_archiveName os arch version :
  slash_free os = true -> slash_free arch = true -> slash_free version = true ->
  plain (archiveName os arch version) = true.
Proof.
  intros Ho Ha Hv. unfold plain, archiveName.
  rewrite !slash_free_app, Ho, Ha, Hv. reflexivity.
Qed.

End PathFacts.

(** ** Cache locator *)

Module LocatorFacts.

(** The locator on a version strategy that yields [(os, arch, version)]. *)
Lemma locator_unfold env os arch version h :
  defaultCacheLocator env (ret (os, arch, version)) h =
  let path := cachePath (env_UserHomeDir env h) os arch version in
  (match env_Stat env (h ++ [EvUserHomeDir]) path with
   | inr err => if os_IsExist err then Crash NilDeref else Ok (path, false)
   | inl info => Ok (path, negb (fi_isDir info))
   end,
   [EvUserHomeDir; EvStat path]).
Proof.
  unfold defaultCacheLocator, bind, call, ret, cachePath. simpl.
  rewrite !app_nil_r.
  destruct (env_Stat _ _ _) as [info|err]; simpl; [reflexivity|].
  destruct (os_IsExist err); reflexivity.
Qed.

Lemma stat_errno_not_exist n : In n stat_errnos -> errno_is_exist n = false.
Proof.
  unfold stat_errnos. simpl.
  intros H. repeat (destruct H as [<-|H]; [reflexivity|]). destruct H.
Qed.

(** C10. When the stat of the cache path fails with one of the errors of
    stat(2), the locator returns the computed path with the flag false;
    the outcome is a normal return, not the nil dereference that
    [info.IsDir()] would cause. *)
Theorem stat_error_reports_absent env os arch version h op p n :
  let path := cachePath (env_UserHomeDir env h) os arch version in
  env_Stat env (h ++ [EvUserHomeDir]) path = inr (PathError op p n) ->
  In n stat_errnos ->
  defaultCacheLocator env (ret (os, arch, version)) h
  = (Ok (path, false), [EvUserHomeDir; EvStat path])
  /\ fst (defaultCacheLocator env (ret (os, arch, version)) h) <> Crash NilDeref.
Proof.
  intros path Hstat Hn. subst path.
  rewrite locator_unfold. cbv zeta. rewrite Hstat. simpl.
  rewrite (stat_errno_not_exist n Hn). split; [reflexivity|discriminate].
Qed.

Lemma stat_error_reports_absent_witness :
  defaultCacheLocator Envs.cache_miss (ret ("linux", "amd64", "12.1.0")) []
  = (Ok ("/home/user/.embedded-postgres-go/embedded-postgres-binaries-linux-amd64-12.1.0.txz",
         false),
     [EvUserHomeDir;
      EvStat "/home/user/.embedded-postgres-go/embedded-postgres-binaries-linux-amd64-12.1.0.txz"])
  /\ fst (defaultCacheLocator Envs.cache_miss (ret ("linux", "amd64", "12.1.0")) [])
     <> Crash NilDeref.
Proof.
  apply (stat_error_reports_absent Envs.cache_miss "linux" "amd64" "12.1.0" []
           "stat"
           "/home/user/.embedded-postgres-go/embedded-postgres-binaries-linux-amd64-12.1.0.txz"
           ENOENT).
  - reflexivity.
  - simpl. tauto.
Defined.

(** The dereference is modelled: an error that [os.IsExist] accepts makes
    the locator panic. *)
Lemma exist_error_panics env os arch version h op p :
  let path := cachePath (env_UserHomeDir env h) os arch version in
  env_Stat env (h ++ [EvUserHomeDir]) path = inr (PathError op p EEXIST) ->
  fst (defaultCacheLocator env (ret (os, arch, version)) h) = Crash NilDeref.
Proof.
  intros path Hstat. subst path. rewrite locator_unfold. cbv zeta.
  rewrite Hstat. reflexivity.
Qed.

Local Open Scope string_scope.

Lemma tidy_cacheDirName : filepath.tidy cacheDirName.
Proof. repeat split; discriminate. Qed.





End LocatorFacts.


(** ** Remote fetch strategy *)

Module FetchFacts.

Lemma fetchEntries_unwanted env locator entries h :
  Forall unwanted entries ->
  fetchEntries env locator entries h
  = (Ok None, repeat EvZipRead (S (length entries))).
Proof.
  intros H. revert h. induction H as [|e entries [Hopen Hname] _ IH]; intros h.
  - reflexivity.
  - cbn [fetchEntries]. unfold bind at 1. cbn [emit].
    rewrite Hopen.
    assert (Hw : match ze_header e with
                 | Some name => HasSuffix name ".txz"
                 | None => false
                 end = false).
    { destruct (ze_header e) as [name|]; [apply Hname|]; reflexivity. }
    rewrite Hw. cbn [negb]. rewrite IH. reflexivity.
Qed.

Lemma repeat_no_write n :
  forallb (fun e => negb (is_write e)) (repeat EvZipRead n) = true.
Proof. induction n; [reflexivity|exact IHn]. Qed.

(** C6. When the download and the decoding succeed, every entry of the
    container can be read, none has a name ending in [.txz], and both
    closes succeed, the strategy returns nil; it reads each entry header
    and the end of the container and makes no other call: no directory or
    file is created or written, and the cache locator is not consulted. *)
Theorem fetch_without_match_is_noop env os arch version locator h r body z :
  let url := downloadUrl os arch version in
  env_HttpGet env h url = (Some r, None) ->
  resp_body r = inl body ->
  env_ZipOpen env (h ++ [EvHttpGet url; EvReadBody]) body (resp_ContentLength r)
  = inl z ->
  Forall unwanted (zf_entries z) ->
  zf_close z = None ->
  resp_close r = None ->
  let out := defaultRemoteFetchStrategy env (ret (os, arch, version)) locator h in
  fst out = Ok None
  /\ snd out = ([EvHttpGet url; EvReadBody; EvZipOpen]
                 ++ repeat EvZipRead (S (length (zf_entries z)))
                 ++ [EvZipClose; EvBodyClose])%list
  /\ forallb (fun e => negb (is_write e)) (snd out) = true.
Proof.
  intros url Hget Hbody Hopen Hent Hzc Hrc out.
  assert (E : out = (Ok None,
                     ([EvHttpGet url; EvReadBody; EvZipOpen]
                        ++ repeat EvZipRead (S (length (zf_entries z)))
                        ++ [EvZipClose; EvBodyClose])%list)).
  { subst out. unfold defaultRemoteFetchStrategy.
    unfold bind at 1. cbn [ret]. rewrite app_nil_r.
    unfold bind at 1. cbn [call]. fold url. rewrite Hget.
    unfold defer at 1. unfold bind at 1. cbn [emit].
    rewrite Hbody. unfold bind at 1. cbn [call].
    rewrite <- app_assoc. cbn [app]. rewrite Hopen.
    unfold defer at 1.
    rewrite (fetchEntries_unwanted env locator _ _ Hent).
    unfold closeZip, closeBody, bind, emit, ret. rewrite Hzc, Hrc.
    cbn. do 4 f_equal. rewrite <- app_assoc. reflexivity. }
  rewrite E. cbn [fst snd]. split; [reflexivity|]. split; [reflexivity|].
  cbn [app forallb is_write negb andb].
  rewrite forallb_app, repeat_no_write. reflexivity.
Qed.

Lemma fetch_without_match_is_noop_witness :
  let out := defaultRemoteFetchStrategy Envs.no_archive
               (ret ("linux", "amd64", "12.1.0"))
               (defaultCacheLocator Envs.no_archive (ret ("linux", "amd64", "12.1.0")))
               [] in
  fst out = Ok None
  /\ snd out = [EvHttpGet (downloadUrl "linux" "amd64" "12.1.0"); EvReadBody;
                EvZipOpen; EvZipRead; EvZipRead; EvZipRead; EvZipClose; EvBodyClose]
  /\ forallb (fun e => negb (is_write e)) (snd out) = true.
Proof.
  apply (fetch_without_match_is_noop Envs.no_archive "linux" "amd64" "12.1.0"
           _ [] Envs.response [] Envs.jar_without_archive);
    try reflexivity.
  repeat constructor; simpl; intros name E; injection E as <-; reflexivity.
Defined.

End FetchFacts.

(** ** Start: cache lookup, fetch and extraction *)

Module StartFacts.

Lemma marks_app a b : marks (a ++ b) = marks a ++ marks b.
Proof. unfold marks. apply List.filter_app. Qed.



Lemma snd_bind {E A B} (m : Act E A) (k : A -> Act E B) h :
  snd (bind m k h)
  = snd (m h) ++ match fst (m h) with
                 | Ok a => snd (k a (h ++ snd (m h)))
                 | Crash _ => []
                 end.
Proof.
  unfold bind. destruct (m h) as [[a|c] es]; simpl.
  - destruct (k a (h ++ es)); reflexivity.
  - rewrite app_nil_r. reflexivity.
Qed.

Lemma fst_lift {A} tag (m : Act OsEvent A) t :
  fst (lift tag m t) = fst (m (os_view t)).
Proof. unfold lift. destruct (m _); reflexivity. Qed.

Lemma snd_lift {A} tag (m : Act OsEvent A) t :
  snd (lift tag m t) = map tag (snd (m (os_view t))).
Proof. unfold lift. destruct (m _); reflexivity. Qed.

Local Ltac next :=
  rewrite snd_bind, marks_app, ?fst_lift, ?snd_lift;
  cbn [call emit ret fst snd map].





















End StartFacts.

(** ** The caller and the supervisors *)

Module MachineFacts.

Local Ltac step_inv H :=
  unfold step, step_main, Start, Stop, startPostgres in H;
  repeat case_match; simplify_eq.

Lemma run_invariant env (P : Sys -> Prop) :
  (forall t s s', P s -> step env t s = Some s' -> P s') ->
  forall schedule s, P s -> P (run env schedule s).
Proof.
  intros Hstep schedule. induction schedule as [|t rest IH]; intros s Hs.
  - exact Hs.
  - simpl. destruct (step env t s) as [s'|] eqn:E.
    + apply IH. exact (Hstep t s s' Hs E).
    + apply IH. exact Hs.
Qed.

Lemma run_app env a b s : run env (a ++ b) s = run env b (run env a s).
Proof.
  revert s. induction a as [|t a IH]; intros s; [reflexivity|].
  simpl. destruct (step env t s); apply IH.
Qed.

(** No step assigns the [shutdownHook] field. *)
Lemma step_shutdownHook env t s s' :
  step env t s = Some s' -> shutdownHook (ep s') = shutdownHook (ep s).
Proof. intros H. step_inv H; reflexivity. Qed.

Lemma never_started_step env t s s' :
  never_started s -> step env t s = Some s' -> never_started s'.
Proof.
  unfold never_started. intros Hs H.
  step_inv H; simpl in *; repeat case_match; simplify_eq;
    try (destruct Hs as (Hsups & ? & ? & [?|[? ?]]); simplify_eq);
    try (destruct Hs as [?|[[? ?]|?]]; simplify_eq);
    try match goal with
        | H1 : sups ?s = [], H2 : sups ?s !! _ = Some _ |- _ =>
            rewrite H1 in H2; discriminate H2
        end;
    rewrite ?in_app_iff; simpl; eauto 10.
Qed.

(** Channel operations keep a closed channel closed. *)
Lemma insert_keeps_closed (hp : list chan) i c k :
  (forall old, hp !! i = Some old -> c_closed old = true -> c_closed c = true) ->
  (exists d, hp !! k = Some d /\ c_closed d = true) ->
  exists d, <[i := c]> hp !! k = Some d /\ c_closed d = true.
Proof.
  intros Hc (d & Hd & Hcl).
  destruct (decide (i = k)) as [->|Hne].
  - exists c. split; [|exact (Hc d Hd Hcl)].
    apply list_lookup_insert_eq. eapply lookup_lt_Some. exact Hd.
  - exists d. split; [|exact Hcl]. rewrite list_lookup_insert_ne; assumption.
Qed.

Lemma send_keeps_closed hp r v hp' k :
  chan_send hp r v = Done hp' ->
  (exists d, hp !! k = Some d /\ c_closed d = true) ->
  exists d, hp' !! k = Some d /\ c_closed d = true.
Proof.
  unfold chan_send, Heap, chan_id in *. intros H Hk. repeat case_match; simplify_eq.
  apply insert_keeps_closed; [|exact Hk]. intros old Ho Hc.
  congruence.
Qed.

Lemma recv_keeps_closed hp r v hp' k :
  chan_recv hp r = Done (v, hp') ->
  (exists d, hp !! k = Some d /\ c_closed d = true) ->
  exists d, hp' !! k = Some d /\ c_closed d = true.
Proof.
  unfold chan_recv, Heap, chan_id in *. intros H Hk. repeat case_match; simplify_eq; try exact Hk.
  apply insert_keeps_closed; [|exact Hk]. intros old Ho Hc.
  simpl. congruence.
Qed.

Lemma close_keeps_closed hp r hp' k :
  chan_close hp r = Done hp' ->
  (exists d, hp !! k = Some d /\ c_closed d = true) ->
  exists d, hp' !! k = Some d /\ c_closed d = true.
Proof.
  unfold chan_close, Heap, chan_id in *. intros H Hk. repeat case_match; simplify_eq.
  apply insert_keeps_closed; [|exact Hk]. reflexivity.
Qed.

Lemma step_keeps_closed env t s s' k :
  step env t s = Some s' ->
  (exists d, heap s !! k = Some d /\ c_closed d = true) ->
  exists d, heap s' !! k = Some d /\ c_closed d = true.
Proof.
  intros H Hk. step_inv H; simpl; try exact Hk;
    try (eapply send_keeps_closed; eassumption);
    try (eapply recv_keeps_closed; eassumption);
    try (eapply close_keeps_closed; eassumption).
  destruct Hk as (d & Hd & Hc). exists d. split; [|exact Hc].
  apply lookup_app_l_Some. exact Hd.
Qed.

Lemma step_startupHook env t s s' :
  step env t s = Some s' -> startupHook (ep s) <> None -> startupHook (ep s') <> None.
Proof. intros H Hs. step_inv H; simpl; congruence. Qed.

Lemma step_results env t s s' x :
  step env t s = Some s' -> In x (results s) -> In x (results s').
Proof.
  intros H Hx. step_inv H; simpl; rewrite ?in_app_iff; auto.
Qed.

Lemma closed_at_step env t s s' :
  step env t s = Some s' ->
  closed_at (heap s) (shutdownHook (ep s)) ->
  closed_at (heap s') (shutdownHook (ep s')).
Proof.
  intros H (c & Hd & Hc).
  rewrite (step_shutdownHook env t s s' H).
  unfold closed_at, deref in *.
  destruct (shutdownHook (ep s)) as [i|]; [|discriminate].
  apply (step_keeps_closed env t s s' i H). eauto.
Qed.

Lemma recv_none_closed hp r h :
  chan_recv hp r = Done (None, h) -> closed_at hp r.
Proof.
  unfold chan_recv, closed_at, deref. intros H.
  repeat case_match; simplify_eq. eauto.
Qed.

Local Ltac settle :=
  simpl in *; rewrite ?in_app_iff in *; simpl in *;
  repeat match goal with Hp : pc _ = _ |- _ => rewrite Hp in * end;
  intuition (try congruence; try discriminate).

Lemma after_stop_step env t s s' :
  after_stop s -> step env t s = Some s' -> after_stop s'.
Proof.
  intros [Hhook Hclosed] H. split.
  - intros Hpc. clear Hclosed. step_inv H; settle.
  - intros Hin.
    assert (Hcases :
      In (CallStop, None) (results s) \/
      closed_at (heap s') (shutdownHook (ep s'))).
    { clear Hhook Hclosed. step_inv H; settle.
      right. eapply recv_none_closed. eassumption. }
    destruct Hcases as [Hs|Hs]; [|exact Hs].
    exact (closed_at_step env t s s' H (Hclosed Hs)).
Qed.

Lemma never_started_boot env cfg calls : never_started (boot env cfg calls).
Proof. unfold never_started, boot. simpl. auto. Qed.

Lemma after_stop_boot env cfg calls : after_stop (boot env cfg calls).
Proof.
  unfold after_stop, boot. simpl. split; [intros [?|[?|[]]]; discriminate|].
  intros [].
Qed.

(** C7. In any state reached from a new coordinator in which no [Start]
    has returned nil, a call of [Stop] returns the error
    "postgres not yet started" in one step that changes nothing else: the
    shutdown channel is still open and empty as the constructor made it,
    no event is recorded, and no child process or supervisor exists. *)
Theorem stop_before_start_is_refused env cfg calls schedule rest :
  let s := run env schedule (boot env cfg calls) in
  crashed s = None ->
  pc s = MIdle ->
  todo s = CallStop :: rest ->
  ~ In (CallStart, None) (results s) ->
  step env TMain s
  = Some (mkSys (ep s) (heap s) (procs s) (trace s) MIdle rest
                (results s ++ [(CallStop, Some notStarted)]) (sups s) None)
  /\ heap s = [make_chan] /\ procs s = [] /\ sups s = [].
Proof.
  intros s Hc Hpc Htodo Hres.
  assert (Hinv : never_started s).
  { apply run_invariant; [apply never_started_step|apply never_started_boot]. }
  unfold never_started in Hinv.
  destruct (startupHook (ep s)) as [i|] eqn:Hhook.
  - rewrite Hpc in Hinv. destruct Hinv as [?|[[? ?]|?]];
      [contradiction|discriminate|discriminate].
  - destruct Hinv as (Hsups & Hprocs & Hheap & _).
    split; [|auto].
    unfold step. rewrite Hc. unfold step_main. rewrite Hpc, Htodo. unfold Stop.
    cbn. rewrite Hhook. unfold returned. cbn. rewrite Hc. reflexivity.
Qed.

Lemma stop_before_start_is_refused_witness :
  let s := run Envs.port_taken [TMain]
               (boot Envs.port_taken Cfg.DefaultConfig [CallStart; CallStop]) in
  step Envs.port_taken TMain s
  = Some (mkSys (ep s) (heap s) (procs s) (trace s) MIdle []
                (results s ++ [(CallStop, Some notStarted)]) (sups s) None)
  /\ heap s = [make_chan] /\ procs s = [] /\ sups s = [].
Proof.
  refine (stop_before_start_is_refused Envs.port_taken Cfg.DefaultConfig
            [CallStart; CallStop] [TMain] [] _ _ _ _);
    vm_compute; try reflexivity.
  intros [H|[]]. discriminate H.
Defined.

(** C3, what the code does.  In any state reached from a new coordinator
    in which a [Stop] has returned nil, the next call of [Stop] passes the
    guard of line 317 ([startupHook] is never reset to nil) and then
    panics at line 320 with a send on the closed shutdown channel; no
    "not yet started" error is returned. *)
Theorem second_stop_panics env cfg calls schedule rest :
  let s := run env schedule (boot env cfg calls) in
  crashed s = None ->
  pc s = MIdle ->
  todo s = CallStop :: rest ->
  In (CallStop, None) (results s) ->
  let s1 := with_pc (with_todo s rest) MStopSend in
  step env TMain s = Some s1
  /\ step env TMain s1 = Some (crash_with s1 SendOnClosed).
Proof.
  intros s Hc Hpc Htodo Hres s1.
  assert (Hinv : after_stop s).
  { apply run_invariant; [apply after_stop_step|apply after_stop_boot]. }
  destruct Hinv as [Hhook Hclosed].
  specialize (Hhook (or_intror (or_intror Hres))).
  destruct (Hclosed Hres) as (c & Hd & Hcl).
  split.
  - unfold step. rewrite Hc. unfold step_main. rewrite Hpc, Htodo. unfold Stop. cbn.
    destruct (startupHook (ep s)); [reflexivity|congruence].
  - unfold step, s1. cbn. rewrite Hc. unfold chan_send.
    unfold deref in Hd. destruct (shutdownHook (ep s)) as [i|]; [|discriminate].
    unfold Heap, chan_id in *. rewrite Hd, Hcl. reflexivity.
Qed.

Lemma second_stop_panics_witness :
  let s := run Envs.healthy (Schedules.ready_start 0 ++ Schedules.stop 0)
               (boot Envs.healthy Cfg.DefaultConfig
                     [CallStart; CallStop; CallStop]) in
  let s1 := with_pc (with_todo s []) MStopSend in
  step Envs.healthy TMain s = Some s1
  /\ step Envs.healthy TMain s1 = Some (crash_with s1 SendOnClosed).
Proof.
  refine (second_stop_panics Envs.healthy Cfg.DefaultConfig
            [CallStart; CallStop; CallStop]
            (Schedules.ready_start 0 ++ Schedules.stop 0) [] _ _ _ _);
    vm_compute; tauto.
Defined.

(** On a healthy host one Start and one Stop work: both return nil, the
    child is signalled, waited for and reaped, and nothing can move after. *)
Example start_then_stop :
  let s := run Envs.healthy (Schedules.ready_start 0 ++ Schedules.stop 0)
               (boot Envs.healthy Cfg.DefaultConfig [CallStart; CallStop]) in
  results s = [(CallStart, None); (CallStop, None)]
  /\ procs s = [Reaped] /\ sups s = [SDone] /\ crashed s = None
  /\ heap s = [closed_chan; closed_chan]
  /\ os_view (skipn 11 (trace s))
     = [EvHealthCheck "host=localhost port=5432 user=postgres password=postgres dbname=postgres sslmode=disable";
        EvSignalQuit 0; EvWait 0].
Proof. vm_compute. repeat split. Qed.

(** A port in use makes [Start] fail before anything else is called. *)
Example start_on_taken_port :
  let s := run Envs.port_taken [TMain]
               (boot Envs.port_taken Cfg.DefaultConfig [CallStart]) in
  results s
  = [(CallStart, Some (ErrorString "process already listening on port 5432"))]
  /\ trace s = [Os (EvListen "localhost:5432")]
  /\ startupHook (ep s) = None /\ sups s = [].
Proof. vm_compute. repeat split. Qed.

Lemma shutdownHook_boot env cfg calls :
  shutdownHook (ep (boot env cfg calls)) = Some 0.
Proof. reflexivity. Qed.

(** C2, what the code does.  No step of any run assigns [shutdownHook]:
    it is the channel the constructor made, for every [Start].  In the
    run Start, Stop, Start on a healthy host the second [Start] allocates
    a third channel for [startupHook] only; its supervisor finds the
    shutdown channel closed by the first [Stop], leaves its loop at once
    and ends, and the second child keeps running with no supervisor. *)
Theorem shutdown_channel_is_allocated_once :
  (forall env cfg calls schedule,
      shutdownHook (ep (run env schedule (boot env cfg calls))) = Some 0)
  /\ let s := run Envs.healthy
                  (Schedules.ready_start 0 ++ Schedules.stop 0
                     ++ Schedules.ready_start 1 ++ [TSup 1])
                  (boot Envs.healthy Cfg.DefaultConfig
                        [CallStart; CallStop; CallStart]) in
     results s = [(CallStart, None); (CallStop, None); (CallStart, None)]
     /\ shutdownHook (ep s) = Some 0
     /\ startupHook (ep s) = Some 2
     /\ heap s = [closed_chan; closed_chan; closed_chan]
     /\ sups s = [SDone; SDone]
     /\ procs s = [Reaped; Running]
     /\ crashed s = None.
Proof.
  split.
  - intros env cfg calls schedule.
    apply (run_invariant env (fun s => shutdownHook (ep s) = Some 0)).
    + intros t s s' Hs H. rewrite (step_shutdownHook env t s s' H). exact Hs.
    + apply shutdownHook_boot.
  - vm_compute. repeat split.
Qed.

End MachineFacts.

(** ** A first Start whose deadline passes *)

Module TimeoutFacts.

Section Path.
Context (env : Env) (cfg : Cfg.Config).
Context (location : string) (syncEvents : list Event) (probeEvents : list OsEvent).
Hypothesis Hpass : deadline_passes env cfg location syncEvents probeEvents.

Local Abbreviation st := (timed_out env cfg location syncEvents probeEvents).
Local Abbreviation path := (on_path env cfg location syncEvents probeEvents).

Local Ltac go H2 H3 :=
unfold step, timed_out, sup_after;
cbn -[filepath.Join postgresArgs readinessRace os_view lift];
unfold lift; rewrite ?H2, ?H3; try reflexivity.

Lemma step_boot t :
step env t (boot env cfg [CallStart])
= match t with
  | TMain => Some (before_make env cfg location syncEvents)
  | TSup _ => None
  end.
Proof.
destruct Hpass as (H1 & _).
destruct t as [|i]; [|reflexivity].
unfold step, boot. cbn [newDatabaseWithConfig crashed].
unfold step_main. cbn [pc todo]. unfold Start, with_todo. cbn [ep trace].
change (Start_sync env _ []) with (Start_sync env (fresh env cfg) []).
rewrite H1. reflexivity.
Qed.

Lemma step_before_make t :
step env t (before_make env cfg location syncEvents)
= match t with
  | TMain => Some (before_go env cfg location syncEvents)
  | TSup _ => None
  end.
Proof. destruct t; reflexivity. Qed.

Lemma step_before_go t :
step env t (before_go env cfg location syncEvents)
= match t with
  | TMain => Some (st 0 false)
  | TSup _ => None
  end.
Proof. destruct t; reflexivity. Qed.

Lemma step_sup_path k back :
(k <= 9)%nat ->
step env (TSup 0) (st k back)
= if (k <? 9)%nat then Some (st (S k) back) else None.
Proof.
destruct Hpass as (_ & H2 & H3). intros Hk.
do 10 (destruct k as [|k]; [destruct back; go H2 H3|]).
lia.
Qed.

Lemma step_sup_other i k back : step env (TSup (S i)) (st k back) = None.
Proof.
unfold step, timed_out.
destruct (sup_after _ _ _ _ _ _) as [[[p hp] ps] tr]. reflexivity.
Qed.

Lemma step_main_path k back :
(k <= 9)%nat ->
step env TMain (st k back)
= if negb back && (4 <=? k)%nat then Some (st k true) else None.
Proof.
intros Hk.
do 10 (destruct k as [|k]; [destruct back; reflexivity|]).
lia.
Qed.

Lemma on_path_step t s s' : path s -> step env t s = Some s' -> path s'.
Proof.
intros [->|[->|[->|(k & back & Hk & Hback & ->)]]] H.
- rewrite step_boot in H. destruct t; simplify_eq. right. left. reflexivity.
- rewrite step_before_make in H. destruct t; simplify_eq.
  right. right. left. reflexivity.
- rewrite step_before_go in H. destruct t; simplify_eq.
  right. right. right. exists 0%nat, false. repeat split; [lia|discriminate].
- right. right. right. destruct t as [|[|i]].
  + rewrite step_main_path in H by exact Hk.
    destruct back; [discriminate|]. cbn [negb andb] in H.
    destruct (4 <=? k)%nat eqn:E; simplify_eq.
    exists k, true. apply Nat.leb_le in E. repeat split; auto.
  + rewrite step_sup_path in H by exact Hk.
    destruct (k <? 9)%nat eqn:E; simplify_eq.
    apply Nat.ltb_lt in E. exists (S k), back. repeat split; [lia|].
    intros Hb. specialize (Hback Hb). lia.
  + rewrite step_sup_other in H. discriminate.
Qed.

Lemma on_path_run schedule : path (run env schedule (boot env cfg [CallStart])).
Proof.
apply MachineFacts.run_invariant; [apply on_path_step|].
left. reflexivity.
Qed.

(** From every state of the run the final state can be reached. *)
Lemma finish s :
path s -> run env Schedules.timed_out_start s = st 9 true.
Proof.
unfold Schedules.timed_out_start.
intros [->|[->|[->|(k & back & Hk & Hback & ->)]]].
- cbn [run app repeat].
  rewrite step_boot, step_before_make, step_before_go.
  repeat (rewrite step_sup_path by lia; cbn [Nat.ltb Nat.leb]).
  rewrite step_main_path by lia. reflexivity.
- cbn [run app repeat].
  rewrite step_before_make, step_before_go, step_main_path by lia. cbn [negb andb Nat.leb].
  repeat (rewrite step_sup_path by lia; cbn [Nat.ltb Nat.leb]).
  rewrite step_main_path by lia. reflexivity.
- cbn [run app repeat].
  rewrite step_before_go. rewrite !step_main_path by lia. cbn [negb andb Nat.leb].
  repeat (rewrite step_sup_path by lia; cbn [Nat.ltb Nat.leb]).
  rewrite step_main_path by lia. reflexivity.
- assert (Hmain : forall j b, (j <= 9)%nat ->
             run env [TMain] (st j b) = st j (b || (4 <=? j)%nat)).
  { intros j b Hj. cbn [run]. rewrite step_main_path by exact Hj.
    destruct b, (4 <=? j)%nat; reflexivity. }
  assert (Hsup : forall n j b, (j <= 9)%nat ->
             run env (repeat (TSup 0) n) (st j b) = st (Nat.min 9 (j + n)) b).
  { induction n as [|n IH]; intros j b Hj.
    - cbn [repeat run]. f_equal. lia.
    - cbn [repeat run]. rewrite step_sup_path by exact Hj.
      destruct (Nat.ltb_spec j 9).
      + rewrite IH by lia. f_equal. lia.
      + rewrite IH by lia. f_equal. lia. }
  change [TMain; TMain; TMain] with ([TMain] ++ [TMain] ++ [TMain]).
  rewrite !MachineFacts.run_app, !Hmain, Hsup, Hmain by lia.
  replace (Nat.min 9 (k + 9)) with 9%nat by lia.
  destruct back, (4 <=? k)%nat; reflexivity.
Qed.


Lemma final_quiescent : quiescent env (st 9 true).
Proof.
intros [|[|i]].
- rewrite step_main_path by lia. reflexivity.
- rewrite step_sup_path by lia. reflexivity.
- apply step_sup_other.
Qed.

Lemma quiescent_final s : path s -> quiescent env s -> s = st 9 true.
Proof.
intros [->|[->|[->|(k & back & Hk & Hback & ->)]]] Hq.
- specialize (Hq TMain). rewrite step_boot in Hq. discriminate.
- specialize (Hq TMain). rewrite step_before_make in Hq. discriminate.
- specialize (Hq TMain). rewrite step_before_go in Hq. discriminate.
- pose proof (Hq (TSup 0)) as Hs. rewrite step_sup_path in Hs by exact Hk.
  destruct (Nat.ltb_spec k 9); [discriminate|].
  assert (k = 9%nat) as -> by lia.
  specialize (Hq TMain). rewrite step_main_path in Hq by lia.
  destruct back; [reflexivity|discriminate].
Qed.

Lemma path_results s r : path s -> In (CallStart, r) (results s) -> r = None.
Proof.
intros [->|[->|[->|(k & back & Hk & Hback & ->)]]]; try (intros []).
unfold timed_out. destruct (sup_after _ _ _ _ _ _) as [[[p hp] ps] tr].
destruct back; simpl; [|intros []].
intros [E|[]]. congruence.
Qed.



End Path.




(** C1, as amended.  On a new coordinator whose [Start] reaches the
    supervisor and whose readiness deadline passes: whenever [Start] has
    returned, it has returned nil; every state in which no goroutine can
    move has [Start] returned and the child reaped; and such a state is
    reached from every state of every schedule by letting the caller and
    the supervisor run on. *)
Theorem timed_out_start_returns_nil
        env cfg location syncEvents probeEvents schedule :
  deadline_passes env cfg location syncEvents probeEvents ->
  let s := run env schedule (boot env cfg [CallStart]) in
  (forall r, In (CallStart, r) (results s) -> r = None)
  /\ (quiescent env s -> results s = [(CallStart, None)] /\ procs s = [Reaped])
  /\ let final := run env Schedules.timed_out_start s in
     quiescent env final
     /\ results final = [(CallStart, None)] /\ procs final = [Reaped].
Proof.
  intros Hpass s.
  pose proof (on_path_run env cfg location syncEvents probeEvents Hpass schedule)
    as Hpath. fold s in Hpath.
  split; [intros r; apply (path_results env cfg _ _ _ s r Hpath)|].
  split.
  - intros Hq.
    rewrite (quiescent_final env cfg _ _ _ Hpass s Hpath Hq). split; reflexivity.
  - cbv zeta. rewrite (finish env cfg _ _ _ Hpass s Hpath).
    split; [apply final_quiescent; exact Hpass|]. split; reflexivity.
Qed.

Lemma never_ready_deadline_passes :
  deadline_passes Envs.never_ready Cfg.DefaultConfig
                  NeverReady.location NeverReady.syncEvents NeverReady.probeEvents.
Proof. vm_compute. repeat split. Qed.

Lemma timed_out_start_returns_nil_witness :
  let s := run Envs.never_ready [TMain; TMain; TMain; TSup 0] NeverReady.start in
  (forall r, In (CallStart, r) (results s) -> r = None)
  /\ (quiescent Envs.never_ready s ->
      results s = [(CallStart, None)] /\ procs s = [Reaped])
  /\ let final := run Envs.never_ready Schedules.timed_out_start s in
     quiescent Envs.never_ready final
     /\ results final = [(CallStart, None)] /\ procs final = [Reaped].
Proof.
  refine (timed_out_start_returns_nil Envs.never_ready Cfg.DefaultConfig
            NeverReady.location NeverReady.syncEvents NeverReady.probeEvents
            [TMain; TMain; TMain; TSup 0] _).
  vm_compute. repeat split.
Defined.

(** C1 as stated fails: with the default configuration on a host whose
    server never answers, it is not the case that every completed run of
    [Start] ends with nil returned and the child still running. *)
Lemma timed_out_start_child_not_left_running :
  ~ (forall schedule,
        let s := run Envs.never_ready schedule NeverReady.start in
        quiescent Envs.never_ready s ->
        results s = [(CallStart, None)] /\ In Running (procs s)).
Proof.
  intros H. specialize (H Schedules.timed_out_start).
  unfold NeverReady.start in H. cbv zeta in H.
  pose proof never_ready_deadline_passes as Hpass.
  rewrite (finish _ _ _ _ _ Hpass _ (or_introl eq_refl)) in H.
  destruct (H (final_quiescent _ _ _ _ _ Hpass)) as [_ Hrun].
  destruct Hrun as [Hrun|[]]. discriminate Hrun.
Qed.
End TimeoutFacts.

(** * Further properties *)

(** ** Chains of builder calls *)

Module ChainFacts.
Import Cfg Chain.

(** X1. After any chain of builder calls on [c], each field holds the
    argument of the last call of its own builder in the chain, and the value
    it has in [c] when the chain has no such call. *)
Theorem chain_last_call_wins (c : Config) (calls : list call) :
  version (chain c calls) = last_given version_of calls (version c)
  /\ port (chain c calls) = last_given port_of calls (port c)
  /\ database (chain c calls) = last_given database_of calls (database c)
  /\ username (chain c calls) = last_given username_of calls (username c)
  /\ password (chain c calls) = last_given password_of calls (password c)
  /\ runtimePath (chain c calls) = last_given runtimePath_of calls (runtimePath c)
  /\ startTimeout (chain c calls) = last_given startTimeout_of calls (startTimeout c)
  /\ stopTimeout (chain c calls) = last_given stopTimeout_of calls (stopTimeout c).
Proof.
  unfold chain, last_given. revert c.
  induction calls as [|k calls IH]; intros c.
  - repeat split.
  - cbn [fold_left]. specialize (IH (apply c k)).
    destruct k; exact IH.
Qed.

End ChainFacts.

(** ** The extraction directory *)

Module ExtractFacts.
Import filepath.

Local Open Scope string_scope.

Lemma dir_prefix_slash_free b : slash_free b = true -> dir_prefix b = "".
Proof.
  induction b as [|c b IH]; [reflexivity|].
  simpl. intros H. apply andb_prop in H as [Hc Hb].
  rewrite (IH Hb). simpl. destruct (is_sep c); [discriminate|reflexivity].
Qed.

Lemma dir_prefix_app a b :
  slash_free b = true -> dir_prefix (a ++ "/" ++ b) = a ++ "/".
Proof.
  intros Hb. induction a as [|c a IH].
  - change ("" ++ "/" ++ b) with (String "/" b). simpl.
    rewrite (dir_prefix_slash_free b Hb). reflexivity.
  - change (String c a ++ "/" ++ b) with (String c (a ++ "/" ++ b)).
    cbn [dir_prefix]. rewrite IH.
    destruct a; reflexivity.
Qed.

Lemma Clean_trailing a : tidy a -> Clean (a ++ "/") = a.
Proof.
  intros (Hc & Hroot & Hdot).
  assert (Ha : a <> "") by (intros ->; discriminate Hc).
  change (a ++ "/") with (a ++ "/" ++ "").
  unfold Clean in *.
  rewrite PathFacts.rooted_app by exact Ha.
  rewrite PathFacts.split_app, PathFacts.clean_go_app.
  simpl. rewrite rev_involutive. exact Hc.
Qed.

(** [Dir] undoes the extension of a tidy path by one element. *)
Lemma Dir_extend a b : tidy a -> plain b = true -> Dir (a ++ "/" ++ b) = a.
Proof.
  intros Ha Hb. unfold Dir.
  assert (Hsf : slash_free b = true).
  { unfold plain in Hb. repeat (apply andb_prop in Hb as [Hb _]). exact Hb. }
  rewrite (dir_prefix_app a b Hsf). apply Clean_trailing. exact Ha.
Qed.

Lemma cacheDirectory_tidy home :
  match home with
  | inl userHome => tidy userHome -> tidy (cacheDirectoryOf home)
  | inr _ => tidy (cacheDirectoryOf home)
  end.
Proof.
  destruct home as [userHome|e]; simpl.
  - intros Hh.
    rewrite (PathFacts.Join_tidy userHome cacheDirName Hh eq_refl).
    apply PathFacts.tidy_extend; [exact Hh|reflexivity].
  - exact LocatorFacts.tidy_cacheDirName.
Qed.

(** X2. A non-empty user location is the extraction directory as it is.
    With none, and the archive at the locator's path for a tidy home
    directory (or no home directory) and separator-free os, arch and
    version, the extraction directory is [extracted] inside the cache
    directory, next to the archive. *)
Theorem extraction_directory home os arch version :
  (forall userLocation cacheLocation,
      userLocation <> "" ->
      userLocationOrDefault userLocation cacheLocation = userLocation)
  /\ (slash_free os = true -> slash_free arch = true ->
      slash_free version = true ->
      match home with
      | inl userHome =>
          tidy userHome ->
          userLocationOrDefault "" (cachePath home os arch version)
          = userHome ++ "/.embedded-postgres-go/extracted"
      | inr _ =>
          userLocationOrDefault "" (cachePath home os arch version)
          = ".embedded-postgres-go/extracted"
      end).
Proof.
  split.
  - intros u p Hu. unfold userLocationOrDefault.
    destruct (String.eqb_spec u ""); [contradiction|reflexivity].
  - intros Ho Ha Hv.
    pose proof (PathFacts.plain_archiveName os arch version Ho Ha Hv) as Hn.
    pose proof (cacheDirectory_tidy home) as Hroot.
    unfold userLocationOrDefault, cachePath. cbn [String.eqb negb].
    destruct home as [userHome|e].
    + intros Hh. specialize (Hroot Hh).
      rewrite (PathFacts.Join_tidy _ _ Hroot Hn).
      rewrite (Dir_extend _ _ Hroot Hn).
      rewrite (PathFacts.Join_tidy _ "extracted" Hroot eq_refl).
      simpl cacheDirectoryOf.
      rewrite (PathFacts.Join_tidy userHome cacheDirName Hh eq_refl).
      rewrite !PathFacts.app_assoc. reflexivity.
    + rewrite (PathFacts.Join_tidy _ _ Hroot Hn).
      rewrite (Dir_extend _ _ Hroot Hn).
      rewrite (PathFacts.Join_tidy _ "extracted" Hroot eq_refl).
      reflexivity.
Qed.

Lemma extraction_directory_witness :
  userLocationOrDefault "/srv/pg" "/anywhere/archive.txz" = "/srv/pg"
  /\ userLocationOrDefault "" (cachePath (inl "/home/user") "linux" "amd64" "12.1.0")
     = "/home/user" ++ "/.embedded-postgres-go/extracted".
Proof.
  destruct (extraction_directory (inl "/home/user") "linux" "amd64" "12.1.0")
    as [Huser Hdefault].
  split.
  - apply Huser. discriminate.
  - apply Hdefault; try reflexivity. repeat split; discriminate.
Defined.

End ExtractFacts.

(** ** Writing the archive *)

Module ArchiveFacts.

Lemma in_bind {E A B} (m : Act E A) (k : A -> Act E B) h e :
  In e (snd (bind m k h)) ->
  In e (snd (m h))
  \/ exists a, fst (m h) = Ok a /\ In e (snd (k a (h ++ snd (m h)))).
Proof.
  rewrite StartFacts.snd_bind. intros H. apply in_app_or in H as [H|H]; [auto|].
  destruct (fst (m h)) as [a|c]; [|destruct H]. right. eauto.
Qed.

Lemma in_defer {E A} (d : Act E unit) (body : Act E A) h e :
  In e (snd (defer d body h)) ->
  In e (snd (body h)) \/ In e (snd (d (h ++ snd (body h)))).
Proof.
  unfold defer. destruct (body h) as [[a|c] es]; cbn [snd].
  - destruct (d (h ++ es)) as [rd es']. cbn [snd]. apply in_app_or.
  - destruct c; try (destruct (d (h ++ es)) as [rd es']; cbn [snd]; apply in_app_or).
    auto.
Qed.

(** [createArchiveFile], call by call. *)
Lemma createArchiveFile_run env archiveLocation archiveBytes h :
  let dir := filepath.Dir archiveLocation in
  let mkdir := EvMkdirAll dir 493 in
  let create := EvCreate archiveLocation in
  let write := EvWriteFile archiveLocation archiveBytes 438 in
  createArchiveFile env archiveLocation archiveBytes h
  = match env_MkdirAll env h dir with
    | Some e => (Ok (Some e), [mkdir])
    | None =>
        match env_Create env (h ++ [mkdir]) archiveLocation with
        | Some e =>
            (Ok (Some e),
             [mkdir; create; EvLog archiveLocation; EvLog (Error ErrInvalid)])
        | None =>
            (Ok (env_WriteFile env (h ++ [mkdir; create]) archiveLocation archiveBytes),
             [mkdir; create; write; EvLog archiveLocation; EvFileClose]
               ++ match env_FileClose env
                          (h ++ [mkdir; create; write; EvLog archiveLocation]) with
                  | Some e => [EvLog (Error e)]
                  | None => []
                  end)
        end
    end.
Proof.
  intros dir mkdir create write. subst mkdir create write.
  unfold createArchiveFile, defer, bind, call, log_Println, emit, ret.
  fold dir. cbv beta.
  destruct (env_MkdirAll env h dir) as [e1|]; [reflexivity|].
  cbv beta.
  destruct (env_Create env (h ++ [EvMkdirAll dir 493]) archiveLocation) as [e2|];
    [reflexivity|].
  cbv beta. rewrite <- !List.app_assoc. cbn [app].
  destruct (env_WriteFile env _ archiveLocation archiveBytes) as [e3|];
    destruct (env_FileClose env _) as [e4|]; reflexivity.
Qed.

(** X3. [createArchiveFile] never panics; it returns nil exactly when
    MkdirAll, Create and WriteFile all succeed (an error of Close is only
    logged); the calls that change the file system are, in this order,
    MkdirAll of the parent directory with mode 0755, Create of the file and
    WriteFile of the given bytes with mode 0666, each made only when the one
    before succeeded. *)
Theorem createArchiveFile_outcome env archiveLocation archiveBytes h :
  let dir := filepath.Dir archiveLocation in
  let out := createArchiveFile env archiveLocation archiveBytes h in
  let made := env_MkdirAll env h dir in
  let created := env_Create env (h ++ [EvMkdirAll dir 493]) archiveLocation in
  let written :=
    env_WriteFile env (h ++ [EvMkdirAll dir 493; EvCreate archiveLocation])
                  archiveLocation archiveBytes in
  (exists r, fst out = Ok r)
  /\ (fst out = Ok None <-> made = None /\ created = None /\ written = None)
  /\ List.filter is_write (snd out)
     = match made, created with
       | Some _, _ => [EvMkdirAll dir 493]
       | None, Some _ => [EvMkdirAll dir 493; EvCreate archiveLocation]
       | None, None => [EvMkdirAll dir 493; EvCreate archiveLocation;
                        EvWriteFile archiveLocation archiveBytes 438]
       end.
Proof.
  intros dir out made created written. subst out made created written.
  rewrite createArchiveFile_run. cbv zeta. fold dir.
  destruct (env_MkdirAll env h dir) as [e1|].
  { cbn. split; [eauto|]. split; [|reflexivity].
    split; [discriminate|]. intros (H & _). discriminate H. }
  destruct (env_Create env (h ++ [EvMkdirAll dir 493]) archiveLocation) as [e2|].
  { cbn. split; [eauto|]. split; [|reflexivity].
    split; [discriminate|]. intros (_ & H & _). discriminate H. }
  cbn [fst snd]. split; [eauto|]. split.
  - split; [intros H; injection H as ->; auto|].
    intros (_ & _ & ->). reflexivity.
  - destruct (env_FileClose env _); reflexivity.
Qed.

(** Every file-system change of [createArchiveFile] concerns [p] or its
    parent directory. *)
Lemma createArchiveFile_writes env p data h e :
  In e (snd (createArchiveFile env p data h)) -> is_write e = true ->
  archive_write p e.
Proof.
  rewrite createArchiveFile_run. cbv zeta. unfold archive_write.
  destruct (env_MkdirAll _ _ _); [|destruct (env_Create _ _ _)]; cbn [snd].
  - intros [<-|[]] _. auto.
  - intros [<-|[<-|[<-|[<-|[]]]]] Hw; try discriminate Hw; auto.
  - intros Hin Hw. apply in_app_iff in Hin as [Hin|Hin].
    + destruct Hin as [<-|[<-|[<-|[<-|[<-|[]]]]]]; try discriminate Hw; eauto.
    + destruct (env_FileClose _ _); [destruct Hin as [<-|[]]|destruct Hin].
      discriminate Hw.
Qed.

End ArchiveFacts.

(** ** More on the remote fetch strategy *)

Module FetchMoreFacts.

(** X4. When [http.Get] fails and returns no response, the strategy does not
    return the error: the deferred close of line 372 dereferences the nil
    response and the call panics.  Nothing else has been called. *)
Theorem fetch_panics_without_response env os arch version locator h e :
  env_HttpGet env h (downloadUrl os arch version) = (None, Some e) ->
  defaultRemoteFetchStrategy env (ret (os, arch, version)) locator h
  = (Crash NilDeref, [EvHttpGet (downloadUrl os arch version)]).
Proof.
  intros Hget. unfold defaultRemoteFetchStrategy.
  unfold bind at 1. cbn [ret]. rewrite app_nil_r.
  unfold bind at 1. cbn [call]. rewrite Hget.
  reflexivity.
Qed.

Lemma fetch_panics_without_response_witness :
  defaultRemoteFetchStrategy MoreEnvs.offline (ret ("linux", "amd64", "12.1.0"))
    (defaultCacheLocator MoreEnvs.offline (ret ("linux", "amd64", "12.1.0"))) []
  = (Crash NilDeref, [EvHttpGet (downloadUrl "linux" "amd64" "12.1.0")]).
Proof.
  apply (fetch_panics_without_response MoreEnvs.offline "linux" "amd64" "12.1.0"
           _ [] (ErrorString "dial tcp: no route to host")).
  reflexivity.
Defined.

Section Writes.

Context (env : Env) (os arch version : string).

Local Abbreviation locator := (defaultCacheLocator env (ret (os, arch, version))).

(** [e] puts an archive at a path the locator computes. *)
Local Abbreviation to_cache e :=
  (exists h', archive_write (cachePath (env_UserHomeDir env h') os arch version) e).

Lemma locator_events h e : In e (snd (locator h)) -> is_write e = false.
Proof.
  rewrite LocatorFacts.locator_unfold. cbv zeta. cbn [snd].
  intros [<-|[<-|[]]]; reflexivity.
Qed.

Lemma locator_path h p found :
  fst (locator h) = Ok (p, found) ->
  p = cachePath (env_UserHomeDir env h) os arch version.
Proof.
  rewrite LocatorFacts.locator_unfold. cbv zeta. cbn [fst].
  destruct (env_Stat _ _ _) as [i|err]; [|destruct (os_IsExist err)];
    intros H; congruence.
Qed.

Lemma fetchEntries_writes entries h e :
  In e (snd (fetchEntries env locator entries h)) -> is_write e = true ->
  to_cache e.
Proof.
  revert h. induction entries as [|entry rest IH]; intros h Hin Hw.
  - cbn in Hin. destruct Hin as [<-|[]]. discriminate Hw.
  - cbn [fetchEntries] in Hin.
    apply ArchiveFacts.in_bind in Hin as [Hin|(_ & _ & Hin)].
    { cbn in Hin. destruct Hin as [<-|[]]. discriminate Hw. }
    destruct (ze_open entry) as [err|].
    { destruct (errors_Is_EOF err); destruct Hin. }
    destruct (negb _); [exact (IH _ Hin Hw)|].
    apply ArchiveFacts.in_bind in Hin as [Hin|(_ & _ & Hin)].
    { cbn in Hin. destruct Hin as [<-|[]]. discriminate Hw. }
    destruct (ze_data entry) as [data|err]; [|destruct Hin].
    apply ArchiveFacts.in_bind in Hin as [Hin|([p found] & Hloc & Hin)].
    { rewrite (locator_events _ _ Hin) in Hw. discriminate Hw. }
    apply ArchiveFacts.in_bind in Hin as [Hin|(r & _ & Hin)].
    + exists (h ++ snd (emit (E:=OsEvent) EvZipRead h)
                ++ snd (emit (E:=OsEvent) EvZipEntryReadAll
                             (h ++ snd (emit (E:=OsEvent) EvZipRead h)))).
      cbn [fst] in Hin.
      rewrite (locator_path _ _ _ Hloc) in Hin.
      rewrite app_assoc.
      exact (ArchiveFacts.createArchiveFile_writes env _ _ _ e Hin Hw).
    + destruct r as [err|]; [destruct Hin|]. exact (IH _ Hin Hw).
Qed.

(** X5. Whatever the download holds and whatever fails, every call of the
    fetch strategy that changes the file system is MkdirAll of the cache
    directory, Create of the archive at the locator's path, or WriteFile to
    that path: it writes nowhere else. *)
Theorem fetch_writes_only_the_archive h e :
  In e (snd (defaultRemoteFetchStrategy env (ret (os, arch, version)) locator h)) ->
  is_write e = true ->
  to_cache e.
Proof.
  intros Hin Hw. unfold defaultRemoteFetchStrategy in Hin.
  apply ArchiveFacts.in_bind in Hin as [[]|([[o a] v] & _ & Hin)].
  apply ArchiveFacts.in_bind in Hin as [Hin|([resp err] & _ & Hin)].
  { cbn in Hin. destruct Hin as [<-|[]]. discriminate Hw. }
  assert (Hclose : forall h0, In e (snd (closeBody resp h0)) -> False).
  { intros h0 H. unfold closeBody in H. destruct resp as [r|]; [|destruct H].
    apply ArchiveFacts.in_bind in H as [H|(_ & _ & H)].
    - cbn in H. destruct H as [<-|[]]. discriminate Hw.
    - destruct (resp_close r); [|destruct H].
      apply ArchiveFacts.in_bind in H as [H|(_ & _ & H)]; [|destruct H].
      cbn in H. destruct H as [<-|[]]. discriminate Hw. }
  apply ArchiveFacts.in_defer in Hin as [Hin|Hin]; [|destruct (Hclose _ Hin)].
  destruct err as [err|]; [destruct Hin|].
  destruct resp as [r|]; [|destruct Hin].
  apply ArchiveFacts.in_bind in Hin as [Hin|(_ & _ & Hin)].
  { cbn in Hin. destruct Hin as [<-|[]]. discriminate Hw. }
  destruct (resp_body r) as [body|err]; [|destruct Hin].
  apply ArchiveFacts.in_bind in Hin as [Hin|(opened & _ & Hin)].
  { cbn in Hin. destruct Hin as [<-|[]]. discriminate Hw. }
  destruct opened as [zipFile|err]; [|destruct Hin].
  apply ArchiveFacts.in_defer in Hin as [Hin|Hin].
  - exact (fetchEntries_writes _ _ e Hin Hw).
  - unfold closeZip in Hin.
    apply ArchiveFacts.in_bind in Hin as [Hin|(_ & _ & Hin)].
    + cbn in Hin. destruct Hin as [<-|[]]. discriminate Hw.
    + destruct (zf_close zipFile); destruct Hin.
Qed.

End Writes.

Lemma fetch_writes_only_the_archive_witness :
  exists h',
    archive_write
      (cachePath (env_UserHomeDir MoreEnvs.with_archive h') "linux" "amd64" "12.1.0")
      (EvWriteFile
         "/home/user/.embedded-postgres-go/embedded-postgres-binaries-linux-amd64-12.1.0.txz"
         [Byte.xfd; Byte.x37] 438).
Proof.
  apply (fetch_writes_only_the_archive MoreEnvs.with_archive
           "linux" "amd64" "12.1.0" []).
  - vm_compute. tauto.
  - reflexivity.
Defined.

End FetchMoreFacts.

(** ** The readiness poller *)

Module PollerFacts.

Lemma poller_default_step env cfg n h :
  Cfg.database cfg = "postgres" ->
  let dsn := connString (Cfg.port cfg) (Cfg.username cfg) (Cfg.password cfg)
                        "postgres" in
  poller env cfg (S n) h
  = match env_HealthCheck env h dsn with
    | Some _ =>
        (fst (poller env cfg n (h ++ [EvHealthCheck dsn])),
         EvHealthCheck dsn :: snd (poller env cfg n (h ++ [EvHealthCheck dsn])))
    | None => (Ok true, [EvHealthCheck dsn])
    end.
Proof.
  intros Hdb dsn. cbn [poller].
  unfold bind at 1, healthCheckDatabase, call. fold dsn.
  destruct (env_HealthCheck env h dsn) as [err|].
  - destruct (poller env cfg n (h ++ [EvHealthCheck dsn])) as [r es].
    reflexivity.
  - unfold createDatabase. rewrite Hdb. reflexivity.
Qed.

Lemma poller_default_database env cfg n h :
  Cfg.database cfg = "postgres" ->
  let dsn := connString (Cfg.port cfg) (Cfg.username cfg) (Cfg.password cfg)
                        "postgres" in
  let out := poller env cfg n h in
  (exists ready, fst out = Ok ready)
  /\ (length (snd out) <= n)%nat
  /\ Forall (fun e => e = EvHealthCheck dsn) (snd out).
Proof.
  intros Hdb dsn. revert h. induction n as [|n IH]; intros h out; subst out.
  - cbn. split; [eauto|]. split; [lia|constructor].
  - rewrite (poller_default_step env cfg n h Hdb). fold dsn.
    destruct (env_HealthCheck env h dsn) as [err|].
    + destruct (IH (h ++ [EvHealthCheck dsn])) as (Hr & Hlen & Hall).
      cbn [fst snd]. split; [exact Hr|]. split; [simpl; lia|].
      constructor; [reflexivity|exact Hall].
    + cbn. split; [eauto|]. split; [lia|]. repeat constructor.
Qed.

(** X6. With the default database name [postgres] the readiness race never
    issues CREATE DATABASE: it makes at most one health check per attempt,
    each with the configured port, user and password, and never panics. *)
Theorem default_database_is_never_created env cfg h :
  Cfg.database cfg = "postgres" ->
  let out := readinessRace env cfg h in
  (exists ready, fst out = Ok ready)
  /\ (length (snd out) <= env_attempts env h)%nat
  /\ Forall (fun e => e = EvHealthCheck
                            (connString (Cfg.port cfg) (Cfg.username cfg)
                                        (Cfg.password cfg) "postgres"))
            (snd out).
Proof.
  intros Hdb. unfold readinessRace.
  exact (poller_default_database env cfg (env_attempts env h) h Hdb).
Qed.

Lemma default_database_is_never_created_witness :
  let out := readinessRace Envs.never_ready Cfg.DefaultConfig [] in
  (exists ready, fst out = Ok ready)
  /\ (length (snd out) <= 3)%nat
  /\ Forall (fun e => e = EvHealthCheck
                            "host=localhost port=5432 user=postgres password=postgres dbname=postgres sslmode=disable")
            (snd out).
Proof.
  apply (default_database_is_never_created Envs.never_ready Cfg.DefaultConfig []).
  reflexivity.
Defined.

Lemma poller_create_refused env cfg n h :
  Cfg.database cfg <> "postgres" ->
  (forall h' dsn stmt, env_CreateDatabase env h' dsn stmt <> None) ->
  fst (poller env cfg n h) = Ok false.
Proof.
  intros Hdb Hrefused. revert h. induction n as [|n IH]; intros h.
  - reflexivity.
  - cbn [poller]. unfold bind at 1, healthCheckDatabase, call.
    destruct (env_HealthCheck env h _) as [err|].
    + specialize (IH (h ++ [EvHealthCheck
                              (connString (Cfg.port cfg) (Cfg.username cfg)
                                          (Cfg.password cfg) "postgres")])).
      destruct (poller env cfg n _) as [r es]. exact IH.
    + unfold createDatabase.
      destruct (String.eqb_spec (Cfg.database cfg) "postgres") as [E|_];
        [contradiction|].
      unfold bind at 1, call.
      match goal with
      | |- context [env_CreateDatabase env ?a ?b ?c] =>
          pose proof (Hrefused a b c) as Hc;
          destruct (env_CreateDatabase env a b c) as [err|]; [|congruence]
      end.
      match goal with
      | |- context [poller env cfg n ?a] =>
          specialize (IH a); destruct (poller env cfg n a) as [r es]
      end.
      exact IH.
Qed.

(** X7. When the configured database is not [postgres] and every CREATE
    DATABASE fails (the database exists already, say), the readiness race
    is lost however healthy the server is: each failed creation makes the
    poller start over with a new health check until the deadline. *)
Theorem refused_creation_loses_the_race env cfg h :
  Cfg.database cfg <> "postgres" ->
  (forall h' dsn stmt, env_CreateDatabase env h' dsn stmt <> None) ->
  fst (readinessRace env cfg h) = Ok false.
Proof.
  intros Hdb Hrefused. unfold readinessRace.
  exact (poller_create_refused env cfg (env_attempts env h) h Hdb Hrefused).
Qed.

Lemma refused_creation_loses_the_race_witness :
  fst (readinessRace MoreEnvs.create_refused
         (Cfg.Database Cfg.DefaultConfig "testdb") []) = Ok false.
Proof.
  apply (refused_creation_loses_the_race MoreEnvs.create_refused
           (Cfg.Database Cfg.DefaultConfig "testdb") []).
  - discriminate.
  - intros h' dsn stmt. discriminate.
Defined.

Lemma poller_unanswered env cfg n h :
  (forall h' dsn, env_HealthCheck env h' dsn <> None) ->
  poller env cfg n h
  = (Ok false,
     repeat (EvHealthCheck (connString (Cfg.port cfg) (Cfg.username cfg)
                                       (Cfg.password cfg) "postgres")) n).
Proof.
  intros Hdown. revert h. induction n as [|n IH]; intros h.
  - reflexivity.
  - cbn [poller]. unfold bind at 1, healthCheckDatabase, call.
    match goal with
    | |- context [env_HealthCheck env ?a ?b] =>
        pose proof (Hdown a b) as Hc;
        destruct (env_HealthCheck env a b) as [err|]; [|congruence]
    end.
    rewrite IH. reflexivity.
Qed.

(** X8. When no health check ever succeeds, the readiness race is lost
    after exactly one health check per attempt; CREATE DATABASE is never
    issued, whatever the configured database. *)
Theorem unanswered_probes_lose_the_race env cfg h :
  (forall h' dsn, env_HealthCheck env h' dsn <> None) ->
  readinessRace env cfg h
  = (Ok false,
     repeat (EvHealthCheck (connString (Cfg.port cfg) (Cfg.username cfg)
                                       (Cfg.password cfg) "postgres"))
            (env_attempts env h)).
Proof.
  intros Hdown. unfold readinessRace. apply poller_unanswered. exact Hdown.
Qed.

Lemma unanswered_probes_lose_the_race_witness :
  readinessRace Envs.never_ready (Cfg.Database Cfg.DefaultConfig "testdb") []
  = (Ok false,
     repeat (EvHealthCheck
               "host=localhost port=5432 user=postgres password=postgres dbname=postgres sslmode=disable")
            3).
Proof.
  apply (unanswered_probes_lose_the_race Envs.never_ready
           (Cfg.Database Cfg.DefaultConfig "testdb") []).
  intros h' dsn. discriminate.
Defined.

End PollerFacts.

(** ** The synchronous part of Start *)

Module StartSyncFacts.

Lemma own_app a b : own (a ++ b) = own a ++ own b.
Proof. unfold own. apply omap_app. Qed.

Lemma own_inner es : own (map Inner es) = [].
Proof. induction es; [reflexivity|exact IHes]. Qed.

Local Ltac open_sync H :=
  unfold Start_sync, bind, lift, call, emit, ret in H;
  repeat case_match; simplify_eq.

Local Ltac tidy_own :=
  rewrite ?own_app, ?own_inner; cbn [own omap list_omap app].

(** X9. When the synchronous part of [Start] succeeds with extraction
    directory [location], the cache locator has answered some [(p, found)],
    [location] is the user's runtime path or else [extracted] beside [p],
    and the coordinator's own external calls were exactly, in this order:
    listen on [localhost:port], close the listener, remove [location],
    unarchive [p] into [location], write the password to [location/pwfile]
    with mode 0600, and run [location/bin/initdb -A password -U user
    -D location/data --pwfile=location/pwfile]. *)
Theorem Start_sync_success env ep t location evs :
  Start_sync env ep t = (Ok (inr location), evs) ->
  let cfg := config ep in
  let pwfile := filepath.Join location "pwfile" in
  exists p found,
    In (LocatorReturned p found) evs
    /\ location = userLocationOrDefault (Cfg.runtimePath cfg) p
    /\ own evs
       = [EvListen ("localhost:" ++ pretty (Cfg.port cfg))%string;
          EvListenClose;
          EvRemoveAll location;
          EvUnarchive p location;
          EvWriteFile pwfile (bytes_of_string (Cfg.password cfg)) 384;
          EvRun (filepath.Join location "bin/initdb")
                ["-A"; "password"; "-U"; Cfg.username cfg;
                 "-D"; filepath.Join location "data";
                 ("--pwfile=" ++ pwfile)%string]].
Proof.
  intros H cfg pwfile. subst cfg pwfile.
  open_sync H.
  all: eexists _, _; split;
    [rewrite ?in_app_iff; simpl; rewrite ?in_app_iff; simpl; eauto 12|].
  all: split; [reflexivity|]; tidy_own; reflexivity.
Qed.

Lemma Start_sync_success_witness :
  let ep := fst (NewDatabase MoreEnvs.with_archive []) in
  let evs := snd (Start_sync MoreEnvs.with_archive ep []) in
  let location := "/home/user/.embedded-postgres-go/extracted" in
  exists p found,
    In (LocatorReturned p found) evs
    /\ location = userLocationOrDefault "" p
    /\ own evs
       = [EvListen "localhost:5432";
          EvListenClose;
          EvRemoveAll location;
          EvUnarchive p location;
          EvWriteFile "/home/user/.embedded-postgres-go/extracted/pwfile"
                      (bytes_of_string "postgres") 384;
          EvRun "/home/user/.embedded-postgres-go/extracted/bin/initdb"
                ["-A"; "password"; "-U"; "postgres";
                 "-D"; "/home/user/.embedded-postgres-go/extracted/data";
                 "--pwfile=/home/user/.embedded-postgres-go/extracted/pwfile"]].
Proof.
  apply (Start_sync_success MoreEnvs.with_archive
           (fst (NewDatabase MoreEnvs.with_archive [])) []
           "/home/user/.embedded-postgres-go/extracted").
  vm_compute. reflexivity.
Defined.

Local Ltac stop_at k :=
  exists k; split; [lia|]; split;
  [tidy_own; reflexivity|intros location0 Hl; discriminate Hl].

(** X10. Whatever fails, the coordinator's own external calls in the
    synchronous part of [Start] are an initial segment of: listen, close
    the listener, remove the extraction directory, unarchive, write the
    password file, run initdb.  No step is made unless all steps before it
    were made, and the part succeeds only after all six. *)
Theorem Start_sync_stages env ep t :
  let out := Start_sync env ep t in
  exists k, (k <= 6)%nat
    /\ map kind_of (own (snd out)) = firstn k startStages
    /\ (forall location, fst out = Ok (inr location) -> k = 6%nat).
Proof.
  intros out. subst out.
  destruct (Start_sync env ep t) as [r evs] eqn:H.
  cbn [fst snd].
  unfold Start_sync, bind, lift, call, emit, ret in H.
  repeat case_match; simplify_eq;
    first [ stop_at 1%nat | stop_at 2%nat | stop_at 3%nat | stop_at 4%nat
          | stop_at 5%nat | stop_at 6%nat
          | exists 6%nat; split; [lia|]; split; [tidy_own; reflexivity|reflexivity] ].
Qed.

End StartSyncFacts.

(** ** Supervisors and their children *)

Module SupervisionFacts.

Local Ltac step_inv H :=
  unfold step, step_main, Start, Stop, startPostgres in H;
  repeat case_match; simplify_eq.

Lemma send_length hp r v hp' : chan_send hp r v = Done hp' -> length hp' = length hp.
Proof.
  unfold chan_send. intros H. repeat case_match; simplify_eq.
  apply length_insert.
Qed.

Lemma recv_length hp r v hp' : chan_recv hp r = Done (v, hp') -> length hp' = length hp.
Proof.
  unfold chan_recv. intros H. repeat case_match; simplify_eq; [reflexivity|].
  apply length_insert.
Qed.

Lemma close_length hp r hp' : chan_close hp r = Done hp' -> length hp' = length hp.
Proof.
  unfold chan_close. intros H. repeat case_match; simplify_eq.
  apply length_insert.
Qed.

(** How one step changes the process table. *)
Lemma step_procs env t s s' :
  step env t s = Some s' ->
  procs s' = procs s
  \/ (procs s' = procs s ++ [Running] /\ spawn_tried s')
  \/ (exists c, procs s !! c = Some Running /\ procs s' = <[c := Quitting]> (procs s)
                /\ In (Os (EvSignalQuit c)) (trace s'))
  \/ (exists c, procs s !! c = Some Quitting /\ procs s' = <[c := Reaped]> (procs s)
                /\ In (Os (EvWait c)) (trace s')).
Proof.
  intros H. step_inv H; simpl; eauto 8; right.
  - left. split; [reflexivity|]. eexists _, _. apply in_app_iff. right. left. reflexivity.
  - right. left. eexists. split; [eassumption|]. split; [reflexivity|].
    apply in_app_iff. right. left. reflexivity.
  - right. right. eexists. split; [eassumption|]. split; [reflexivity|].
    apply in_app_iff. right. left. reflexivity.
  - right. right. eexists. split; [eassumption|]. split; [reflexivity|].
    apply in_app_iff. right. left. reflexivity.
Qed.

(** The trace only grows. *)
Lemma step_trace env t s s' :
  step env t s = Some s' -> exists es, trace s' = trace s ++ es.
Proof.
  intros H. step_inv H; simpl; eauto; exists []; symmetry; apply app_nil_r.
Qed.

Lemma step_in_trace env t s s' e :
  step env t s = Some s' -> In e (trace s) -> In e (trace s').
Proof.
  intros H Hin. destruct (step_trace env t s s' H) as [es ->].
  apply in_app_iff. left. exact Hin.
Qed.

Lemma step_spawn_tried env t s s' :
  step env t s = Some s' -> spawn_tried s -> spawn_tried s'.
Proof.
  intros H (bin & args & Hin). exists bin, args.
  exact (step_in_trace env t s s' _ H Hin).
Qed.

Lemma step_procs_length env t s s' :
  step env t s = Some s' -> (length (procs s) <= length (procs s'))%nat.
Proof.
  intros H.
  destruct (step_procs env t s s' H) as [E|[[E _]|[(c & _ & E & _)|(c & _ & E & _)]]];
    rewrite E, ?length_app, ?length_insert; simpl; lia.
Qed.

Lemma step_reaped env t s s' q :
  step env t s = Some s' -> procs s !! q = Some Reaped -> procs s' !! q = Some Reaped.
Proof.
  intros H Hq.
  destruct (step_procs env t s s' H) as [E|[[E _]|[(c & Hc & E & _)|(c & Hc & E & _)]]];
    rewrite E.
  - exact Hq.
  - apply lookup_app_l_Some. exact Hq.
  - rewrite list_lookup_insert_ne; [exact Hq|]. unfold pid in *. intros ->. congruence.
  - unfold pid in *. destruct (decide (c = q)) as [->|Hne]; [congruence|].
    rewrite list_lookup_insert_ne; [exact Hq|exact Hne].
Qed.

(** How one step changes the heap and the startup channel variable. *)
Lemma step_heap env t s s' :
  step env t s = Some s' ->
  (length (heap s') = length (heap s) /\ startupHook (ep s') = startupHook (ep s))
  \/ (heap s' = heap s ++ [make_chan]
      /\ startupHook (ep s') = Some (length (heap s))).
Proof.
  intros H. step_inv H; simpl; eauto;
    left; split; try reflexivity;
    first [ eapply send_length; eassumption
          | eapply recv_length; eassumption
          | eapply close_length; eassumption ].
Qed.

(** How one step changes the supervisors. *)
Lemma step_sups env t s s' :
  step env t s = Some s' ->
  sups s' = sups s
  \/ (exists location, sups s' = sups s ++ [SSpawn location])
  \/ (exists i old new,
        sups s !! i = Some old /\ sups s' = <[i := new]> (sups s)
        /\ (pid_of new = None \/ pid_of new = pid_of old
            \/ (pid_of new = Some (length (procs s))
                /\ procs s' = procs s ++ [Running]))
        /\ (forall q, new = SClose q ->
                      pid_of old = Some q
                      /\ (procs s' !! q = Some Reaped \/ procs s !! q = None))).
Proof.
  intros H. step_inv H; simpl; eauto;
    right; right; eexists _, _, _; (split; [eassumption|]);
    (split; [reflexivity|]); simpl;
    (split; [eauto|]); intros q Hq; simplify_eq; simpl; split; eauto.
  all: left; apply list_lookup_insert_eq; eapply lookup_lt_Some; eassumption.
Qed.

Lemma well_formed_step env t s s' :
  well_formed s -> step env t s = Some s' -> well_formed s'.
Proof.
  intros (Hsh & Hlen & Hst & Hpid & Hreap) H.
  pose proof (step_procs_length env t s s' H) as Hpl.
  split; [rewrite (MachineFacts.step_shutdownHook env t s s' H); exact Hsh|].
  split; [|split; [|split]].
  - destruct (step_heap env t s s' H) as [[E _]|[E _]];
      rewrite E, ?length_app; simpl; lia.
  - intros j Hj.
    destruct (step_heap env t s s' H) as [[E1 E2]|[E1 E2]].
    + rewrite E1. apply Hst. congruence.
    + rewrite E1, length_app. simpl. rewrite E2 in Hj. simplify_eq. lia.
  - intros i p q Hi Hp.
    destruct (step_sups env t s s' H)
      as [E|[(loc & E)|(i0 & old & new & Hold & E & Hnew & _)]];
      rewrite E in Hi.
    + specialize (Hpid i p q Hi Hp). lia.
    + apply lookup_app_Some in Hi as [Hi|[_ Hi]].
      * specialize (Hpid i p q Hi Hp). lia.
      * destruct (i - length (sups s))%nat as [|[|n]]; simpl in *; simplify_eq.
    + apply list_lookup_insert_Some in Hi as [(-> & -> & _)|(_ & Hi)].
      * destruct Hnew as [Hn|[Hn|[Hn Hp']]].
        -- congruence.
        -- rewrite Hn in Hp. specialize (Hpid i old q Hold Hp). lia.
        -- rewrite Hp', length_app. simpl. rewrite Hn in Hp. simplify_eq. lia.
      * specialize (Hpid i p q Hi Hp). lia.
  - intros i q Hi.
    destruct (step_sups env t s s' H)
      as [E|[(loc & E)|(i0 & old & new & Hold & E & _ & Hclose)]];
      rewrite E in Hi.
    + exact (step_reaped env t s s' q H (Hreap i q Hi)).
    + apply lookup_app_Some in Hi as [Hi|[_ Hi]].
      * exact (step_reaped env t s s' q H (Hreap i q Hi)).
      * destruct (i - length (sups s))%nat as [|[|n]]; simpl in *; simplify_eq.
    + apply list_lookup_insert_Some in Hi as [(-> & -> & _)|(_ & Hi)].
      * destruct (Hclose q eq_refl) as [Hq [Hr|Hnone]]; [exact Hr|].
        specialize (Hpid i old q Hold Hq).
        apply lookup_ge_None in Hnone. lia.
      * exact (step_reaped env t s s' q H (Hreap i q Hi)).
Qed.

Lemma well_formed_boot env cfg calls : well_formed (boot env cfg calls).
Proof.
  unfold well_formed, boot. simpl. split; [reflexivity|]. split; [lia|].
  split; [discriminate|]. split; intros; discriminate.
Qed.

(** A channel found closed was closed before or is the one just closed. *)
Lemma insert_closed_inv (hp : list chan) i c k d :
  <[i := c]> hp !! k = Some d -> c_closed d = true ->
  (exists d0, hp !! k = Some d0 /\ c_closed d0 = true)
  \/ (i = k /\ c_closed c = true).
Proof.
  intros Hd Hc. apply list_lookup_insert_Some in Hd as [(-> & -> & _)|(_ & Hd)]; eauto.
Qed.

Lemma send_closed_inv hp r v hp' k d :
  chan_send hp r v = Done hp' -> hp' !! k = Some d -> c_closed d = true ->
  exists d0, hp !! k = Some d0 /\ c_closed d0 = true.
Proof.
  unfold chan_send, Heap, chan_id in *. intros H Hd Hc.
  repeat case_match; simplify_eq.
  destruct (insert_closed_inv _ _ _ _ _ Hd Hc) as [?|[_ ?]]; [assumption|discriminate].
Qed.

Lemma recv_closed_inv hp r v hp' k d :
  chan_recv hp r = Done (v, hp') -> hp' !! k = Some d -> c_closed d = true ->
  exists d0, hp !! k = Some d0 /\ c_closed d0 = true.
Proof.
  unfold chan_recv, Heap, chan_id in *. intros H Hd Hc.
  repeat case_match; simplify_eq; eauto.
  destruct (insert_closed_inv _ _ _ _ _ Hd Hc) as [?|[-> ?]]; [assumption|].
  simpl in *. eauto.
Qed.

Lemma close_closed_inv hp r hp' k d :
  chan_close hp r = Done hp' -> hp' !! k = Some d -> c_closed d = true ->
  (exists d0, hp !! k = Some d0 /\ c_closed d0 = true) \/ r = Some k.
Proof.
  unfold chan_close, Heap, chan_id in *. intros H Hd Hc.
  repeat case_match; simplify_eq.
  destruct (insert_closed_inv _ _ _ _ _ Hd Hc) as [?|[-> ?]]; eauto.
Qed.

(** Who closes a channel: a supervisor at line 287 the shutdown channel; a
    supervisor at line 273 or 276, or one that panics at line 250, the
    startup channel. *)
Lemma step_closed_inv env t s s' k d :
  step env t s = Some s' -> heap s' !! k = Some d -> c_closed d = true ->
  (exists d0, heap s !! k = Some d0 /\ c_closed d0 = true)
  \/ (exists i q, sups s !! i = Some (SClose q) /\ shutdownHook (ep s) = Some k)
  \/ (exists i p, sups s !! i = Some p /\ startupHook (ep s) = Some k
                  /\ (pid_of p <> None \/ (crashed s' <> None /\ spawn_tried s'))).
Proof.
  intros H Hd Hc. step_inv H; simpl in *; eauto;
    try (left; first [ eapply send_closed_inv; eassumption
                     | eapply recv_closed_inv; eassumption ]);
    try match goal with
        | Hcl : chan_close _ _ = Done _ |- _ =>
            destruct (close_closed_inv _ _ _ _ _ Hcl Hd Hc) as [?|Hr]; [eauto|];
            right; first [ left; eexists _, _; split; [eassumption|exact Hr]
                         | right; eexists _, _; split; [eassumption|];
                           split; [exact Hr|]; simpl;
                           first [ left; discriminate
                                 | right; split; [discriminate|];
                                   eexists _, _; apply in_app_iff; right; left;
                                   reflexivity ] ]
        end.
  left. apply lookup_app_Some in Hd as [Hd|[_ Hd]]; [eauto|].
  destruct (k - length (heap s))%nat as [|n]; simpl in Hd; simplify_eq.
Qed.

Lemma step_started_inv env t s s' :
  step env t s = Some s' -> In (CallStart, None) (results s') ->
  In (CallStart, None) (results s) \/ closed_at (heap s) (startupHook (ep s)).
Proof.
  intros H Hin. step_inv H; simpl in *; rewrite ?in_app_iff in *; simpl in *;
    intuition (try congruence; try discriminate);
    right; eapply MachineFacts.recv_none_closed; eassumption.
Qed.

Lemma step_crashed env t s s' : step env t s = Some s' -> crashed s = None.
Proof. unfold step. destruct (crashed s); [discriminate|reflexivity]. Qed.

Lemma reaped_before_stopped_step env t s s' :
  well_formed s -> reaped_before_stopped s -> step env t s = Some s' ->
  reaped_before_stopped s'.
Proof.
  intros (Hsh & Hlen & Hst & Hpid & Hreap) Hs H (d & Hd & Hcl).
  rewrite (MachineFacts.step_shutdownHook env t s s' H), Hsh in Hd. simpl in Hd.
  destruct (step_closed_inv env t s s' 0%nat d H Hd Hcl)
    as [(d0 & Hd0 & Hcl0)|[(i & q & Hi & _)|(i & p & _ & Hk & _)]].
  - destruct Hs as (q & Hq); [exists d0; rewrite Hsh; auto|].
    exists q. exact (step_reaped env t s s' q H Hq).
  - exists q. exact (step_reaped env t s s' q H (Hreap i q Hi)).
  - specialize (Hst 0%nat Hk). lia.
Qed.

Lemma tried_before_started_step env t s s' :
  well_formed s -> tried_before_started s -> step env t s = Some s' ->
  tried_before_started s'.
Proof.
  intros (Hsh & Hlen & Hst & Hpid & _) [Hp Hs] H.
  pose proof (step_spawn_tried env t s s' H) as Hmono.
  assert (Hp' : procs s' <> [] -> spawn_tried s').
  { intros Hne.
    destruct (step_procs env t s s' H) as [E|[[E Ht]|[(c & Hc & _)|(c & Hc & _)]]].
    - apply Hmono, Hp. congruence.
    - exact Ht.
    - apply Hmono, Hp. intros E. rewrite E in Hc. discriminate Hc.
    - apply Hmono, Hp. intros E. rewrite E in Hc. discriminate Hc. }
  split; [exact Hp'|].
  intros [Hin|(d & Hd & Hcl)].
  - apply Hmono, Hs. destruct (step_started_inv env t s s' H Hin); auto.
  - destruct (step_heap env t s s' H) as [[_ E]|[E1 E2]].
    + rewrite E in Hd. destruct (startupHook (ep s)) as [j|] eqn:Ej; [|discriminate].
      simpl in Hd.
      destruct (step_closed_inv env t s s' j d H Hd Hcl)
        as [(d0 & Hd0 & Hcl0)|[(i & q & _ & Hk)|(i & p & Hi & _ & [Hq|[_ Ht]])]].
      * apply Hmono, Hs. right. exists d0. auto.
      * specialize (Hst j eq_refl). rewrite Hsh in Hk. simplify_eq. lia.
      * apply Hp'. pose proof (step_procs_length env t s s' H) as Hpl.
        destruct (pid_of p) as [q|] eqn:Eq; [|congruence].
        specialize (Hpid i p q Hi Eq).
        destruct (procs s'); [simpl in Hpl; lia|discriminate].
      * exact Ht.
    + rewrite E2, E1 in Hd. simpl in Hd. unfold Heap, chan_id in *.
      rewrite lookup_app_r in Hd by lia. rewrite Nat.sub_diag in Hd.
      simpl in Hd. injection Hd as <-. discriminate Hcl.
Qed.

Lemma signalled_before_reaped_step env t s s' :
  signalled_before_reaped s -> step env t s = Some s' ->
  signalled_before_reaped s'.
Proof.
  intros Hs H q.
  pose proof (fun e => step_in_trace env t s s' e H) as Hmono.
  destruct (Hs q) as [Hq Hr].
  destruct (step_procs env t s s' H)
    as [E|[[E _]|[(c & Hc & E & Ht)|(c & Hc & E & Ht)]]]; rewrite E.
  - split; [intros X; apply Hmono, Hq, X|].
    intros X. destruct (Hr X). split; apply Hmono; assumption.
  - assert (Hl : forall st, st <> Running ->
                 (procs s ++ [Running]) !! q = Some st -> procs s !! q = Some st).
    { intros st Hne X. apply lookup_app_Some in X as [X|[_ X]]; [exact X|].
      destruct (q - length (procs s))%nat as [|n]; simpl in X; simplify_eq. }
    split; [intros X; apply Hmono, Hq, (Hl Quitting); [discriminate|exact X]|].
    intros X. destruct (Hr (Hl Reaped ltac:(discriminate) X)).
    split; apply Hmono; assumption.
  - destruct (decide (c = q)) as [->|Hne].
    + rewrite list_lookup_insert_eq by (eapply lookup_lt_Some; eassumption).
      split; [intros _; exact Ht|discriminate].
    + rewrite list_lookup_insert_ne by exact Hne.
      split; [intros X; apply Hmono, Hq, X|].
      intros X. destruct (Hr X). split; apply Hmono; assumption.
  - destruct (decide (c = q)) as [->|Hne].
    + rewrite list_lookup_insert_eq by (eapply lookup_lt_Some; eassumption).
      split; [discriminate|]. intros _. split; [apply Hmono, Hq, Hc|exact Ht].
    + rewrite list_lookup_insert_ne by exact Hne.
      split; [intros X; apply Hmono, Hq, X|].
      intros X. destruct (Hr X). split; apply Hmono; assumption.
Qed.

(** What holds in every state a new coordinator reaches. *)
Lemma supervision env cfg calls schedule :
  let s := run env schedule (boot env cfg calls) in
  well_formed s /\ reaped_before_stopped s
  /\ tried_before_started s /\ signalled_before_reaped s.
Proof.
  apply (MachineFacts.run_invariant env
           (fun s => well_formed s
                     /\ reaped_before_stopped s
                     /\ tried_before_started s /\ signalled_before_reaped s)).
  - intros t s s' (Hw & Hb & Hc & Hd) H.
    split; [exact (well_formed_step env t s s' Hw H)|].
    split; [exact (reaped_before_stopped_step env t s s' Hw Hb H)|].
    split; [exact (tried_before_started_step env t s s' Hw Hc H)|].
    exact (signalled_before_reaped_step env t s s' Hd H).
  - split; [apply well_formed_boot|]. split; [|split].
    + intros (d & Hd & Hcl). unfold boot in Hd. simpl in Hd.
      injection Hd as <-. discriminate Hcl.
    + split; [intros X; contradiction X; reflexivity|].
      intros [[]|(d & Hd & _)]. discriminate Hd.
    + intros q. split; intros X; discriminate X.
Qed.

(** X11. In every state a new coordinator reaches, whatever the
    environment, the calls and the schedule: if a [Start] has returned nil,
    the start of the server binary (line 248) was attempted before. *)
Theorem start_returns_after_spawn_attempt env cfg calls schedule :
  let s := run env schedule (boot env cfg calls) in
  In (CallStart, None) (results s) ->
  exists bin args, In (Os (EvProcStart bin args)) (trace s).
Proof.
  intros s Hin.
  destruct (supervision env cfg calls schedule) as (_ & _ & [_ Ht] & _).
  apply Ht. left. exact Hin.
Qed.

Lemma start_returns_after_spawn_attempt_witness :
  let s := run Envs.healthy (Schedules.ready_start 0)
               (boot Envs.healthy Cfg.DefaultConfig [CallStart]) in
  exists bin args, In (Os (EvProcStart bin args)) (trace s).
Proof.
  refine (start_returns_after_spawn_attempt Envs.healthy Cfg.DefaultConfig
            [CallStart] (Schedules.ready_start 0) _).
  vm_compute. tauto.
Defined.

(** X12. In every state a new coordinator reaches: if a [Stop] has
    returned nil, some child process was sent SIGQUIT (line 281) and waited
    for (line 284), and is reaped. *)
Theorem stop_returns_after_wait env cfg calls schedule :
  let s := run env schedule (boot env cfg calls) in
  In (CallStop, None) (results s) ->
  exists q, procs s !! q = Some Reaped
            /\ In (Os (EvSignalQuit q)) (trace s)
            /\ In (Os (EvWait q)) (trace s).
Proof.
  intros s Hin.
  assert (Hstop : after_stop s).
  { apply MachineFacts.run_invariant;
      [apply MachineFacts.after_stop_step|apply MachineFacts.after_stop_boot]. }
  destruct Hstop as [_ Hclosed].
  destruct (supervision env cfg calls schedule) as (_ & Hr & _ & Hsig).
  destruct (Hr (Hclosed Hin)) as [q Hq].
  exists q. split; [exact Hq|]. apply (Hsig q). exact Hq.
Qed.

Lemma stop_returns_after_wait_witness :
  let s := run Envs.healthy (Schedules.ready_start 0 ++ Schedules.stop 0)
               (boot Envs.healthy Cfg.DefaultConfig [CallStart; CallStop]) in
  exists q, procs s !! q = Some Reaped
            /\ In (Os (EvSignalQuit q)) (trace s)
            /\ In (Os (EvWait q)) (trace s).
Proof.
  refine (stop_returns_after_wait Envs.healthy Cfg.DefaultConfig
            [CallStart; CallStop]
            (Schedules.ready_start 0 ++ Schedules.stop 0) _).
  vm_compute. tauto.
Defined.

End SupervisionFacts.

(** ** The caller waits for its supervisor *)

Module WaitFacts.

Local Ltac step_inv H :=
  unfold step, step_main, Start, Stop, startPostgres in H;
  repeat case_match; simplify_eq.

Lemma insert_keeps_open (hp : list chan) i c j :
  (forall old, hp !! i = Some old -> i = j -> c_closed old = false -> c_closed c = false) ->
  (exists d, hp !! j = Some d /\ c_closed d = false) ->
  exists d, <[i := c]> hp !! j = Some d /\ c_closed d = false.
Proof.
  intros Hc (d & Hd & Hcl).
  destruct (decide (i = j)) as [->|Hne].
  - exists c. split; [|exact (Hc d Hd eq_refl Hcl)].
    apply list_lookup_insert_eq. eapply lookup_lt_Some. exact Hd.
  - exists d. split; [|exact Hcl]. rewrite list_lookup_insert_ne; assumption.
Qed.

Lemma send_keeps_open hp r0 v hp' r :
  chan_send hp r0 v = Done hp' -> open_at hp r -> open_at hp' r.
Proof.
  unfold chan_send, open_at, deref, Heap, chan_id in *. intros H Hj.
  destruct r as [j|]; [|exact Hj].
  repeat case_match; simplify_eq.
  apply insert_keeps_open; [|exact Hj]. reflexivity.
Qed.

Lemma recv_keeps_open hp r0 v hp' r :
  chan_recv hp r0 = Done (v, hp') -> open_at hp r -> open_at hp' r.
Proof.
  unfold chan_recv, open_at, deref, Heap, chan_id in *. intros H Hj.
  destruct r as [j|]; [|exact Hj].
  repeat case_match; simplify_eq; try exact Hj.
  apply insert_keeps_open; [|exact Hj]. intros old Ho -> Hc. simpl. congruence.
Qed.

Lemma close_keeps_open hp r0 hp' r :
  chan_close hp r0 = Done hp' -> r0 <> r -> open_at hp r -> open_at hp' r.
Proof.
  unfold chan_close, open_at, deref, Heap, chan_id in *. intros H Hr Hj.
  destruct r as [j|]; [|exact Hj].
  repeat case_match; simplify_eq.
  apply insert_keeps_open; [|exact Hj]. intros old Ho -> Hc. congruence.
Qed.

Lemma open_not_closed hp r : open_at hp r -> closed_at hp r -> False.
Proof. intros (c & Hc & Ho) (d & Hd & Hcl). congruence. Qed.

Lemma close_opened hp r hp' : chan_close hp r = Done hp' -> open_at hp r.
Proof.
  unfold chan_close, open_at, deref. intros H. repeat case_match; simplify_eq.
  eexists. split; [reflexivity|]. assumption.
Qed.

Lemma open_closes hp r : open_at hp r -> exists hp', chan_close hp r = Done hp' /\ closed_at hp' r.
Proof.
  unfold chan_close, open_at, closed_at, deref, Heap, chan_id in *.
  intros (c & Hc & Ho). destruct r as [j|]; [|discriminate].
  rewrite Hc, Ho. eexists. split; [reflexivity|].
  eexists. split; [apply list_lookup_insert_eq; eapply lookup_lt_Some; exact Hc|].
  reflexivity.
Qed.

Section Frame.

Context (pcv : main_pc) (sps : list sup_pc) (hp hp' : Heap) (r : option chan_id).

(** A step of the caller or of a supervisor that leaves the supervisors'
    program points as they are. *)
Lemma keep_same :
  (open_at hp r -> open_at hp' r) ->
  waits_at pcv sps hp r -> waits_at pcv sps hp' r.
Proof.
  intros Ho [Hgo He]. split; [auto|].
  intros k p Hk Hp. destruct (He k p Hk Hp) as (? & ? & ?). auto.
Qed.

(** A step of a supervisor that does not take it past its close. *)
Lemma keep i old new :
  (open_at hp r -> open_at hp' r) ->
  sps !! i = Some old ->
  (early new = true -> early old = true) ->
  waits_at pcv sps hp r -> waits_at pcv (<[i := new]> sps) hp' r.
Proof.
  intros Ho Hi Hnew [Hgo He]. split; [auto|].
  intros k p Hk Hp. rewrite length_insert.
  destruct (decide (i = k)) as [E|Hne].
  - subst k. rewrite list_lookup_insert_eq in Hk by (eapply lookup_lt_Some; exact Hi).
    injection Hk as <-.
    destruct (He i old Hi (Hnew Hp)) as (? & ? & ?). auto.
  - rewrite list_lookup_insert_ne in Hk by exact Hne.
    destruct (He k p Hk Hp) as (? & ? & ?). auto.
Qed.

(** The step of a supervisor past its close. *)
Lemma keep_close i old new :
  sps !! i = Some old -> early old = true -> early new = false ->
  waits_at pcv sps hp r -> waits_at pcv (<[i := new]> sps) hp' r.
Proof.
  intros Hi Hold Hnew [Hgo He].
  destruct (He i old Hi Hold) as (Hpc & _ & Hlast).
  split; [intros [l Hl]; congruence|].
  intros k p Hk Hp.
  destruct (decide (i = k)) as [E|Hne].
  - subst k. rewrite list_lookup_insert_eq in Hk by (eapply lookup_lt_Some; exact Hi).
    congruence.
  - rewrite list_lookup_insert_ne in Hk by exact Hne.
    destruct (He k p Hk Hp) as (_ & _ & Hlast'). lia.
Qed.

End Frame.

Lemma start_waits_step env t s s' :
  well_formed s -> start_waits s -> step env t s = Some s' -> start_waits s'.
Proof.
  intros (Hsh & Hlen & Hst & _) Hs H Hc'.
  assert (Hc : crashed s = None).
  { unfold step in H. destruct (crashed s); [discriminate|reflexivity]. }
  specialize (Hs Hc). pose proof Hs as [Hgo Hearly].
  step_inv H; unfold waits_at; simpl in *; try discriminate Hc';
    try match goal with Hp : pc s = _ |- _ => rewrite ?Hp end.
  all: try (split; [intros [? Hl]; discriminate Hl
                   |intros k p Hk He; destruct (Hearly k p Hk He) as [Hpc _];
                    discriminate Hpc]).
  all: try (eapply keep_close;
            [eassumption|reflexivity|reflexivity|exact Hs]).
  all: try (eapply keep;
            [|eassumption|simpl; first [reflexivity|discriminate|auto]
             |exact Hs];
            first [ exact (fun x => x)
                  | eapply send_keeps_open; eassumption
                  | eapply recv_keeps_open; eassumption ]).
  all: try (eapply keep_same; [|exact Hs];
            first [ eapply send_keeps_open; eassumption
                  | eapply recv_keeps_open; eassumption ]).
  - split; [|intros k p Hk He; destruct (Hearly k p Hk He) as [Hpc _];
             discriminate Hpc].
    intros _. exists make_chan. split; [|reflexivity]. simpl.
    unfold Heap, chan_id in *. rewrite lookup_app_r by lia.
    rewrite Nat.sub_diag. reflexivity.
  - split; [intros [? Hl]; discriminate Hl|].
    intros k p Hk He. rewrite length_app. simpl.
    apply lookup_app_Some in Hk as [Hk|[Hge Hk]].
    + destruct (Hearly k p Hk He) as [Hpc _]. discriminate Hpc.
    + split; [reflexivity|]. split; [eauto|].
      apply lookup_lt_Some in Hk. simpl in Hk. lia.
  - split; [intros [? Hl]; discriminate Hl|].
    intros k p Hk He. destruct (Hearly k p Hk He) as (_ & Ho & _).
    destruct (open_not_closed _ _ Ho).
    eapply MachineFacts.recv_none_closed. eassumption.
  - eapply keep; [|eassumption|discriminate|exact Hs].
    eapply close_keeps_open; [eassumption|].
    rewrite Hsh. intros E. symmetry in E. specialize (Hst 0%nat E). lia.
Qed.

Lemma start_waits_boot env cfg calls : start_waits (boot env cfg calls).
Proof.
  intros _. split; [intros [l Hl]; discriminate Hl|].
  intros i p Hi. discriminate Hi.
Qed.

Lemma start_waits_run env cfg calls schedule :
  start_waits (run env schedule (boot env cfg calls)).
Proof.
  apply (MachineFacts.run_invariant env (fun s => well_formed s /\ start_waits s)).
  - intros t s s' [Hw Hs] H. split.
    + exact (SupervisionFacts.well_formed_step env t s s' Hw H).
    + exact (start_waits_step env t s s' Hw Hs H).
  - split; [apply SupervisionFacts.well_formed_boot|apply start_waits_boot].
Qed.

(** X13. In every state a new coordinator reaches in which nothing has
    panicked: a supervisor that has not yet closed the startup channel
    (it is at one of lines 244-276) is the newest supervisor, the startup
    channel is allocated and open, and the caller is inside [Start] at the
    loop of line 238.  So [Start] does not return before its supervisor
    has decided the readiness race. *)
Theorem start_waits_for_supervisor env cfg calls schedule i p :
  let s := run env schedule (boot env cfg calls) in
  crashed s = None ->
  sups s !! i = Some p -> early p = true ->
  pc s = MStartRange
  /\ open_at (heap s) (startupHook (ep s))
  /\ S i = length (sups s).
Proof.
  intros s Hc Hi He.
  destruct (start_waits_run env cfg calls schedule Hc) as [_ Hearly].
  exact (Hearly i p Hi He).
Qed.

Lemma start_waits_for_supervisor_witness :
  let s := run Envs.healthy [TMain; TMain; TMain; TSup 0; TMain]
               (boot Envs.healthy Cfg.DefaultConfig [CallStart; CallStop]) in
  pc s = MStartRange
  /\ open_at (heap s) (startupHook (ep s))
  /\ 1%nat = length (sups s).
Proof.
  refine (start_waits_for_supervisor Envs.healthy Cfg.DefaultConfig
            [CallStart; CallStop] [TMain; TMain; TMain; TSup 0; TMain]
            0%nat (SRace 0) _ _ _);
    vm_compute; reflexivity.
Defined.

(** X14. In every state a new coordinator reaches in which nothing has
    panicked: when the start of the server binary fails with [e] (line
    248), the supervisor's step closes the startup channel, which is
    allocated and open at that point, and panics with [e] (lines 249-250);
    no child is added to the process table. *)
Theorem spawn_failure_panics env cfg calls schedule i location e :
  let s := run env schedule (boot env cfg calls) in
  let postgresBinary := filepath.Join location "bin/postgres" in
  let args := postgresArgs (config (ep s)) location in
  crashed s = None ->
  sups s !! i = Some (SSpawn location) ->
  env_ProcStart env (os_view (trace s)) postgresBinary args = Some e ->
  exists s',
    step env (TSup i) s = Some s'
    /\ crashed s' = Some (GoPanic e)
    /\ closed_at (heap s') (startupHook (ep s'))
    /\ trace s' = trace s ++ [Os (EvProcStart postgresBinary args)]
    /\ procs s' = procs s.
Proof.
  intros s bin args Hc Hi He.
  destruct (start_waits_run env cfg calls schedule Hc) as [_ Hearly].
  fold s in Hearly.
  destruct (Hearly i _ Hi eq_refl) as (_ & Ho & _).
  destruct (open_closes _ _ Ho) as (hp' & Hcl & Hclosed).
  eexists. split.
  - unfold step. rewrite Hc, Hi. unfold startPostgres.
    fold bin. fold args. rewrite He. cbn [heap log_events ep]. rewrite Hcl. reflexivity.
  - simpl. auto.
Qed.

Lemma spawn_failure_panics_witness :
  let env := MoreEnvs.no_binary in
  let s := run env [TMain; TMain; TMain]
               (boot env Cfg.DefaultConfig [CallStart]) in
  let location := "/home/user/.embedded-postgres-go/extracted"%string in
  let postgresBinary := filepath.Join location "bin/postgres" in
  let args := postgresArgs (config (ep s)) location in
  exists s',
    step env (TSup 0) s = Some s'
    /\ crashed s' = Some (GoPanic (PathError "fork/exec" postgresBinary ENOENT))
    /\ closed_at (heap s') (startupHook (ep s'))
    /\ trace s' = trace s ++ [Os (EvProcStart postgresBinary args)]
    /\ procs s' = procs s.
Proof.
  refine (spawn_failure_panics MoreEnvs.no_binary Cfg.DefaultConfig
            [CallStart] [TMain; TMain; TMain] 0%nat
            "/home/user/.embedded-postgres-go/extracted"
            (PathError "fork/exec"
               "/home/user/.embedded-postgres-go/extracted/bin/postgres" ENOENT)
            _ _ _);
    vm_compute; reflexivity.
Defined.

End WaitFacts.

(** ** The database probes *)

Module SqlFacts.

Import Sql.

Section Probe.

Context (env : SqlEnv) (port : N) (username password : string).
Context (h : list SqlEvent).

Local Abbreviation dsn := (connString port username password "postgres").
Local Abbreviation opened := (h ++ [EvOpen dsn]).
Local Abbreviation queried := (opened ++ [EvQuery "SELECT 1"%string]).

(** [healthCheckDatabase], call by call. *)
Lemma healthCheckDatabase_run :
  healthCheckDatabase env port username password h
  = match sql_Open env h dsn with
    | Some e => (Ok (Some e), [EvOpen dsn])
    | None =>
        match sql_Query env opened "SELECT 1" with
        | Some q =>
            (Ok (match sql_DbClose env queried with
                 | Some e => Some e
                 | None => Some q
                 end),
             [EvOpen dsn; EvQuery "SELECT 1"; EvDbClose])
        | None =>
            (Ok (match sql_DbClose env (queried ++ [EvRowsClose]) with
                 | Some e => Some e
                 | None => sql_RowsClose env queried
                 end),
             [EvOpen dsn; EvQuery "SELECT 1"; EvRowsClose; EvDbClose])
        end
    end.
Proof.
  unfold healthCheckDatabase, defer_close, bind, call, ret. cbv beta.
  destruct (sql_Open env h dsn) as [e0|]; cbv beta iota; [reflexivity|].
  destruct (sql_Query env opened "SELECT 1") as [q|]; cbv beta iota.
  - cbn [app]. rewrite ?app_nil_r.
    destruct (sql_DbClose env queried); reflexivity.
  - rewrite ?app_nil_r. cbn [app].
    rewrite <- !(List.app_assoc opened). cbn [app].
    destruct (sql_RowsClose env queried),
             (sql_DbClose env (opened ++ [EvQuery "SELECT 1"%string; EvRowsClose]));
      reflexivity.
Qed.

(** X15. [healthCheckDatabase] never panics, and it returns nil exactly
    when [sql.Open], the query [SELECT 1], [rows.Close] and [db.Close] all
    succeed. *)
Theorem healthCheckDatabase_result :
  let out := healthCheckDatabase env port username password h in
  (exists r, fst out = Ok r)
  /\ (fst out = Ok None <->
      sql_Open env h dsn = None
      /\ sql_Query env opened "SELECT 1" = None
      /\ sql_RowsClose env queried = None
      /\ sql_DbClose env (queried ++ [EvRowsClose]) = None).
Proof.
  cbv zeta. rewrite healthCheckDatabase_run.
  destruct (sql_Open env h dsn) as [e0|].
  { cbn [fst]. split; [eauto|].
    split; [discriminate|]. intros [X _]. discriminate X. }
  destruct (sql_Query env opened "SELECT 1") as [q|]; cbn [fst].
  - split; [eauto|].
    split; [|intros (_ & X & _); discriminate X].
    destruct (sql_DbClose env queried); discriminate.
  - split; [eauto|].
    destruct (sql_DbClose env (queried ++ [EvRowsClose])) as [e|];
      [split; [discriminate|intros (_ & _ & _ & X); discriminate X]|].
    destruct (sql_RowsClose env queried);
      [split; [discriminate|intros (_ & _ & X & _); discriminate X]|].
    tauto.
Qed.

(** X16. [healthCheckDatabase] closes what it opened and nothing else:
    after a failed [sql.Open] it makes no further call; otherwise its last
    call is [db.Close], and [rows.Close] is called, just before, exactly
    when the query succeeded. *)
Theorem healthCheckDatabase_closes_what_it_opened :
  snd (healthCheckDatabase env port username password h)
  = EvOpen dsn ::
    match sql_Open env h dsn with
    | Some _ => []
    | None =>
        EvQuery "SELECT 1" ::
        match sql_Query env opened "SELECT 1" with
        | Some _ => []
        | None => [EvRowsClose]
        end ++ [EvDbClose]
    end.
Proof.
  rewrite healthCheckDatabase_run.
  destruct (sql_Open env h dsn); [reflexivity|].
  destruct (sql_Query env opened "SELECT 1"); reflexivity.
Qed.

(** X17. When the query fails and the deferred [db.Close] fails too,
    [healthCheckDatabase] returns the error of [db.Close]: the deferred
    function overwrites the named result (lines 334-337), and the error of
    the query is lost. *)
Theorem healthCheckDatabase_close_error_wins q e :
  sql_Open env h dsn = None ->
  sql_Query env opened "SELECT 1" = Some q ->
  sql_DbClose env queried = Some e ->
  healthCheckDatabase env port username password h
  = (Ok (Some e), [EvOpen dsn; EvQuery "SELECT 1"; EvDbClose]).
Proof.
  intros Ho Hq Hc. rewrite healthCheckDatabase_run, Ho, Hq, Hc. reflexivity.
Qed.

End Probe.

Section Create.

Context (env : SqlEnv) (port : N) (username password database : string).
Context (h : list SqlEvent).

Local Abbreviation dsn := (connString port username password "postgres").
Local Abbreviation stmt := ("CREATE DATABASE " ++ database)%string.

(** X18. For a target database other than [postgres]: when [sql.Open]
    fails, [createDatabase] panics with a nil dereference, because the
    deferred [db.Close] of line 301 is registered before the error check of
    line 306 and runs on the nil handle; no statement is executed.
    [healthCheckDatabase], which checks first, returns the error. *)
Theorem createDatabase_panics_when_open_fails e :
  database <> "postgres"%string ->
  sql_Open env h dsn = Some e ->
  createDatabase env port username password database h
  = (Crash NilDeref, [EvOpen dsn])
  /\ healthCheckDatabase env port username password h
     = (Ok (Some e), [EvOpen dsn]).
Proof.
  intros Hdb Ho. split.
  - unfold createDatabase. apply String.eqb_neq in Hdb. rewrite Hdb.
    unfold defer_close, bind, call, ret, panic. cbv beta. rewrite Ho. reflexivity.
  - rewrite healthCheckDatabase_run, Ho. reflexivity.
Qed.

(** X19. For a target database other than [postgres], once [sql.Open]
    has succeeded, [createDatabase] makes three calls in this order: it
    opens the database [postgres] (not the target), executes the one
    statement [CREATE DATABASE] followed by the name as given, and closes
    the handle.  It returns the error of [db.Close], or else the error of
    the statement. *)
Theorem createDatabase_statement :
  database <> "postgres"%string ->
  sql_Open env h dsn = None ->
  let executed := (h ++ [EvOpen dsn; EvExec stmt])%list in
  createDatabase env port username password database h
  = (Ok (match sql_DbClose env executed with
         | Some e => Some e
         | None => sql_Exec env (h ++ [EvOpen dsn]) stmt
         end),
     [EvOpen dsn; EvExec stmt; EvDbClose]).
Proof.
  intros Hdb Ho executed. subst executed.
  unfold createDatabase. apply String.eqb_neq in Hdb. rewrite Hdb.
  unfold defer_close, bind, call, ret, panic. cbv beta. rewrite Ho. cbv beta iota.
  destruct (sql_Exec env (h ++ [EvOpen dsn]) stmt) as [x|]; cbv beta iota;
    rewrite ?app_nil_r; cbn [app]; rewrite <- !List.app_assoc; cbn [app];
    destruct (sql_DbClose env (h ++ [EvOpen dsn; EvExec stmt])); reflexivity.
Qed.

End Create.

Lemma healthCheckDatabase_close_error_wins_witness :
  healthCheckDatabase failing 5432 "postgres" "postgres" []
  = (Ok (Some (ErrorString "sql: database is closed")),
     [EvOpen "host=localhost port=5432 user=postgres password=postgres dbname=postgres sslmode=disable";
      EvQuery "SELECT 1"; EvDbClose]).
Proof.
  refine (healthCheckDatabase_close_error_wins failing 5432 "postgres" "postgres" []
            (SyscallError ECONNREFUSED) (ErrorString "sql: database is closed") _ _ _);
    reflexivity.
Defined.

Lemma createDatabase_panics_when_open_fails_witness :
  createDatabase rejecting 5432 "postgres" "postgres" "orders" []
  = (Crash NilDeref,
     [EvOpen "host=localhost port=5432 user=postgres password=postgres dbname=postgres sslmode=disable"])
  /\ healthCheckDatabase rejecting 5432 "postgres" "postgres" []
     = (Ok (Some (ErrorString "missing = after key in connection info string")),
        [EvOpen "host=localhost port=5432 user=postgres password=postgres dbname=postgres sslmode=disable"]).
Proof.
  refine (createDatabase_panics_when_open_fails rejecting 5432 "postgres" "postgres"
            "orders" [] (ErrorString "missing = after key in connection info string") _ _).
  - discriminate.
  - reflexivity.
Defined.

Lemma createDatabase_statement_witness :
  createDatabase answering 5432 "postgres" "postgres" "orders" []
  = (Ok None,
     [EvOpen "host=localhost port=5432 user=postgres password=postgres dbname=postgres sslmode=disable";
      EvExec "CREATE DATABASE orders"; EvDbClose]).
Proof.
  refine (createDatabase_statement answering 5432 "postgres" "postgres" "orders" [] _ _).
  - discriminate.
  - reflexivity.
Defined.

End SqlFacts.

Module SqlPollerFacts.

Import Sql SqlPoller.

Lemma healthCheck_nil_opened env port username password h :
  fst (healthCheckDatabase env port username password h) = Ok None ->
  sql_Open env h (connString port username password "postgres") = None.
Proof.
  rewrite SqlFacts.healthCheckDatabase_run.
  destruct (sql_Open env h _); [discriminate|reflexivity].
Qed.

Lemma createDatabase_opened env port username password database h :
  sql_Open env h (connString port username password "postgres") = None ->
  exists r, fst (createDatabase env port username password database h) = Ok r.
Proof.
  intros Ho. unfold createDatabase.
  destruct (String.eqb database "postgres"); [eexists; reflexivity|].
  unfold defer_close, bind, call, ret, panic. cbv beta. rewrite Ho. cbv beta iota.
  destruct (sql_Exec env _ _); cbv beta iota;
    destruct (sql_DbClose env _); eexists; reflexivity.
Qed.

(** X25. When [sql.Open] depends on its arguments only, the poller never
    panics: [createDatabase] is called only after a health check that
    opened the same data source name in the same iteration, so the nil
    dereference of its deferred [db.Close] (line 301) cannot happen
    there. *)
Theorem poller_never_panics env port username password database attempts h :
  open_is_pure env ->
  exists won, fst (poller env port username password database attempts h) = Ok won.
Proof.
  intros Hpure. revert h.
  induction attempts as [|n IH]; intros h; [eexists; reflexivity|].
  cbn [poller]. unfold bind at 1.
  destruct (healthCheckDatabase env port username password h) as [r1 es1] eqn:E1.
  pose proof (SqlFacts.healthCheckDatabase_result env port username password h)
    as [[r Hr] _].
  cbv zeta in Hr. rewrite E1 in Hr. cbn [fst] in Hr. subst r1.
  destruct r as [e1|].
  - destruct (IH (h ++ es1)) as [won Hw].
    destruct (poller env port username password database n (h ++ es1)).
    cbn [fst] in *. eauto.
  - assert (Ho : sql_Open env (h ++ es1) (connString port username password "postgres")
                 = None).
    { rewrite (Hpure _ h). apply healthCheck_nil_opened. rewrite E1. reflexivity. }
    destruct (createDatabase_opened env port username password database _ Ho)
      as [r2 Hr2].
    unfold bind.
    destruct (createDatabase env port username password database (h ++ es1))
      as [x es2]. cbn [fst] in Hr2. subst x.
    destruct r2 as [e2|].
    + destruct (IH ((h ++ es1) ++ es2)) as [won Hw].
      destruct (poller env port username password database n ((h ++ es1) ++ es2)).
      cbn [fst] in *. eauto.
    + cbn. eauto.
Qed.

Lemma poller_never_panics_witness :
  exists won, fst (poller answering 5432 "postgres" "postgres" "orders" 3 []) = Ok won.
Proof.
  refine (poller_never_panics answering 5432 "postgres" "postgres" "orders" 3 [] _).
  intros h h' dsn. reflexivity.
Defined.

End SqlPollerFacts.

(** ** A ready start and the stop after it *)

Module ReadyFacts.

Section Path.
Context (env : Env) (cfg : Cfg.Config).
Context (location : string) (syncEvents : list Event) (probeEvents : list OsEvent).
Hypothesis Hwon : race_won env cfg location syncEvents probeEvents.

Local Abbreviation st := (starting env cfg location syncEvents probeEvents).
Local Abbreviation sp := (stopping env cfg location syncEvents probeEvents).

Local Ltac go H2 H3 :=
  unfold step, starting, sup_ready;
  cbn -[filepath.Join postgresArgs readinessRace os_view lift];
  unfold lift; rewrite ?H2, ?H3; try reflexivity.

Lemma step_ready_boot rest t :
  step env t (boot env cfg (CallStart :: rest))
  = match t with
    | TMain => Some (make_pending env cfg location syncEvents rest)
    | TSup _ => None
    end.
Proof.
  destruct Hwon as (H1 & _).
  destruct t as [|i]; [|reflexivity].
  unfold step, boot. cbn [newDatabaseWithConfig crashed].
  unfold step_main. cbn [pc todo]. unfold Start, with_todo. cbn [ep trace].
  change (Start_sync env _ []) with (Start_sync env (fresh env cfg) []).
  rewrite H1. reflexivity.
Qed.

Lemma step_make_pending rest t :
  step env t (make_pending env cfg location syncEvents rest)
  = match t with
    | TMain => Some (go_pending env cfg location syncEvents rest)
    | TSup _ => None
    end.
Proof. destruct t; reflexivity. Qed.

Lemma step_go_pending rest t :
  step env t (go_pending env cfg location syncEvents rest)
  = match t with
    | TMain => Some (st rest 0 false)
    | TSup _ => None
    end.
Proof. destruct t; reflexivity. Qed.

Lemma step_sup_starting rest k back :
  (k <= 3)%nat ->
  step env (TSup 0) (st rest k back)
  = if (k <? 3)%nat then Some (st rest (S k) back) else None.
Proof.
  destruct Hwon as (_ & H2 & H3). intros Hk.
  do 4 (destruct k as [|k]; [destruct back; go H2 H3|]).
  lia.
Qed.

Lemma step_sup_other_starting rest i k back :
  step env (TSup (S i)) (st rest k back) = None.
Proof.
  unfold step, starting.
  destruct (sup_ready _ _ _ _ _) as [[[p hp] ps] tr]. reflexivity.
Qed.

Lemma step_main_starting rest k :
  (k <= 3)%nat ->
  step env TMain (st rest k false)
  = if (3 <=? k)%nat then Some (st rest k true) else None.
Proof.
  intros Hk.
  do 4 (destruct k as [|k]; [reflexivity|]).
  lia.
Qed.

Local Abbreviation start_path := (on_start_path env cfg location syncEvents probeEvents).

Lemma step_main_returned k : step env TMain (st [] k true) = None.
Proof.
  unfold step, starting. destruct (sup_ready _ _ _ _ _) as [[[p hp] ps] tr].
  reflexivity.
Qed.

Lemma on_start_path_step t s s' :
  start_path [] s -> step env t s = Some s' -> start_path [] s'.
Proof.
  intros [->|[->|[->|(k & back & Hk & Hback & ->)]]] H.
  - rewrite step_ready_boot in H. destruct t; simplify_eq. right. left. reflexivity.
  - rewrite step_make_pending in H. destruct t; simplify_eq.
    right. right. left. reflexivity.
  - rewrite step_go_pending in H. destruct t; simplify_eq.
    right. right. right. exists 0%nat, false. repeat split; [lia|discriminate].
  - right. right. right. destruct t as [|[|i]].
    + destruct back; [rewrite step_main_returned in H; discriminate|].
      rewrite step_main_starting in H by exact Hk.
      destruct (3 <=? k)%nat eqn:E; simplify_eq.
      exists k, true. apply Nat.leb_le in E. repeat split; [lia|lia].
    + rewrite step_sup_starting in H by exact Hk.
      destruct (k <? 3)%nat eqn:E; simplify_eq.
      apply Nat.ltb_lt in E. exists (S k), back. repeat split; [lia|].
      intros Hb. specialize (Hback Hb). lia.
    + rewrite step_sup_other_starting in H. discriminate.
Qed.

Lemma on_start_path_run schedule :
  start_path [] (run env schedule (boot env cfg [CallStart])).
Proof.
  apply MachineFacts.run_invariant; [apply on_start_path_step|].
  left. reflexivity.
Qed.

Lemma started_quiescent : quiescent env (st [] 3 true).
Proof.
  intros [|[|i]].
  - apply step_main_returned.
  - rewrite step_sup_starting by lia. reflexivity.
  - apply step_sup_other_starting.
Qed.

Lemma quiescent_started s : start_path [] s -> quiescent env s -> s = st [] 3 true.
Proof.
  intros [->|[->|[->|(k & back & Hk & Hback & ->)]]] Hq.
  - specialize (Hq TMain). rewrite step_ready_boot in Hq. discriminate.
  - specialize (Hq TMain). rewrite step_make_pending in Hq. discriminate.
  - specialize (Hq TMain). rewrite step_go_pending in Hq. discriminate.
  - pose proof (Hq (TSup 0)) as Hs. rewrite step_sup_starting in Hs by exact Hk.
    destruct (Nat.ltb_spec k 3); [discriminate|].
    assert (k = 3%nat) as -> by lia.
    destruct back; [reflexivity|].
    specialize (Hq TMain). rewrite step_main_starting in Hq by lia. discriminate.
Qed.

(** From every state of the run, [Start] can be brought to its end. *)
Lemma finish_start s :
  start_path [] s -> run env (Schedules.ready_start 0) s = st [] 3 true.
Proof.
  unfold Schedules.ready_start.
  assert (Hmain : forall j b, (j <= 3)%nat ->
             run env [TMain] (st [] j b) = st [] j (b || (3 <=? j)%nat)).
  { intros j b Hj. cbn [run]. destruct b.
    - rewrite step_main_returned. reflexivity.
    - rewrite step_main_starting by exact Hj.
      destruct (3 <=? j)%nat; reflexivity. }
  assert (Hsup : forall n j b, (j <= 3)%nat ->
             run env (repeat (TSup 0) n) (st [] j b) = st [] (Nat.min 3 (j + n)) b).
  { induction n as [|n IH]; intros j b Hj.
    - cbn [repeat run]. f_equal. lia.
    - cbn [repeat run]. rewrite step_sup_starting by exact Hj.
      destruct (Nat.ltb_spec j 3).
      + rewrite IH by lia. f_equal. lia.
      + rewrite IH by lia. f_equal. lia. }
  assert (Hb : run env [TMain] (boot env cfg [CallStart])
               = make_pending env cfg location syncEvents []).
  { cbn [run]. rewrite step_ready_boot. reflexivity. }
  assert (Hm : run env [TMain] (make_pending env cfg location syncEvents [])
               = go_pending env cfg location syncEvents []).
  { cbn [run]. rewrite step_make_pending. reflexivity. }
  assert (Hg : run env [TMain] (go_pending env cfg location syncEvents [])
               = st [] 0 false).
  { cbn [run]. rewrite step_go_pending. reflexivity. }
  change [TMain; TMain; TMain; TSup 0; TSup 0; TSup 0; TMain]
    with ([TMain] ++ [TMain] ++ [TMain] ++ repeat (TSup 0) 3 ++ [TMain]).
  intros [->|[->|[->|(k & back & Hk & Hback & ->)]]];
    rewrite !MachineFacts.run_app.
  - rewrite Hb, Hm, Hg, Hsup, Hmain by lia. reflexivity.
  - rewrite Hm, Hg, Hmain, Hsup, Hmain by lia. reflexivity.
  - rewrite Hg, !Hmain, Hsup, Hmain by lia. reflexivity.
  - rewrite !Hmain, Hsup, Hmain by lia.
    replace (Nat.min 3 (k + 3)) with 3%nat by lia.
    rewrite orb_true_r. reflexivity.
Qed.

Lemma start_path_facts s :
  start_path [] s ->
  crashed s = None
  /\ (forall r, In (CallStart, r) (results s) -> r = None)
  /\ (forall q p, procs s !! q = Some p -> p = Running)
  /\ (In (CallStart, None) (results s) -> s = st [] 3 true).
Proof.
  intros [->|[->|[->|(k & back & Hk & Hback & ->)]]];
    try (split; [reflexivity|]; split; [intros r []|];
         split; [intros q p X; discriminate X|intros []]).
  assert (k = 0 \/ k = 1 \/ k = 2 \/ k = 3)%nat as [->|[->|[->| ->]]] by lia;
    destruct back; try (specialize (Hback eq_refl); discriminate Hback);
    (split; [reflexivity|]); (split; [simpl; intuition congruence|]);
    (split; [intros [|q] p X; simpl in X; simplify_eq; reflexivity
            |simpl; intuition congruence]).
Qed.

(** *** The [Stop] that follows *)

Local Abbreviation path := (on_lifecycle_path env cfg location syncEvents probeEvents).
Local Abbreviation guard := (guard_passed env cfg location syncEvents probeEvents).
Local Abbreviation sent := (request_sent env cfg location syncEvents probeEvents).
Local Abbreviation taken := (request_taken_back env cfg location syncEvents probeEvents).

Lemma step_main_started :
  step env TMain (st [CallStop] 3 true) = Some guard.
Proof. reflexivity. Qed.

Lemma step_guard t :
  step env t guard = match t with TMain => Some sent | TSup _ => None end.
Proof. destruct t as [|[|i]]; reflexivity. Qed.

Lemma step_sent t :
  step env t sent
  = match t with
    | TMain => Some taken
    | TSup 0 => Some (sp 0 false)
    | TSup (S _) => None
    end.
Proof. destruct t as [|[|i]]; reflexivity. Qed.

Lemma taken_quiescent : quiescent env taken.
Proof. intros [|[|i]]; reflexivity. Qed.

Lemma step_sup_stopping j back :
  (j <= 4)%nat ->
  step env (TSup 0) (sp j back)
  = if (j <? 4)%nat then Some (sp (S j) back) else None.
Proof.
  intros Hj.
  do 5 (destruct j as [|j]; [destruct back; reflexivity|]).
  lia.
Qed.

Lemma step_sup_other_stopping i j back : step env (TSup (S i)) (sp j back) = None.
Proof.
  unfold step, stopping.
  destruct (sup_stopping _ _ _ _ _ _) as [[[p c] ps] tr]. reflexivity.
Qed.

Lemma step_main_stopping j back :
  (j <= 4)%nat ->
  step env TMain (sp j back)
  = if negb back && (3 <=? j)%nat then Some (sp j true) else None.
Proof.
  intros Hj.
  do 5 (destruct j as [|j]; [destruct back; reflexivity|]).
  lia.
Qed.

Lemma on_lifecycle_path_step t s s' : path s -> step env t s = Some s' -> path s'.
Proof.
  intros [[->|[->|[->|(k & back & Hk & Hback & ->)]]]|[->|[->|[->|(j & back & Hj & Hback & ->)]]]] H.
  - rewrite step_ready_boot in H. destruct t; simplify_eq. left. right. left. reflexivity.
  - rewrite step_make_pending in H. destruct t; simplify_eq.
    left. right. right. left. reflexivity.
  - rewrite step_go_pending in H. destruct t; simplify_eq.
    left. right. right. right. exists 0%nat, false. repeat split; [lia|discriminate].
  - destruct t as [|[|i]].
    + destruct back.
      * rewrite (Hback eq_refl), step_main_started in H. simplify_eq.
        right. left. reflexivity.
      * rewrite step_main_starting in H by exact Hk.
        destruct (3 <=? k)%nat eqn:E; simplify_eq.
        left. right. right. right. exists k, true. apply Nat.leb_le in E.
        repeat split; [lia|lia].
    + rewrite step_sup_starting in H by exact Hk.
      destruct (k <? 3)%nat eqn:E; simplify_eq.
      apply Nat.ltb_lt in E. left. right. right. right.
      exists (S k), back. repeat split; [lia|].
      intros Hb. specialize (Hback Hb). lia.
    + rewrite step_sup_other_starting in H. discriminate.
  - rewrite step_guard in H. destruct t; simplify_eq. right. right. left. reflexivity.
  - rewrite step_sent in H. destruct t as [|[|i]]; simplify_eq.
    + right. right. right. left. reflexivity.
    + right. right. right. right. exists 0%nat, false.
      repeat split; [lia|discriminate].
  - rewrite taken_quiescent in H. discriminate.
  - right. right. right. right. destruct t as [|[|i]].
    + rewrite step_main_stopping in H by exact Hj.
      destruct back; [discriminate|]. cbn [negb andb] in H.
      destruct (3 <=? j)%nat eqn:E; simplify_eq.
      exists j, true. apply Nat.leb_le in E. repeat split; auto.
    + rewrite step_sup_stopping in H by exact Hj.
      destruct (j <? 4)%nat eqn:E; simplify_eq.
      apply Nat.ltb_lt in E. exists (S j), back. repeat split; [lia|].
      intros Hb. specialize (Hback Hb). lia.
    + rewrite step_sup_other_stopping in H. discriminate.
Qed.

Lemma on_lifecycle_path_run schedule :
  path (run env schedule (boot env cfg [CallStart; CallStop])).
Proof.
  apply MachineFacts.run_invariant; [apply on_lifecycle_path_step|].
  left. left. reflexivity.
Qed.

Lemma stopped_quiescent : quiescent env (sp 4 true).
Proof.
  intros [|[|i]].
  - rewrite step_main_stopping by lia. reflexivity.
  - rewrite step_sup_stopping by lia. reflexivity.
  - apply step_sup_other_stopping.
Qed.

Lemma quiescent_lifecycle s :
  path s -> quiescent env s -> s = sp 4 true \/ s = taken.
Proof.
  intros [[->|[->|[->|(k & back & Hk & Hback & ->)]]]|[->|[->|[->|(j & back & Hj & Hback & ->)]]]] Hq.
  - specialize (Hq TMain). rewrite step_ready_boot in Hq. discriminate.
  - specialize (Hq TMain). rewrite step_make_pending in Hq. discriminate.
  - specialize (Hq TMain). rewrite step_go_pending in Hq. discriminate.
  - destruct back.
    + specialize (Hq TMain). rewrite (Hback eq_refl), step_main_started in Hq.
      discriminate.
    + pose proof (Hq (TSup 0)) as Hs. rewrite step_sup_starting in Hs by exact Hk.
      destruct (Nat.ltb_spec k 3); [discriminate|].
      specialize (Hq TMain). rewrite step_main_starting in Hq by lia.
      destruct (Nat.leb_spec 3 k); [discriminate|lia].
  - specialize (Hq TMain). rewrite step_guard in Hq. discriminate.
  - specialize (Hq TMain). rewrite step_sent in Hq. discriminate.
  - right. reflexivity.
  - left. pose proof (Hq (TSup 0)) as Hs. rewrite step_sup_stopping in Hs by exact Hj.
    destruct (Nat.ltb_spec j 4); [discriminate|].
    assert (j = 4%nat) as -> by lia.
    specialize (Hq TMain). rewrite step_main_stopping in Hq by lia.
    destruct back; [reflexivity|discriminate].
Qed.

Lemma lifecycle_crashed s : path s -> crashed s = None.
Proof.
  intros [[->|[->|[->|(k & back & Hk & Hback & ->)]]]|[->|[->|[->|(j & back & Hj & Hback & ->)]]]];
    try reflexivity.
  - unfold starting. destruct (sup_ready _ _ _ _ _) as [[[p hp] ps] tr]. reflexivity.
  - unfold stopping. destruct (sup_stopping _ _ _ _ _ _) as [[[p c] ps] tr]. reflexivity.
Qed.

Local Ltac walk :=
  repeat (first [ rewrite step_ready_boot | rewrite step_make_pending
                | rewrite step_go_pending
                | rewrite step_sup_starting by lia
                | rewrite step_main_starting by lia
                | rewrite step_main_started | rewrite step_guard
                | rewrite step_sent
                | rewrite step_sup_stopping by lia
                | rewrite step_main_stopping by lia ];
          cbn [run Nat.ltb Nat.leb negb andb]).

Lemma run_to_stopped :
  run env (Schedules.ready_start 0 ++ Schedules.stop 0)
      (boot env cfg [CallStart; CallStop]) = sp 4 true.
Proof.
  unfold Schedules.ready_start, Schedules.stop. cbn [app run].
  walk. reflexivity.
Qed.

Lemma run_to_taken :
  run env (Schedules.ready_start 0 ++ Ready.stop_alone)
      (boot env cfg [CallStart; CallStop]) = taken.
Proof.
  unfold Schedules.ready_start, Ready.stop_alone. cbn [app run].
  walk. reflexivity.
Qed.

End Path.

(** X20. On a new coordinator whose [Start] reaches the supervisor and
    whose poller wins the readiness race, in every state of every
    schedule: nothing has panicked; [Start], once returned, has returned
    nil; no child is ever signalled or reaped.  Once [Start] has returned,
    and in every state where no goroutine can move, the child runs, the
    startup channel is closed, the shutdown channel is open and empty, the
    supervisor waits in its loop of line 279, and the spawn and the probes
    are the last external calls.  Such a state is reached from every state
    of every schedule by letting the caller and the supervisor run on. *)
Theorem ready_start_leaves_child_running
        env cfg location syncEvents probeEvents schedule :
  race_won env cfg location syncEvents probeEvents ->
  let s := run env schedule (boot env cfg [CallStart]) in
  crashed s = None
  /\ (forall r, In (CallStart, r) (results s) -> r = None)
  /\ (forall q p, procs s !! q = Some p -> p = Running)
  /\ (In (CallStart, None) (results s) \/ quiescent env s ->
      procs s = [Running] /\ sups s = [SRange 0]
      /\ heap s = [make_chan; closed_chan]
      /\ trace s = (syncEvents ++ [spawnEvent cfg location]) ++ map Os probeEvents)
  /\ let final := run env (Schedules.ready_start 0) s in
     quiescent env final /\ results final = [(CallStart, None)].
Proof.
  intros Hwon s.
  pose proof (on_start_path_run env cfg location syncEvents probeEvents Hwon schedule)
    as Hpath. fold s in Hpath.
  destruct (start_path_facts env cfg _ _ _ s Hpath) as (Hc & Hr & Hp & Hback).
  split; [exact Hc|]. split; [exact Hr|]. split; [exact Hp|]. split.
  - intros [Hin|Hq].
    + rewrite (Hback Hin). repeat split.
    + rewrite (quiescent_started env cfg _ _ _ Hwon s Hpath Hq). repeat split.
  - cbv zeta. rewrite (finish_start env cfg _ _ _ Hwon s Hpath).
    split; [apply started_quiescent; exact Hwon|reflexivity].
Qed.

Lemma ready_start_leaves_child_running_witness :
  let s := run Envs.healthy [TMain; TMain; TMain; TSup 0]
               (boot Envs.healthy Cfg.DefaultConfig [CallStart]) in
  crashed s = None
  /\ (forall r, In (CallStart, r) (results s) -> r = None)
  /\ (forall q p, procs s !! q = Some p -> p = Running)
  /\ (In (CallStart, None) (results s) \/ quiescent Envs.healthy s ->
      procs s = [Running] /\ sups s = [SRange 0]
      /\ heap s = [make_chan; closed_chan]
      /\ trace s = (Ready.syncEvents
                      ++ [spawnEvent Cfg.DefaultConfig Ready.location])
                     ++ map Os Ready.probeEvents)
  /\ let final := run Envs.healthy (Schedules.ready_start 0) s in
     quiescent Envs.healthy final /\ results final = [(CallStart, None)].
Proof.
  refine (ready_start_leaves_child_running Envs.healthy Cfg.DefaultConfig
            Ready.location Ready.syncEvents Ready.probeEvents
            [TMain; TMain; TMain; TSup 0] _).
  vm_compute. repeat split.
Defined.

(** X21. On a new coordinator whose [Start] reaches the supervisor and
    whose poller wins the readiness race, with [Stop] called after
    [Start]: nothing panics under any schedule, and a state in which no
    goroutine can move is one of two.  Either [Stop] has returned nil, the
    child is reaped and the supervisor has returned; or [Stop] has received
    back at line 321 the request it sent at line 320, before the supervisor
    received it at line 279, and then waits for ever beside the waiting
    supervisor and the running child.  Both ends are reached: the first
    when the supervisor receives the request, the second when the caller
    runs alone after [Start] has returned. *)
Theorem stop_after_ready_start
        env cfg location syncEvents probeEvents schedule :
  race_won env cfg location syncEvents probeEvents ->
  let start := boot env cfg [CallStart; CallStop] in
  let s := run env schedule start in
  crashed s = None
  /\ (quiescent env s -> stopped s \/ stop_hangs s)
  /\ (let served := run env (Schedules.ready_start 0 ++ Schedules.stop 0) start in
      quiescent env served /\ stopped served)
  /\ (let alone := run env (Schedules.ready_start 0 ++ Ready.stop_alone) start in
      quiescent env alone /\ stop_hangs alone).
Proof.
  intros Hwon start s.
  pose proof (on_lifecycle_path_run env cfg location syncEvents probeEvents Hwon
                schedule) as Hpath. fold start in Hpath. fold s in Hpath.
  split; [exact (lifecycle_crashed env cfg _ _ _ s Hpath)|]. split; [|split].
  - intros Hq.
    destruct (quiescent_lifecycle env cfg _ _ _ Hwon s Hpath Hq) as [->| ->].
    + left. repeat split.
    + right. repeat split.
  - cbv zeta. unfold start. rewrite (run_to_stopped env cfg _ _ _ Hwon).
    split; [apply stopped_quiescent|repeat split].
  - cbv zeta. unfold start. rewrite (run_to_taken env cfg _ _ _ Hwon).
    split; [apply taken_quiescent|repeat split].
Qed.

Lemma stop_after_ready_start_witness :
  let start := boot Envs.healthy Cfg.DefaultConfig [CallStart; CallStop] in
  let s := run Envs.healthy (Schedules.ready_start 0 ++ [TMain; TMain]) start in
  crashed s = None
  /\ (quiescent Envs.healthy s -> stopped s \/ stop_hangs s)
  /\ (let served := run Envs.healthy
                        (Schedules.ready_start 0 ++ Schedules.stop 0) start in
      quiescent Envs.healthy served /\ stopped served)
  /\ (let alone := run Envs.healthy
                       (Schedules.ready_start 0 ++ Ready.stop_alone) start in
      quiescent Envs.healthy alone /\ stop_hangs alone).
Proof.
  refine (stop_after_ready_start Envs.healthy Cfg.DefaultConfig
            Ready.location Ready.syncEvents Ready.probeEvents
            (Schedules.ready_start 0 ++ [TMain; TMain]) _).
  vm_compute. repeat split.
Defined.

End ReadyFacts.

(** ** What the fetch strategy closes *)

Module ReleaseFacts.

Lemma bind_alive {E A B} (m : Act E A) (k : A -> Act E B) h :
  exits (fst (m h)) = false -> (forall a h', exits (fst (k a h')) = false) ->
  exits (fst (bind m k h)) = false.
Proof.
  intros Hm Hk. unfold bind. destruct (m h) as [[a|c] es]; cbn [fst] in *.
  - specialize (Hk a (h ++ es)). destruct (k a (h ++ es)). exact Hk.
  - exact Hm.
Qed.

(** A deferred call runs unless the program exits before. *)
Lemma defer_runs {E A} (d : Act E unit) (body : Act E A) h :
  exits (fst (body h)) = false ->
  snd (defer d body h) = snd (body h) ++ snd (d (h ++ snd (body h))).
Proof.
  unfold defer. destruct (body h) as [[a|c] es]; cbn [fst snd]; intros Hb.
  - destruct (d (h ++ es)). reflexivity.
  - destruct c; try (destruct (d (h ++ es)); reflexivity). discriminate Hb.
Qed.

Lemma defer_exits {E A} (d : Act E unit) (body : Act E A) h :
  exits (fst (body h)) = true -> defer d body h = (Crash LogFatal, snd (body h)).
Proof.
  unfold defer. destruct (body h) as [[a|c] es]; cbn [fst snd]; intros Hb;
    [discriminate|]. destruct c; try discriminate Hb. reflexivity.
Qed.

Section Fetch.

Context (env : Env) (os arch version : string).

Local Abbreviation locator := (defaultCacheLocator env (ret (os, arch, version))).
Local Abbreviation url := (downloadUrl os arch version).

Lemma locator_alive h : exits (fst (locator h)) = false.
Proof.
  rewrite LocatorFacts.locator_unfold. cbv zeta. cbn [fst].
  destruct (env_Stat _ _ _) as [i|err]; [|destruct (os_IsExist err)]; reflexivity.
Qed.

Lemma createArchiveFile_alive p data h :
  exits (fst (createArchiveFile env p data h)) = false.
Proof.
  rewrite ArchiveFacts.createArchiveFile_run. cbv zeta.
  destruct (env_MkdirAll _ _ _); [|destruct (env_Create _ _ _)]; reflexivity.
Qed.

Lemma fetchEntries_alive entries h :
  exits (fst (fetchEntries env locator entries h)) = false.
Proof.
  revert h. induction entries as [|entry rest IH]; intros h.
  - reflexivity.
  - cbn [fetchEntries]. apply bind_alive; [reflexivity|]. intros _ h1.
    destruct (ze_open entry) as [err|].
    { destruct (errors_Is_EOF err); reflexivity. }
    destruct (negb _); [apply IH|].
    apply bind_alive; [reflexivity|]. intros _ h2.
    destruct (ze_data entry) as [data|err]; [|reflexivity].
    apply bind_alive; [apply locator_alive|]. intros loc h3.
    apply bind_alive; [apply createArchiveFile_alive|]. intros [err|] h4;
      [reflexivity|apply IH].
Qed.

Lemma fetchEntries_reads entries h :
  In EvZipRead (snd (fetchEntries env locator entries h)).
Proof.
  destruct entries as [|entry rest]; [left; reflexivity|].
  cbn [fetchEntries]. rewrite StartFacts.snd_bind. apply in_app_iff. left.
  left. reflexivity.
Qed.

Lemma closeBody_closes r h0 : In EvBodyClose (snd (closeBody (Some r) h0)).
Proof.
  unfold closeBody. rewrite StartFacts.snd_bind. apply in_app_iff. left.
  left. reflexivity.
Qed.

Lemma closeBody_events resp h0 e :
  In e (snd (closeBody resp h0)) -> e = EvBodyClose.
Proof.
  unfold closeBody. destruct resp as [r|]; [|intros []].
  intros H. apply ArchiveFacts.in_bind in H as [H|(_ & _ & H)].
  - destruct H as [<-|[]]. reflexivity.
  - destruct (resp_close r); [|destruct H].
    apply ArchiveFacts.in_bind in H as [H|(_ & _ & H)]; [|destruct H].
    destruct H as [<-|[]]. reflexivity.
Qed.

Lemma closeZip_closes z h0 : In EvZipClose (snd (closeZip z h0)).
Proof.
  unfold closeZip. rewrite StartFacts.snd_bind. apply in_app_iff. left.
  left. reflexivity.
Qed.

(** The archive is closed when it was opened. *)
Lemma archive_closed (r : Response) (err : option error) h1 :
  let body : Act OsEvent (option error) :=
    match err with
    | Some e => ret (Some e)
    | None =>
        emit EvReadBody ;;;
        match resp_body r with
        | inr e => ret (Some e)
        | inl bodyBytes =>
            opened <- call EvZipOpen
                        (fun h => env_ZipOpen env h bodyBytes (resp_ContentLength r)) ;;
            match opened with
            | inr e => ret (Some e)
            | inl zipFile =>
                defer (closeZip zipFile) (fetchEntries env locator (zf_entries zipFile))
            end
        end
    end in
  In EvZipRead (snd (body h1)) -> In EvZipClose (snd (body h1)).
Proof.
  cbv zeta. destruct err as [e|]; [intros []|].
  rewrite StartFacts.snd_bind. cbn [emit fst snd].
  destruct (resp_body r) as [bodyBytes|e];
    [|intros [X|[]]; discriminate X].
  rewrite StartFacts.snd_bind. cbn [call fst snd].
  destruct (env_ZipOpen env _ bodyBytes _) as [zipFile|e];
    [|intros [X|[X|[]]]; discriminate X].
  intros _. rewrite defer_runs by apply fetchEntries_alive.
  apply in_app_iff. right. apply in_app_iff. right. apply in_app_iff. right.
  apply closeZip_closes.
Qed.

(** X22. When [http.Get] returns a response, the fetch strategy closes
    what it opened: the response body is closed on every path, unless the
    program exits through [log.Fatal] before (line 390); and once the
    downloaded container has been opened and read from, it is closed,
    whatever the entries hold and whatever fails, a panic of the cache
    locator included. *)
Theorem fetch_closes_what_it_opened h r err :
  env_HttpGet env h url = (Some r, err) ->
  let out := defaultRemoteFetchStrategy env (ret (os, arch, version)) locator h in
  (In EvBodyClose (snd out) \/ fst out = Crash LogFatal)
  /\ (In EvZipRead (snd out) -> In EvZipClose (snd out)).
Proof.
  intros Hget out. subst out.
  destruct (defaultRemoteFetchStrategy env (ret (os, arch, version)) locator h)
    as [res evs] eqn:E.
  unfold defaultRemoteFetchStrategy in E.
  unfold bind at 1 in E. cbn [ret] in E. rewrite app_nil_r in E. cbn [app] in E.
  unfold bind at 1 in E. cbn [call] in E. rewrite Hget in E.
  pose proof (archive_closed r err (h ++ [EvHttpGet url])) as Hzip. cbv zeta in Hzip.
  match type of Hzip with
  | In _ (snd (?b _)) -> _ => set (body := b) in *
  end.
  cbn [fst snd].
  destruct (exits (fst (body (h ++ [EvHttpGet url])))) eqn:Hex.
  - rewrite (defer_exits _ _ _ Hex) in E. injection E as <- <-.
    split; [right; reflexivity|].
    intros [X|X]; [discriminate X|]. right. exact (Hzip X).
  - pose proof (defer_runs (closeBody (Some r)) body _ Hex) as Hev.
    destruct (defer (closeBody (Some r)) body (h ++ [EvHttpGet url])) as [r0 es'].
    cbn [snd] in Hev. injection E as <- <-. rewrite Hev. split.
    + left. right. apply in_app_iff. right. apply closeBody_closes.
    + intros [X|X]; [discriminate X|]. right.
      apply in_app_iff in X as [X|X].
      * apply in_app_iff. left. exact (Hzip X).
      * apply closeBody_events in X. discriminate X.
Qed.

End Fetch.
Lemma fetch_closes_what_it_opened_witness :
  let out := defaultRemoteFetchStrategy MoreEnvs.with_archive
               (ret ("linux", "amd64", "12.1.0"))
               (defaultCacheLocator MoreEnvs.with_archive
                  (ret ("linux", "amd64", "12.1.0"))) [] in
  (In EvBodyClose (snd out) \/ fst out = Crash LogFatal)
  /\ (In EvZipRead (snd out) -> In EvZipClose (snd out)).
Proof.
  refine (fetch_closes_what_it_opened MoreEnvs.with_archive
            "linux" "amd64" "12.1.0" [] Envs.response None _).
  reflexivity.
Defined.

End ReleaseFacts.

(** ** What the cache locator reports *)

Module LocatorMoreFacts.

(** X23. The default cache locator makes exactly two external calls,
    [os.UserHomeDir] and [os.Stat] of the path it computes, and changes
    nothing.  It reports the archive present exactly when the stat succeeds
    on something that is not a directory; it panics (line 155 evaluates
    [info.IsDir()] on a nil [info]) exactly when the stat fails with an
    error that [os.IsExist] accepts; in every other case it returns the
    path with the flag false. *)
Theorem locator_reports_regular_file env os arch version h :
  let path := cachePath (env_UserHomeDir env h) os arch version in
  let stat := env_Stat env (h ++ [EvUserHomeDir]) path in
  let out := defaultCacheLocator env (ret (os, arch, version)) h in
  snd out = [EvUserHomeDir; EvStat path]
  /\ (fst out = Ok (path, true)
      <-> exists info, stat = inl info /\ fi_isDir info = false)
  /\ (fst out = Crash NilDeref
      <-> exists err, stat = inr err /\ os_IsExist err = true)
  /\ (fst out = Ok (path, true) \/ fst out = Ok (path, false)
      \/ fst out = Crash NilDeref).
Proof.
  intros path stat out. subst out stat.
  rewrite LocatorFacts.locator_unfold. cbv zeta. fold path. cbn [fst snd].
  split; [reflexivity|].
  destruct (env_Stat env (h ++ [EvUserHomeDir]) path) as [info|err].
  - destruct info as [[|]]; cbn [negb fi_isDir].
    + split; [split; [discriminate|intros (i & Hi & Hd)]|].
      * injection Hi as <-. discriminate Hd.
      * split; [split; [discriminate|intros (e & He & _); discriminate He]|auto].
    + split; [split; [eauto|reflexivity]|].
      split; [split; [discriminate|intros (e & He & _); discriminate He]|auto].
  - destruct (os_IsExist err) eqn:E.
    + split; [split; [discriminate|intros (i & Hi & _); discriminate Hi]|].
      split; [split; [eauto|reflexivity]|auto].
    + split; [split; [discriminate|intros (i & Hi & _); discriminate Hi]|].
      split; [split; [discriminate|intros (e & He & Hx)]|auto].
      injection He as <-. congruence.
Qed.

End LocatorMoreFacts.

(** ** A stop after a start whose deadline passed *)

Module LateFacts.

Lemma late_views_closed :
  forallb (fun a =>
             forallb (fun t => match late_step t a with
                               | Some b => seen b late_views
                               | None => true
                               end) [TMain; TSup 0])
          late_views = true.
Proof. vm_compute. reflexivity. Qed.

Lemma late_ends :
  forallb (fun a => implb (late_quiescent a) (late_end a)) late_views = true.
Proof. vm_compute. reflexivity. Qed.

Lemma view_eqb_eq a b : view_eqb a b = true -> a = b.
Proof.
  destruct a as [m k x c], b as [m' k' x' c']. unfold view_eqb. cbn [v_caller v_sup v_queued v_crash].
  intros H. apply andb_prop in H as [H Hc]. apply andb_prop in H as [H Hx].
  apply andb_prop in H as [Hm Hk].
  f_equal.
  - destruct m, m'; first [reflexivity|discriminate Hm].
  - destruct k as [i|], k' as [j|]; try discriminate Hk; [|reflexivity].
    apply Nat.eqb_eq in Hk. congruence.
  - apply Bool.eqb_prop. exact Hx.
  - destruct c as [[]|], c' as [[]|]; first [reflexivity|discriminate Hc].
Qed.

Lemma seen_In a l : seen a l = true -> In a l.
Proof.
  unfold seen. intros H. apply existsb_exists in H as (b & Hb & E).
  apply view_eqb_eq in E. subst b. exact Hb.
Qed.

Section Path.
Context (env : Env) (cfg : Cfg.Config).
Context (location : string) (syncEvents : list Event) (probeEvents : list OsEvent).
Hypothesis Hpass : deadline_passes env cfg location syncEvents probeEvents.

Local Abbreviation state := (late_state env cfg location syncEvents probeEvents).

Lemma state_boot : state late_boot = boot env cfg [CallStart; CallStop].
Proof. reflexivity. Qed.

(** The views move as the program does. *)
Lemma late_step_sound a t :
  In a late_views ->
  step env t (state a) = option_map state (late_step t a).
Proof.
  destruct Hpass as (H1 & H2 & H3).
  unfold late_views. intros Hin.
  destruct Hin as [<-|Hin].
  { destruct t as [|[|i]].
    - unfold step, late_state.
      cbn -[filepath.Join postgresArgs readinessRace os_view lift Start_sync fresh].
      unfold lift; rewrite ?H1, ?H2, ?H3. reflexivity.
    - reflexivity.
    - reflexivity. }
  repeat (destruct Hin as [<-|Hin];
          [destruct t as [|[|i]];
           first [ reflexivity
                 | unfold step, late_state;
                   cbn -[filepath.Join postgresArgs readinessRace os_view lift];
                   unfold lift; rewrite ?H2, ?H3; reflexivity ]|]).
  destruct Hin.
Qed.

Lemma late_step_known a t b :
  In a late_views -> late_step t a = Some b -> In b late_views.
Proof.
  intros Hin Hstep. apply seen_In.
  pose proof late_views_closed as Hc.
  rewrite forallb_forall in Hc. specialize (Hc a Hin).
  rewrite forallb_forall in Hc.
  destruct t as [|[|i]].
  - specialize (Hc TMain (or_introl eq_refl)). rewrite Hstep in Hc. exact Hc.
  - specialize (Hc (TSup 0) (or_intror (or_introl eq_refl))).
    rewrite Hstep in Hc. exact Hc.
  - unfold late_step in Hstep. destruct (v_crash a); [discriminate|].
    destruct a. discriminate.
Qed.

(** The views follow the program along every schedule. *)
Lemma late_run_sound schedule a :
  In a late_views ->
  run env schedule (state a) = state (late_run schedule a)
  /\ In (late_run schedule a) late_views.
Proof.
  revert a. induction schedule as [|t rest IH]; intros a Hin; [auto|].
  cbn [run late_run]. rewrite (late_step_sound a t Hin).
  destruct (late_step t a) as [b|] eqn:E; cbn [option_map].
  - apply IH. exact (late_step_known a t b Hin E).
  - apply IH. exact Hin.
Qed.

Lemma late_boot_known : In late_boot late_views.
Proof. left. reflexivity. Qed.

Lemma late_quiescent_sound a :
  In a late_views -> quiescent env (state a) -> late_end a = true.
Proof.
  intros Hin Hq.
  pose proof late_ends as He. rewrite forallb_forall in He.
  specialize (He a Hin).
  assert (Hl : late_quiescent a = true).
  { unfold late_quiescent.
    pose proof (Hq TMain) as Hm. rewrite (late_step_sound a TMain Hin) in Hm.
    pose proof (Hq (TSup 0)) as Hs. rewrite (late_step_sound a (TSup 0) Hin) in Hs.
    destruct (late_step TMain a); [discriminate|].
    destruct (late_step (TSup 0) a); [discriminate|]. reflexivity. }
  rewrite Hl in He. exact He.
Qed.

Lemma late_results a call r :
  In (call, r) (results (state a)) -> r = None.
Proof.
  destruct a as [m k x c]. destruct m; cbn; intuition congruence.
Qed.

Lemma late_end_cases a :
  late_end a = true ->
  (v_crash a = None /\ v_caller a = Stopped /\ v_sup a = Some 9%nat)
  \/ v_crash a = Some SendOnClosed \/ v_crash a = Some CloseOfClosed.
Proof.
  destruct a as [m k x c]. unfold late_end. cbn [v_crash v_caller v_sup].
  destruct c as [[]|]; try discriminate; auto.
  destruct m; try discriminate.
  destruct k as [k|]; [|discriminate].
  do 10 (destruct k as [|k]; try discriminate). auto.
Qed.

Lemma late_crashes :
  forallb (fun a => crash_eqb (v_crash a) None
                    || crash_eqb (v_crash a) (Some SendOnClosed)
                    || crash_eqb (v_crash a) (Some CloseOfClosed))
          late_views = true.
Proof. vm_compute. reflexivity. Qed.

End Path.

(** X24. On a new coordinator whose [Start] reaches the supervisor and
    whose readiness deadline passes, with [Stop] called after [Start] has
    returned nil, under every schedule: no call returns an error, and the
    only panics are a send on the closed shutdown channel (line 320) and a
    close of the closed shutdown channel (line 287).  A state in which no
    goroutine can move is the end of one of three runs, and each of the
    three happens.  [Stop] returns nil, with the child reaped and the
    supervisor returned.  Or the supervisor has shut the child down and
    closed the channel before [Stop] sends, and the send panics.  Or the
    request of [Stop] is still buffered when the supervisor closes the
    channel; the supervisor, back in its loop, receives it, signals and
    waits for the reaped child again, and its second close panics. *)
Theorem stop_after_timed_out_start
        env cfg location syncEvents probeEvents schedule :
  deadline_passes env cfg location syncEvents probeEvents ->
  let start := boot env cfg [CallStart; CallStop] in
  let s := run env schedule start in
  (forall call r, In (call, r) (results s) -> r = None)
  /\ (crashed s = None \/ crashed s = Some SendOnClosed
      \/ crashed s = Some CloseOfClosed)
  /\ (quiescent env s ->
      (crashed s = None
       /\ results s = [(CallStart, None); (CallStop, None)]
       /\ procs s = [Reaped] /\ sups s = [SDone])
      \/ crashed s = Some SendOnClosed \/ crashed s = Some CloseOfClosed)
  /\ (let served := run env Late.caller_takes start in
      crashed served = None
      /\ results served = [(CallStart, None); (CallStop, None)])
  /\ (let late := run env Late.sup_first start in
      crashed late = Some SendOnClosed
      /\ pc late = MStopSend /\ sups late = [SDone])
  /\ (let twice := run env Late.sup_takes start in
      crashed twice = Some CloseOfClosed
      /\ pc twice = MStopRange /\ sups twice = [SClose 0]).
Proof.
  intros Hpass start s. subst s start.
  rewrite <- (state_boot env cfg location syncEvents probeEvents).
  pose proof (fun sch => late_run_sound env cfg location syncEvents probeEvents
                           Hpass sch late_boot late_boot_known) as Hrun.
  destruct (Hrun schedule) as [-> Hin].
  split; [intros call r; apply late_results|]. split; [|split].
  - cbn [late_state crashed].
    pose proof late_crashes as Hc. rewrite forallb_forall in Hc.
    specialize (Hc _ Hin).
    destruct (v_crash (late_run schedule late_boot)) as [[]|];
      first [discriminate Hc|auto].
  - intros Hq.
    apply (late_quiescent_sound env cfg _ _ _ Hpass _ Hin) in Hq.
    apply late_end_cases in Hq as [(Hc & Hm & Hk)|[Hc|Hc]].
    + left. destruct (late_run schedule late_boot) as [m k x c].
      cbn [v_crash v_caller v_sup] in *. subst. repeat split.
    + right. left. exact Hc.
    + right. right. exact Hc.
  - cbv zeta.
    rewrite (proj1 (Hrun Late.caller_takes)), (proj1 (Hrun Late.sup_first)),
            (proj1 (Hrun Late.sup_takes)).
    repeat split.
Qed.

Lemma stop_after_timed_out_start_witness :
  let env := Envs.never_ready in
  let start := boot env Cfg.DefaultConfig [CallStart; CallStop] in
  let s := run env Late.sup_takes start in
  (forall call r, In (call, r) (results s) -> r = None)
  /\ (crashed s = None \/ crashed s = Some SendOnClosed
      \/ crashed s = Some CloseOfClosed)
  /\ (quiescent env s ->
      (crashed s = None
       /\ results s = [(CallStart, None); (CallStop, None)]
       /\ procs s = [Reaped] /\ sups s = [SDone])
      \/ crashed s = Some SendOnClosed \/ crashed s = Some CloseOfClosed)
  /\ (let served := run env Late.caller_takes start in
      crashed served = None
      /\ results served = [(CallStart, None); (CallStop, None)])
  /\ (let late := run env Late.sup_first start in
      crashed late = Some SendOnClosed
      /\ pc late = MStopSend /\ sups late = [SDone])
  /\ (let twice := run env Late.sup_takes start in
      crashed twice = Some CloseOfClosed
      /\ pc twice = MStopRange /\ sups twice = [SClose 0]).
Proof.
  refine (stop_after_timed_out_start Envs.never_ready Cfg.DefaultConfig
            NeverReady.location NeverReady.syncEvents NeverReady.probeEvents
            Late.sup_takes _).
  vm_compute. repeat split.
Defined.

End LateFacts.
